(** * approver-policy: the policy selection and review engine

    A shallow embedding of
      - pkg/approver/manager/predicate/predicate.go
      - pkg/approver/manager/subjectaccessreview.go
    together with the collaborators they call (the Kubernetes client, the
    registered evaluators) and the helpers they rely on.

    Go strings are byte strings ([string]); slices are lists; a pointer that
    may be nil is an [option]; a Go function returning [(T, error)] returns a
    pair of a [T] and an [option error].  Every call Review makes to a
    collaborator is recorded, in order, in a trace of events.

    The collaborators are functions of their arguments: within one review
    the store lists one list of policies, and the oracle and the evaluators
    answer the same question the same way.  Contexts and their cancellation
    are left out. *)

From Stdlib Require Import String Ascii.
From stdpp Require Import base option list strings pretty gmap sorting.

(** ** Go runtime: errors, strings *)

Module errors.

(** A Go [error] value: either an opaque error with its text, or an error
    built by [fmt.Errorf("<prefix>%w", cause)], which keeps its cause. *)
Inductive error : Type :=
| New (text : string)
| Errorf_w (prefix : string) (cause : error).

(** [err.Error()] *)
Fixpoint Error (err : error) : string :=
  match err with
  | New text => text
  | Errorf_w prefix cause => prefix +:+ Error cause
  end.

(** [errors.Unwrap(err)] *)
Definition Unwrap (err : error) : option error :=
  match err with
  | New _ => None
  | Errorf_w _ cause => Some cause
  end.

(** [target] is [err] or a cause reachable from it by [Unwrap]. *)
Inductive Wraps (target : error) : error → Prop :=
| Wraps_here : Wraps target target
| Wraps_cause prefix err : Wraps target err → Wraps target (Errorf_w prefix err).

End errors.

Abbreviation error := errors.error.

Module strings.

(** [strings.Join(elems, sep)] *)
Fixpoint Join (elems : list string) (sep : string) : string :=
  match elems with
  | [] => ""
  | [s] => s
  | s :: rest => s +:+ sep +:+ Join rest sep
  end.

End strings.

(** ** API types

    The types of cert-manager, of Kubernetes and of pkg/apis/policy/v1alpha1,
    with the fields that the sources and the test of the attribute
    evaluator read or set. *)

Module cmmeta.

Record ObjectReference : Type := {
  Name : string;
  Kind : string;
  Group : string;
}.

End cmmeta.

Module cmapi.

(** Key algorithms of cert-manager. *)
Inductive PrivateKeyAlgorithm : Type := RSAKeyAlgorithm | ECDSAKeyAlgorithm | Ed25519KeyAlgorithm.

#[global] Instance PrivateKeyAlgorithm_eq_dec : EqDecision PrivateKeyAlgorithm.
Proof. solve_decision. Defined.

(** The decoded PKCS#10 request carried (PEM encoded) by [spec.request]. *)
Record CertificateSigningRequest : Type := {
  CommonName : string;
  DNSNames : list string;
  IPAddresses : list string;
  URIs : list string;
  KeyAlgorithm : PrivateKeyAlgorithm;
  KeySize : nat;
}.

Record CertificateRequestSpec : Type := {
  Duration : option Z;
  IssuerRef : cmmeta.ObjectReference;
  Request : CertificateSigningRequest;
  IsCA : bool;
  Username : string;
  UID : string;
  Groups : list string;
  Extra : gmap string (list string);
}.

Record CertificateRequest : Type := {
  Namespace : string;
  Spec : CertificateRequestSpec;
}.

End cmapi.

Module corev1.

Definition ConditionStatus : Type := string.
Definition ConditionTrue : ConditionStatus := "True".
Definition ConditionFalse : ConditionStatus := "False".
Definition ConditionUnknown : ConditionStatus := "Unknown".

End corev1.

Module cmpapi.

Record PolicyPrivateKey : Type := {
  AllowedAlgorithm : option cmapi.PrivateKeyAlgorithm;
  MinSize : option nat;
  MaxSize : option nat;
}.

Record CertificateRequestPolicyIssuerRefSelector : Type := {
  SelectorName : option string;
  SelectorKind : option string;
  SelectorGroup : option string;
}.

Record CertificateRequestPolicySpec : Type := {
  AllowedCommonName : option string;
  MinDuration : option Z;
  AllowedDNSNames : option (list string);
  AllowedIPAddresses : option (list string);
  AllowedURIs : option (list string);
  AllowedIssuers : option (list cmmeta.ObjectReference);
  AllowedIsCA : option bool;
  AllowedPrivateKey : option PolicyPrivateKey;
  IssuerRefSelector : CertificateRequestPolicyIssuerRefSelector;
}.

Definition CertificateRequestPolicyConditionType : Type := string.
Definition CertificateRequestPolicyConditionReady : CertificateRequestPolicyConditionType := "Ready".

Record CertificateRequestPolicyCondition : Type := {
  ConditionType : CertificateRequestPolicyConditionType;
  ConditionStatus : corev1.ConditionStatus;
}.

Record CertificateRequestPolicyStatus : Type := {
  Conditions : list CertificateRequestPolicyCondition;
}.

Record CertificateRequestPolicy : Type := {
  Name : string;
  Spec : CertificateRequestPolicySpec;
  Status : CertificateRequestPolicyStatus;
}.

End cmpapi.

Module authzv1.

Record ResourceAttributes : Type := {
  Namespace : string;
  Verb : string;
  Group : string;
  Resource : string;
  Name : string;
}.

(** [ResourceAttributes_] is the field [ResourceAttributes], a pointer. *)
Record SubjectAccessReviewSpec : Type := {
  ResourceAttributes_ : option ResourceAttributes;
  User : string;
  Groups : list string;
  Extra : gmap string (list string);
  UID : string;
}.

Record SubjectAccessReviewStatus : Type := {
  Allowed : bool;
}.

Record SubjectAccessReview : Type := {
  Spec : SubjectAccessReviewSpec;
  Status : SubjectAccessReviewStatus;
}.

End authzv1.

(** ** Collaborators *)

Module approver.

(** The two results the sources name, [approver.ResultDenied] and
    [approver.ResultNotDenied]. *)
Inductive EvaluationResult : Type := ResultDenied | ResultNotDenied.

#[global] Instance EvaluationResult_eq_dec : EqDecision EvaluationResult.
Proof. solve_decision. Defined.

Record EvaluationResponse : Type := {
  Result : EvaluationResult;
  Message : string;
}.

(** The [Evaluator] interface: its one method [Evaluate(ctx, crp, cr)]. *)
Record Evaluator : Type := {
  Evaluate :
    cmpapi.CertificateRequestPolicy → cmapi.CertificateRequest →
    EvaluationResponse * option error;
}.

End approver.

Module client.

(** The two methods of the controller-runtime client the engine calls.
    [List] fills the policy list it is handed; [Create] fills the status
    of the review it is handed. *)
Record Client : Type := {
  List : list cmpapi.CertificateRequestPolicy * option error;
  Create : authzv1.SubjectAccessReview → authzv1.SubjectAccessReview * option error;
}.

End client.

(** ** Traces of collaborator calls *)

Inductive Event : Type :=
| ListCall (items : list cmpapi.CertificateRequestPolicy) (err : option error)
| CreateCall (rev : authzv1.SubjectAccessReview) (err : option error)
| EvaluateCall (evaluator : approver.Evaluator)
               (crp : cmpapi.CertificateRequestPolicy)
               (response : approver.EvaluationResponse) (err : option error).

Definition event_error (ev : Event) : option error :=
  match ev with
  | ListCall _ err | CreateCall _ err | EvaluateCall _ _ _ err => err
  end.

(** A computation that calls collaborators: the calls it made, and its value. *)
Definition Traced (A : Type) : Type := list Event * A.

Definition ret {A} (a : A) : Traced A := ([], a).

Definition bind {A B} (m : Traced A) (k : A → Traced B) : Traced B :=
  let '(t1, a) := m in
  let '(t2, b) := k a in
  (t1 ++ t2, b).

Definition trace {A} (m : Traced A) : list Event := m.1.
Definition value {A} (m : Traced A) : A := m.2.

Declare Scope traced_scope.
Delimit Scope traced_scope with traced.
Notation "'let*' p ':=' m 'in' k" := (bind m (λ x, match x with p => k end))
  (at level 10, p pattern, m at level 200, k at level 200,
   format "'[v' 'let*'  p  ':='  m  'in' '/' k ']'") : traced_scope.

Definition call_List (c : client.Client) :
    Traced (list cmpapi.CertificateRequestPolicy * option error) :=
  let '(items, err) := client.List c in
  ([ListCall items err], (items, err)).

Definition call_Create (c : client.Client) (rev : authzv1.SubjectAccessReview) :
    Traced (authzv1.SubjectAccessReview * option error) :=
  let '(rev', err) := client.Create c rev in
  ([CreateCall rev err], (rev', err)).

Definition call_Evaluate (evaluator : approver.Evaluator)
    (crp : cmpapi.CertificateRequestPolicy) (cr : cmapi.CertificateRequest) :
    Traced (approver.EvaluationResponse * option error) :=
  let '(response, err) := approver.Evaluate evaluator crp cr in
  ([EvaluateCall evaluator crp response err], (response, err)).

(** ** pkg/approver/internal *)

Module internal.

(** Modelled from the spec: [internal.WildcardMatchs(pattern, subject)] is
    declared in pkg/approver/internal, which is not among the sources.  The
    spec (4.2) makes the pattern a glob in which '*' matches any run of
    characters (the empty run included) and every other character matches
    itself. *)
Fixpoint WildcardMatchs (pattern subject : string) : bool :=
  match pattern with
  | EmptyString =>
      match subject with EmptyString => true | String _ _ => false end
  | String c pattern' =>
      if Ascii.eqb c "*" then
        (fix skip (s : string) : bool :=
           WildcardMatchs pattern' s ||
           match s with EmptyString => false | String _ s' => skip s' end) subject
      else
        match subject with
        | EmptyString => false
        | String d subject' => Ascii.eqb c d && WildcardMatchs pattern' subject'
        end
  end.

End internal.

(** ** pkg/approver/manager/predicate *)

Module predicate.

Local Open Scope traced_scope.

(** [Predicate]: the signature shared by the selection predicates. *)
Definition Predicate : Type :=
  cmapi.CertificateRequest → list cmpapi.CertificateRequestPolicy →
  Traced (list cmpapi.CertificateRequestPolicy * option error).

(** The test of the inner loop of [Ready]. *)
Definition isReadyTrue (condition : cmpapi.CertificateRequestPolicyCondition) : bool :=
  String.eqb (cmpapi.ConditionType condition) cmpapi.CertificateRequestPolicyConditionReady
  && String.eqb (cmpapi.ConditionStatus condition) corev1.ConditionTrue.

(** The inner loop of [Ready]: one [append] per condition that is Ready
    and True. *)
Fixpoint Ready_conditions (crp : cmpapi.CertificateRequestPolicy)
    (conditions : list cmpapi.CertificateRequestPolicyCondition)
    (readyPolicies : list cmpapi.CertificateRequestPolicy) :
    list cmpapi.CertificateRequestPolicy :=
  match conditions with
  | [] => readyPolicies
  | condition :: conditions' =>
      if isReadyTrue condition
      then Ready_conditions crp conditions' (readyPolicies ++ [crp])
      else Ready_conditions crp conditions' readyPolicies
  end.

Fixpoint Ready_loop (policies readyPolicies : list cmpapi.CertificateRequestPolicy) :
    list cmpapi.CertificateRequestPolicy :=
  match policies with
  | [] => readyPolicies
  | crp :: policies' =>
      Ready_loop policies'
        (Ready_conditions crp (cmpapi.Conditions (cmpapi.Status crp)) readyPolicies)
  end.

Definition Ready : Predicate := λ _ policies,
  ret (Ready_loop policies [], None).

(** The three guards of the loop body of [IssuerRefSelector]: [true] when
    the body reaches a [continue]. *)
Definition skipped (sel : option string) (value : string) : bool :=
  match sel with
  | Some pattern => negb (internal.WildcardMatchs pattern value)
  | None => false
  end.

Fixpoint IssuerRefSelector_loop (cr : cmapi.CertificateRequest)
    (policies matchingPolicies : list cmpapi.CertificateRequestPolicy) :
    list cmpapi.CertificateRequestPolicy :=
  match policies with
  | [] => matchingPolicies
  | crp :: policies' =>
      let issRefSel := cmpapi.IssuerRefSelector (cmpapi.Spec crp) in
      let issRef := cmapi.IssuerRef (cmapi.Spec cr) in
      if skipped (cmpapi.SelectorName issRefSel) (cmmeta.Name issRef) then
        IssuerRefSelector_loop cr policies' matchingPolicies
      else if skipped (cmpapi.SelectorKind issRefSel) (cmmeta.Kind issRef) then
        IssuerRefSelector_loop cr policies' matchingPolicies
      else if skipped (cmpapi.SelectorGroup issRefSel) (cmmeta.Group issRef) then
        IssuerRefSelector_loop cr policies' matchingPolicies
      else
        IssuerRefSelector_loop cr policies' (matchingPolicies ++ [crp])
  end.

Definition IssuerRefSelector : Predicate := λ cr policies,
  ret (IssuerRefSelector_loop cr policies [], None).

(** [extra := make(map); for k, v := range cr.Spec.Extra { extra[k] = v }] *)
Definition copyExtra (m : gmap string (list string)) : gmap string (list string) :=
  map_fold (λ k v extra, <[k := v]> extra) ∅ m.

(** The review [RBACBound] builds for one policy. *)
Definition newSubjectAccessReview (cr : cmapi.CertificateRequest)
    (extra : gmap string (list string)) (crp : cmpapi.CertificateRequestPolicy) :
    authzv1.SubjectAccessReview :=
  {| authzv1.Spec := {|
       authzv1.User := cmapi.Username (cmapi.Spec cr);
       authzv1.Groups := cmapi.Groups (cmapi.Spec cr);
       authzv1.Extra := extra;
       authzv1.UID := cmapi.UID (cmapi.Spec cr);
       authzv1.ResourceAttributes_ := Some {|
         authzv1.Group := "policy.cert-manager.io";
         authzv1.Resource := "certificaterequestpolicies";
         authzv1.Name := cmpapi.Name crp;
         authzv1.Namespace := cmapi.Namespace cr;
         authzv1.Verb := "use";
       |};
     |};
     authzv1.Status := {| authzv1.Allowed := false |};
  |}.

Fixpoint RBACBound_loop (c : client.Client) (cr : cmapi.CertificateRequest)
    (extra : gmap string (list string))
    (policies boundPolicies : list cmpapi.CertificateRequestPolicy) :
    Traced (list cmpapi.CertificateRequestPolicy * option error) :=
  match policies with
  | [] => ret (boundPolicies, None)
  | crp :: policies' =>
      let* (rev, err) := call_Create c (newSubjectAccessReview cr extra crp) in
      match err with
      | Some err =>
          ret ([], Some (errors.Errorf_w "failed to create subjectaccessreview: " err))
      | None =>
          if authzv1.Allowed (authzv1.Status rev)
          then RBACBound_loop c cr extra policies' (boundPolicies ++ [crp])
          else RBACBound_loop c cr extra policies' boundPolicies
      end
  end.

Definition RBACBound (c : client.Client) : Predicate := λ cr policies,
  let extra := copyExtra (cmapi.Extra (cmapi.Spec cr)) in
  RBACBound_loop c cr extra policies [].

End predicate.

(** ** Go standard library: sort *)

Module sort.

Section SliceStable.
Context {A : Type} (less : A → A → bool).

(** [x] goes in front of the first element that is not less than it, so
    it stays in front of the elements it is equal to. *)
Fixpoint insert (x : A) (sorted : list A) : list A :=
  match sorted with
  | [] => [x]
  | y :: sorted' => if less y x then y :: insert x sorted' else x :: y :: sorted'
  end.

(** [sort.SliceStable(x, less)]: the stable sort of [x] by [less]. *)
Fixpoint SliceStable (x : list A) : list A :=
  match x with
  | [] => []
  | a :: x' => insert a (SliceStable x')
  end.
End SliceStable.

End sort.

(** ** pkg/approver/manager *)

Module manager.

Local Open Scope traced_scope.

(** Modelled from the spec: [ReviewResult] and [ReviewResponse] are declared
    in the manager package outside the given sources.  The spec (3) has the
    three results Approved, Denied and Unprocessed; [ResultNone] stands for
    the result field of the empty response [ReviewResponse{}], which
    carries no decision. *)
Inductive ReviewResult : Type :=
| ResultNone
| ResultApproved
| ResultDenied
| ResultUnprocessed.

Record ReviewResponse : Type := {
  Result : ReviewResult;
  Message : string;
}.

(** [ReviewResponse{}] *)
Definition emptyReviewResponse : ReviewResponse :=
  {| Result := ResultNone; Message := "" |}.

Record subjectaccessreview : Type := {
  client : client.Client;
  evaluators : list approver.Evaluator;
}.

Definition NewSubjectAccessReview (client : client.Client)
    (evaluators : list approver.Evaluator) : subjectaccessreview :=
  {| client := client; evaluators := evaluators |}.

Record policyMessage : Type := {
  name : string;
  message : string;
}.

(** [issuerRefSelector] (subjectaccessreview.go).  The test in front of
    each [continue]: the pointer is not nil and what it points to does not
    match [v]. *)
Definition mismatch (ptr : option string) (v : string) : bool :=
  match ptr with
  | None => false
  | Some pattern => negb (internal.WildcardMatchs pattern v)
  end.

Fixpoint issuerRefSelector_loop (cr : cmapi.CertificateRequest)
    (allPolicies matchingPolicies : list cmpapi.CertificateRequestPolicy) :
    list cmpapi.CertificateRequestPolicy :=
  match allPolicies with
  | [] => matchingPolicies
  | crp :: allPolicies' =>
      let issRefSel := cmpapi.IssuerRefSelector (cmpapi.Spec crp) in
      let issRef := cmapi.IssuerRef (cmapi.Spec cr) in
      let continue := issuerRefSelector_loop cr allPolicies' matchingPolicies in
      if mismatch (cmpapi.SelectorName issRefSel) (cmmeta.Name issRef) then continue
      else if mismatch (cmpapi.SelectorKind issRefSel) (cmmeta.Kind issRef) then continue
      else if mismatch (cmpapi.SelectorGroup issRefSel) (cmmeta.Group issRef) then continue
      else issuerRefSelector_loop cr allPolicies' (matchingPolicies ++ [crp])
  end.

Definition issuerRefSelector (cr : cmapi.CertificateRequest)
    (allPolicies : list cmpapi.CertificateRequestPolicy) :
    list cmpapi.CertificateRequestPolicy :=
  issuerRefSelector_loop cr allPolicies [].

(** [boundPolicies] (subjectaccessreview.go). *)
Definition subjectAccessReviewFor (cr : cmapi.CertificateRequest)
    (extra : gmap string (list string)) (crp : cmpapi.CertificateRequestPolicy) :
    authzv1.SubjectAccessReview :=
  {| authzv1.Spec := {|
       authzv1.User := cmapi.Username (cmapi.Spec cr);
       authzv1.Groups := cmapi.Groups (cmapi.Spec cr);
       authzv1.Extra := extra;
       authzv1.UID := cmapi.UID (cmapi.Spec cr);
       authzv1.ResourceAttributes_ := Some {|
         authzv1.Group := "policy.cert-manager.io";
         authzv1.Resource := "certificaterequestpolicies";
         authzv1.Name := cmpapi.Name crp;
         authzv1.Namespace := cmapi.Namespace cr;
         authzv1.Verb := "use";
       |};
     |};
     authzv1.Status := {| authzv1.Allowed := false |};
  |}.

Fixpoint boundPolicies_loop (s : subjectaccessreview) (cr : cmapi.CertificateRequest)
    (extra : gmap string (list string))
    (allPolicies boundPolicies : list cmpapi.CertificateRequestPolicy) :
    Traced (list cmpapi.CertificateRequestPolicy * option error) :=
  match allPolicies with
  | [] => ret (boundPolicies, None)
  | crp :: allPolicies' =>
      let* (rev, err) := call_Create (client s) (subjectAccessReviewFor cr extra crp) in
      match err with
      | Some err =>
          ret ([], Some (errors.Errorf_w "failed to create subjectaccessreview: " err))
      | None =>
          boundPolicies_loop s cr extra allPolicies'
            (if authzv1.Allowed (authzv1.Status rev)
             then boundPolicies ++ [crp] else boundPolicies)
      end
  end.

Definition boundPolicies (s : subjectaccessreview) (cr : cmapi.CertificateRequest)
    (allPolicies : list cmpapi.CertificateRequestPolicy) :
    Traced (list cmpapi.CertificateRequestPolicy * option error) :=
  let extra := map_fold (λ k v extra, <[k := v]> extra) ∅ (cmapi.Extra (cmapi.Spec cr)) in
  boundPolicies_loop s cr extra allPolicies [].

Section Review.

(** [fmt.Sprintf("%q", s)]: the quoted form of a string, as the Go
    library prints it. *)
Variable Sprintf_q : string → string.

(** The loop over [s.evaluators] (lines 96-112).  The last component is
    the error of the evaluator that made Review return early. *)
Fixpoint Review_evaluators (evaluators : list approver.Evaluator)
    (crp : cmpapi.CertificateRequestPolicy) (cr : cmapi.CertificateRequest)
    (evaluatorDenied : bool) (evaluatorMessages : list string) :
    Traced (bool * list string * option error) :=
  match evaluators with
  | [] => ret (evaluatorDenied, evaluatorMessages, None)
  | evaluator :: evaluators' =>
      let* (response, err) := call_Evaluate evaluator crp cr in
      match err with
      | Some err => ret (evaluatorDenied, evaluatorMessages, Some err)
      | None =>
          let evaluatorMessages := evaluatorMessages ++ [approver.Message response] in
          let evaluatorDenied :=
            match approver.Result response with
            | approver.ResultDenied => true
            | approver.ResultNotDenied => evaluatorDenied
            end in
          Review_evaluators evaluators' crp cr evaluatorDenied evaluatorMessages
      end
  end.

(** What Review does once the loop over the policies has ended
    (lines 126-140). *)
Definition Review_denied (policyMessages : list policyMessage) : ReviewResponse :=
  let policyMessages :=
    sort.SliceStable (λ i j, String.ltb (name i) (name j)) policyMessages in
  let messages :=
    (λ policyMessage,
       "[" +:+ name policyMessage +:+ ": " +:+ message policyMessage +:+ "]")
    <$> policyMessages in
  {| Result := ResultDenied;
     Message := "No policy approved this request: " +:+ strings.Join messages " " |}.

(** The loop over the bound policies (lines 90-124). *)
Fixpoint Review_policies (s : subjectaccessreview) (cr : cmapi.CertificateRequest)
    (policies : list cmpapi.CertificateRequestPolicy)
    (policyMessages : list policyMessage) :
    Traced (ReviewResponse * option error) :=
  match policies with
  | [] => ret (Review_denied policyMessages, None)
  | crp :: policies' =>
      let* (verdict, err) := Review_evaluators (evaluators s) crp cr false [] in
      let '(evaluatorDenied, evaluatorMessages) := verdict in
      match err with
      | Some err => ret (emptyReviewResponse, Some err)
      | None =>
          if negb evaluatorDenied then
            ret ({| Result := ResultApproved;
                    Message := "Approved by CertificateRequestPolicy: "
                               +:+ Sprintf_q (cmpapi.Name crp) |}, None)
          else
            Review_policies s cr policies'
              (policyMessages ++
               [{| name := cmpapi.Name crp;
                   message := strings.Join evaluatorMessages ", " |}])
      end
  end.

Definition Review (s : subjectaccessreview) (cr : cmapi.CertificateRequest) :
    Traced (ReviewResponse * option error) :=
  let* (crps, err) := call_List (client s) in
  match err with
  | Some err => ret (emptyReviewResponse, Some err)
  | None =>
      if decide (length crps = 0) then
        ret ({| Result := ResultUnprocessed;
                Message := "No CertificateRequestPolicies exist" |}, None)
      else
        let policies := issuerRefSelector cr crps in
        let* (policies, err) := boundPolicies s cr policies in
        match err with
        | Some err =>
            ret (emptyReviewResponse,
                 Some (errors.Errorf_w "failed to determine bound policies: " err))
        | None =>
            if decide (length policies = 0) then
              ret ({| Result := ResultUnprocessed;
                      Message := "No CertificateRequestPolicies bound or applicable" |},
                   None)
            else
              Review_policies s cr policies []
        end
  end.

End Review.

End manager.

(** ** Go standard library: time, fmt *)

Module time.

Local Open Scope Z_scope.

(** A [time.Duration] is a number of nanoseconds. *)
Definition Duration : Type := Z.

Definition Microsecond : Duration := 1000.
Definition Millisecond : Duration := 1000000.
Definition Second : Duration := 1000000000.

(** [fmtInt]: the decimal digits of [v]. *)
Definition fmtInt (v : Z) : string := pretty (Z.to_N v).

(** [fmtFrac]: the [prec] low digits of [v] as a fraction in front of
    [buf], the trailing zeros and a bare decimal point left out, and
    [v / 10^prec]. *)
Fixpoint fmtFrac (buf : string) (v : Z) (prec : nat) (print : bool) : string * Z :=
  match prec with
  | O => (if print then "." +:+ buf else buf, v)
  | S prec' =>
      let digit := (v mod 10) in
      let print := print || negb (digit =? 0) in
      fmtFrac (if print then fmtInt digit +:+ buf else buf) (v / 10) prec' print
  end.

(** The micro sign, two bytes in UTF-8. *)
Definition micro : string := String (ascii_of_nat 194) (String (ascii_of_nat 181) "").

(** [Duration.String()]: hours, minutes and seconds as in "72h3m0.5s"; a
    duration under a second in a smaller unit; "0s" for zero. *)
Definition String (d : Duration) : string :=
  let u := Z.abs d in
  let digits :=
    if (u <? Second) then
      if (u =? 0) then "0s"
      else if (u <? Microsecond) then
        let '(buf, u) := fmtFrac "ns" u 0 false in fmtInt u +:+ buf
      else if (u <? Millisecond) then
        let '(buf, u) := fmtFrac (micro +:+ "s") u 3 false in fmtInt u +:+ buf
      else
        let '(buf, u) := fmtFrac "ms" u 6 false in fmtInt u +:+ buf
    else
      let '(buf, u) := fmtFrac "s" u 9 false in
      let buf := fmtInt (u mod 60) +:+ buf in
      let u := (u / 60) in
      if (0 <? u) then
        let buf := fmtInt (u mod 60) +:+ "m" +:+ buf in
        let u := (u / 60) in
        if (0 <? u) then fmtInt u +:+ "h" +:+ buf else buf
      else buf in
  if (d <? 0) then "-" +:+ digits else digits.

End time.

Module fmt.

(** [fmt.Sprintf("%v", x)] for the values the attribute approver prints
    as what a policy allows. *)
Definition Sprint_bool (b : bool) : string := if b then "true" else "false".

Definition Sprint_int (n : nat) : string := pretty n.

Definition Sprint_strings (l : list string) : string :=
  "[" +:+ strings.Join l " " +:+ "]".

Definition Sprint_ObjectReference (ref : cmmeta.ObjectReference) : string :=
  "{" +:+ cmmeta.Name ref +:+ " " +:+ cmmeta.Kind ref +:+ " " +:+ cmmeta.Group ref +:+ "}".

Definition Sprint_ObjectReferences (l : list cmmeta.ObjectReference) : string :=
  "[" +:+ strings.Join (Sprint_ObjectReference <$> l) " " +:+ "]".

(** [string(a)] for a [cmapi.PrivateKeyAlgorithm]. *)
Definition Sprint_PrivateKeyAlgorithm (a : cmapi.PrivateKeyAlgorithm) : string :=
  match a with
  | cmapi.RSAKeyAlgorithm => "RSA"
  | cmapi.ECDSAKeyAlgorithm => "ECDSA"
  | cmapi.Ed25519KeyAlgorithm => "Ed25519"
  end.

End fmt.

(** ** k8s.io/apimachinery: validation/field and util/errors

    The library types the attribute approver and its test build their
    message with. *)

Module field.

(** The [BadValue] of an error, an [interface{}] in Go: the dynamic types
    that the attribute approver reports. *)
Inductive Value : Type :=
| VString (s : string)
| VStrings (l : list string)
| VBool (b : bool)
| VInt (n : nat)
| VAlgorithm (a : cmapi.PrivateKeyAlgorithm)
| VObjectReference (ref : cmmeta.ObjectReference).

(** An error of type [ErrorTypeInvalid]. *)
Record Error : Type := {
  Field : string;
  BadValue : Value;
  Detail : string;
}.

(** [field.Invalid(field, value, detail)] *)
Definition Invalid (path : string) (value : Value) (detail : string) : Error :=
  {| Field := path; BadValue := value; Detail := detail |}.

Definition ErrorList : Type := list Error.

Section Format.

(** [fmt.Sprintf("%q", s)] *)
Variable Sprintf_q : string → string.

(** How [ErrorBody] prints the bad value: a string with [%q], a bool and
    an int with [%v], any other value with [%#v] (a slice of strings with
    its type and its elements quoted, a value of a named string type
    quoted, a struct with its type and its fields).  An empty list is
    printed as the empty, not the nil, slice. *)
Definition formatValue (value : Value) : string :=
  match value with
  | VString s => Sprintf_q s
  | VStrings l => "[]string{" +:+ strings.Join (Sprintf_q <$> l) ", " +:+ "}"
  | VBool b => fmt.Sprint_bool b
  | VInt n => fmt.Sprint_int n
  | VAlgorithm a => Sprintf_q (fmt.Sprint_PrivateKeyAlgorithm a)
  | VObjectReference ref =>
      "v1.ObjectReference{Name:" +:+ Sprintf_q (cmmeta.Name ref)
      +:+ ", Kind:" +:+ Sprintf_q (cmmeta.Kind ref)
      +:+ ", Group:" +:+ Sprintf_q (cmmeta.Group ref) +:+ "}"
  end.

(** [ErrorBody()]: the type of the error, the bad value and, when it is
    not empty, the detail. *)
Definition ErrorBody (v : Error) : string :=
  let s := "Invalid value: " +:+ formatValue (BadValue v) in
  if decide (Detail v = "") then s else s +:+ ": " +:+ Detail v.

(** [Error()] of an error: the field path and the body. *)
Definition Error_Error (v : Error) : string :=
  Field v +:+ ": " +:+ ErrorBody v.

End Format.

End field.

Module utilerrors.

(** The messages of [msgs] that are not in [seen], each once, at its first
    place. *)
Fixpoint distinct (seen msgs : list string) : list string :=
  match msgs with
  | [] => []
  | msg :: msgs' =>
      if decide (msg ∈ seen) then distinct seen msgs'
      else msg :: distinct (msg :: seen) msgs'
  end.

(** [ErrorList.ToAggregate()]: the aggregate of the errors of the list,
    one for each distinct message; it is given by its messages. *)
Definition ToAggregate (Sprintf_q : string → string) (el : field.ErrorList) :
    list string :=
  distinct [] (field.Error_Error Sprintf_q <$> el).

(** [Error()] of an aggregate: the message of a single error as it is,
    the distinct messages of several errors separated by ", " between
    square brackets. *)
Definition aggregate_Error (agg : list string) : string :=
  match agg with
  | [] => ""
  | [msg] => msg
  | _ =>
      match distinct [] agg with
      | [msg] => msg
      | seenerrs => "[" +:+ strings.Join seenerrs ", " +:+ "]"
      end
  end.

End utilerrors.

(** ** pkg/approver/attribute *)

Module attribute.

(** [attribute.Name()] *)
Definition Name : string := "attribute".

(** The request attributes a policy can constrain, in the order the
    evaluator reports them (the order of the expected message of
    TestEvaluateCertificateRequest). *)
Inductive Attribute : Type :=
| CommonName | MinDuration | DNSNames | IPAddresses | URIs
| Issuers | IsCA | KeyAlgorithm | KeyMinSize | KeyMaxSize.

Definition attributes : list Attribute :=
  [CommonName; MinDuration; DNSNames; IPAddresses; URIs;
   Issuers; IsCA; KeyAlgorithm; KeyMinSize; KeyMaxSize].

(** Every element of the request's sequence matches some allowed pattern. *)
Definition allMatch (allowed values : list string) : bool :=
  forallb (λ v, existsb (λ pattern, internal.WildcardMatchs pattern v) allowed) values.

Definition issuerMatches (issRef allowed : cmmeta.ObjectReference) : bool :=
  internal.WildcardMatchs (cmmeta.Name allowed) (cmmeta.Name issRef)
  && internal.WildcardMatchs (cmmeta.Kind allowed) (cmmeta.Kind issRef)
  && internal.WildcardMatchs (cmmeta.Group allowed) (cmmeta.Group issRef).

Definition sequenceViolation (path : string) (allowed : option (list string))
    (values : list string) : option field.Error :=
  match allowed with
  | Some allowed =>
      if allMatch allowed values then None
      else Some (field.Invalid path (field.VStrings values) (fmt.Sprint_strings allowed))
  | None => None
  end.

(** Modelled from the spec: the matching rules of 4.2, one attribute at a
    time; an unset constraint never yields a violation.  The field paths,
    the values and the details of the errors are those of the expected
    message of TestEvaluateCertificateRequest: a duration is reported by
    its [String()], a key algorithm as the [cmapi.PrivateKeyAlgorithm] of
    the request. *)
Definition violation (a : Attribute) (policy : cmpapi.CertificateRequestPolicySpec)
    (cr : cmapi.CertificateRequest) : option field.Error :=
  let spec := cmapi.Spec cr in
  let csr := cmapi.Request spec in
  match a with
  | CommonName =>
      match cmpapi.AllowedCommonName policy with
      | Some pattern =>
          if internal.WildcardMatchs pattern (cmapi.CommonName csr) then None
          else Some (field.Invalid "spec.allowedCommonName"
                       (field.VString (cmapi.CommonName csr)) pattern)
      | None => None
      end
  | MinDuration =>
      match cmpapi.MinDuration policy, cmapi.Duration spec with
      | Some min, Some d =>
          if decide (d < min)%Z
          then Some (field.Invalid "spec.minDuration"
                       (field.VString (time.String d)) (time.String min))
          else None
      | _, _ => None
      end
  | DNSNames =>
      sequenceViolation "spec.allowedDNSNames"
        (cmpapi.AllowedDNSNames policy) (cmapi.DNSNames csr)
  | IPAddresses =>
      sequenceViolation "spec.allowedIPAddresses"
        (cmpapi.AllowedIPAddresses policy) (cmapi.IPAddresses csr)
  | URIs =>
      sequenceViolation "spec.allowedURIs"
        (cmpapi.AllowedURIs policy) (cmapi.URIs csr)
  | Issuers =>
      match cmpapi.AllowedIssuers policy with
      | Some allowed =>
          if existsb (issuerMatches (cmapi.IssuerRef spec)) allowed then None
          else Some (field.Invalid "spec.allowedIssuers"
                       (field.VObjectReference (cmapi.IssuerRef spec))
                       (fmt.Sprint_ObjectReferences allowed))
      | None => None
      end
  | IsCA =>
      match cmpapi.AllowedIsCA policy with
      | Some allowed =>
          if Bool.eqb (cmapi.IsCA spec) allowed then None
          else Some (field.Invalid "spec.allowedIsCA"
                       (field.VBool (cmapi.IsCA spec)) (fmt.Sprint_bool allowed))
      | None => None
      end
  | KeyAlgorithm =>
      match cmpapi.AllowedPrivateKey policy ≫= cmpapi.AllowedAlgorithm with
      | Some allowed =>
          if decide (cmapi.KeyAlgorithm csr = allowed) then None
          else Some (field.Invalid "spec.allowedPrivateKey.allowedAlgorithm"
                       (field.VAlgorithm (cmapi.KeyAlgorithm csr))
                       (fmt.Sprint_PrivateKeyAlgorithm allowed))
      | None => None
      end
  | KeyMinSize =>
      match cmpapi.AllowedPrivateKey policy ≫= cmpapi.MinSize with
      | Some min =>
          if decide (cmapi.KeySize csr < min)
          then Some (field.Invalid "spec.allowedPrivateKey.minSize"
                       (field.VInt (cmapi.KeySize csr)) (fmt.Sprint_int min))
          else None
      | None => None
      end
  | KeyMaxSize =>
      match cmpapi.AllowedPrivateKey policy ≫= cmpapi.MaxSize with
      | Some max =>
          if decide (max < cmapi.KeySize csr)
          then Some (field.Invalid "spec.allowedPrivateKey.maxSize"
                       (field.VInt (cmapi.KeySize csr)) (fmt.Sprint_int max))
          else None
      | None => None
      end
  end.

(** The violations are collected attribute after attribute; none stops the
    collection. *)
Fixpoint collect (todo : list Attribute) (policy : cmpapi.CertificateRequestPolicySpec)
    (cr : cmapi.CertificateRequest) (el : field.ErrorList) : field.ErrorList :=
  match todo with
  | [] => el
  | a :: todo' =>
      match violation a policy cr with
      | Some e => collect todo' policy cr (el ++ [e])
      | None => collect todo' policy cr el
      end
  end.

(** Modelled from the spec: [attribute.Evaluate] is declared in
    pkg/approver/attribute outside the given sources (only its test and
    the type [attribute] are given).  Following 4.2 it collects every
    violation; with no violation the response is NotDenied with the empty
    message, otherwise it is Denied with the message its test expects,
    [el.ToAggregate().Error()].  The request carries its certificate
    signing request decoded, so that the evaluator returns no error. *)
Definition Evaluate (Sprintf_q : string → string)
    (policy : cmpapi.CertificateRequestPolicy)
    (cr : cmapi.CertificateRequest) : approver.EvaluationResponse * option error :=
  let el := collect attributes (cmpapi.Spec policy) cr [] in
  if decide (length el = 0) then
    ({| approver.Result := approver.ResultNotDenied; approver.Message := "" |}, None)
  else
    ({| approver.Result := approver.ResultDenied;
        approver.Message :=
          utilerrors.aggregate_Error (utilerrors.ToAggregate Sprintf_q el) |}, None).

Definition evaluator (Sprintf_q : string → string) : approver.Evaluator :=
  {| approver.Evaluate := Evaluate Sprintf_q |}.

End attribute.

(** ** Specification-level notions

    The words of the claims, as definitions to compare the code with. *)

Module spec.

(** A glob: '*' stands for any run of characters, every other character
    for itself. *)
Inductive glob : string → string → Prop :=
| glob_empty : glob "" ""
| glob_char c pattern s :
    c ≠ "*"%char → glob pattern s → glob (String c pattern) (String c s)
| glob_star pattern run s :
    glob pattern s → glob (String "*" pattern) (run +:+ s).

(** A selector field accepts a value when it is unset or a glob for it. *)
Definition accepts (sel : option string) (v : string) : Prop :=
  match sel with
  | None => True
  | Some pattern => glob pattern v
  end.

(** The issuer-reference selector of [crp] accepts the issuer of [cr]. *)
Definition Selects (cr : cmapi.CertificateRequest)
    (crp : cmpapi.CertificateRequestPolicy) : Prop :=
  let issRefSel := cmpapi.IssuerRefSelector (cmpapi.Spec crp) in
  let issRef := cmapi.IssuerRef (cmapi.Spec cr) in
  accepts (cmpapi.SelectorName issRefSel) (cmmeta.Name issRef)
  ∧ accepts (cmpapi.SelectorKind issRefSel) (cmmeta.Kind issRef)
  ∧ accepts (cmpapi.SelectorGroup issRefSel) (cmmeta.Group issRef).

(** The policy has a condition of type Ready whose status is True. *)
Definition IsReady (crp : cmpapi.CertificateRequestPolicy) : Prop :=
  ∃ condition, condition ∈ cmpapi.Conditions (cmpapi.Status crp)
    ∧ cmpapi.ConditionType condition = cmpapi.CertificateRequestPolicyConditionReady
    ∧ cmpapi.ConditionStatus condition = corev1.ConditionTrue.

(** The authorization check for the use of [crp] by the requester of [cr]. *)
Definition useReview (cr : cmapi.CertificateRequest)
    (crp : cmpapi.CertificateRequestPolicy) : authzv1.SubjectAccessReview :=
  {| authzv1.Spec := {|
       authzv1.User := cmapi.Username (cmapi.Spec cr);
       authzv1.Groups := cmapi.Groups (cmapi.Spec cr);
       authzv1.Extra := cmapi.Extra (cmapi.Spec cr);
       authzv1.UID := cmapi.UID (cmapi.Spec cr);
       authzv1.ResourceAttributes_ := Some {|
         authzv1.Group := "policy.cert-manager.io";
         authzv1.Resource := "certificaterequestpolicies";
         authzv1.Name := cmpapi.Name crp;
         authzv1.Namespace := cmapi.Namespace cr;
         authzv1.Verb := "use";
       |};
     |};
     authzv1.Status := {| authzv1.Allowed := false |};
  |}.

(** What the oracle answers to that check. *)
Definition checkError (c : client.Client) (cr : cmapi.CertificateRequest)
    (crp : cmpapi.CertificateRequestPolicy) : option error :=
  (client.Create c (useReview cr crp)).2.

Definition Allowed (c : client.Client) (cr : cmapi.CertificateRequest)
    (crp : cmpapi.CertificateRequestPolicy) : Prop :=
  authzv1.Allowed (authzv1.Status (client.Create c (useReview cr crp)).1) = true.

#[global] Instance Allowed_dec c cr crp : Decision (Allowed c cr crp).
Proof. unfold Allowed. apply _. Defined.

(** The event of that check. *)
Definition checkCall (c : client.Client) (cr : cmapi.CertificateRequest)
    (crp : cmpapi.CertificateRequestPolicy) : Event :=
  CreateCall (useReview cr crp) (checkError c cr crp).

(** What one evaluator answers for one policy. *)
Definition NotDenied (cr : cmapi.CertificateRequest)
    (crp : cmpapi.CertificateRequestPolicy) (e : approver.Evaluator) : Prop :=
  (approver.Evaluate e crp cr).2 = None
  ∧ approver.Result (approver.Evaluate e crp cr).1 = approver.ResultNotDenied.

Definition Denied (cr : cmapi.CertificateRequest)
    (crp : cmpapi.CertificateRequestPolicy) (e : approver.Evaluator) : Prop :=
  (approver.Evaluate e crp cr).2 = None
  ∧ approver.Result (approver.Evaluate e crp cr).1 = approver.ResultDenied.

(** Every evaluator returns NotDenied for the policy. *)
Definition Satisfies (evaluators : list approver.Evaluator)
    (cr : cmapi.CertificateRequest) (crp : cmpapi.CertificateRequestPolicy) : Prop :=
  Forall (NotDenied cr crp) evaluators.

(** Every evaluator returns a verdict for the policy, and one of them is
    Denied. *)
Definition Refuses (evaluators : list approver.Evaluator)
    (cr : cmapi.CertificateRequest) (crp : cmpapi.CertificateRequestPolicy) : Prop :=
  Forall (λ e, (approver.Evaluate e crp cr).2 = None) evaluators
  ∧ Exists (Denied cr crp) evaluators.

(** The event of one evaluator call. *)
Definition evaluateCall (cr : cmapi.CertificateRequest)
    (crp : cmpapi.CertificateRequestPolicy) (e : approver.Evaluator) : Event :=
  EvaluateCall e crp (approver.Evaluate e crp cr).1 (approver.Evaluate e crp cr).2.

(** The calls that run every evaluator on one policy, and on each policy
    of a list in turn. *)
Definition evaluateCalls (evaluators : list approver.Evaluator)
    (cr : cmapi.CertificateRequest) (crp : cmpapi.CertificateRequestPolicy) :
    list Event :=
  evaluateCall cr crp <$> evaluators.

Definition evaluationTrace (evaluators : list approver.Evaluator)
    (cr : cmapi.CertificateRequest) (policies : list cmpapi.CertificateRequestPolicy) :
    list Event :=
  policies ≫= evaluateCalls evaluators cr.

(** The evaluators up to the first that returns an error for the policy,
    and that error. *)
Definition Fails (evaluators : list approver.Evaluator)
    (cr : cmapi.CertificateRequest) (crp : cmpapi.CertificateRequestPolicy)
    (called : list approver.Evaluator) (err : error) : Prop :=
  ∃ before e after,
    evaluators = before ++ e :: after
    ∧ Forall (λ e, (approver.Evaluate e crp cr).2 = None) before
    ∧ (approver.Evaluate e crp cr).2 = Some err
    ∧ called = before ++ [e].

(** The policy constrains no attribute of the request. *)
Definition Unconstrained (policy : cmpapi.CertificateRequestPolicySpec) : Prop :=
  cmpapi.AllowedCommonName policy = None
  ∧ cmpapi.MinDuration policy = None
  ∧ cmpapi.AllowedDNSNames policy = None
  ∧ cmpapi.AllowedIPAddresses policy = None
  ∧ cmpapi.AllowedURIs policy = None
  ∧ cmpapi.AllowedIssuers policy = None
  ∧ cmpapi.AllowedIsCA policy = None
  ∧ cmpapi.AllowedPrivateKey policy = None.

(** [part] occurs in [whole]. *)
Definition Mentions (whole part : string) : Prop :=
  ∃ before after, whole = before +:+ part +:+ after.

(** The error Review returns when its call [ev] to a collaborator returns
    [err]: the error itself, wrapped twice when the call is an authorization
    check. *)
Definition ReviewError (ev : Event) (err : error) : error :=
  match ev with
  | CreateCall _ _ =>
      errors.Errorf_w "failed to determine bound policies: "
        (errors.Errorf_w "failed to create subjectaccessreview: " err)
  | ListCall _ _ | EvaluateCall _ _ _ _ => err
  end.

(** The candidate policy set of a request: the listed policies that the
    selection of Review lets through. *)
Definition Candidates (s : manager.subjectaccessreview)
    (cr : cmapi.CertificateRequest) (policies : list cmpapi.CertificateRequestPolicy) :
    Prop :=
  ∃ crps,
    client.List (manager.client s) = (crps, None)
    ∧ value (manager.boundPolicies s cr (manager.issuerRefSelector cr crps))
      = (policies, None).

(** The messages of all the evaluators for one policy, joined. *)
Definition policyMessageOf (evaluators : list approver.Evaluator)
    (cr : cmapi.CertificateRequest) (crp : cmpapi.CertificateRequestPolicy) :
    manager.policyMessage :=
  {| manager.name := cmpapi.Name crp;
     manager.message :=
       strings.Join
         ((λ e, approver.Message (approver.Evaluate e crp cr).1) <$> evaluators) ", " |}.

(** One bracketed entry of the denial message. *)
Definition bracket (m : manager.policyMessage) : string :=
  "[" +:+ manager.name m +:+ ": " +:+ manager.message m +:+ "]".

(** Names in non-decreasing byte order. *)
Definition nameLe (a b : manager.policyMessage) : Prop :=
  String.ltb (manager.name b) (manager.name a) = false.

(** The same manager over a store that lists [crps]. *)
Definition withList (s : manager.subjectaccessreview)
    (crps : list cmpapi.CertificateRequestPolicy) : manager.subjectaccessreview :=
  {| manager.client :=
       {| client.List := (crps, None);
          client.Create := client.Create (manager.client s) |};
     manager.evaluators := manager.evaluators s |}.

End spec.

(** ** The constraints of a policy on the attributes of a request

    The matching rules of the attribute evaluator, in the words of the
    specification (4.2), with what the report of a violation names: the
    field path, the offending value of the request and what the policy
    allows. *)

Module constraints.

Import spec.

(** Every element of the sequence of the request matches at least one of
    the allowed patterns. *)
Definition Within (allowed values : list string) : Prop :=
  Forall (λ v, Exists (λ pattern, glob pattern v) allowed) values.

(** One of the allowed issuer references has a name, a kind and a group
    that are patterns for those of the issuer reference of the request. *)
Definition IssuerWithin (allowed : list cmmeta.ObjectReference)
    (issRef : cmmeta.ObjectReference) : Prop :=
  Exists (λ a, glob (cmmeta.Name a) (cmmeta.Name issRef)
               ∧ glob (cmmeta.Kind a) (cmmeta.Kind issRef)
               ∧ glob (cmmeta.Group a) (cmmeta.Group issRef)) allowed.

(** [Violation policy cr a e]: the request violates the constraint of the
    policy on the attribute [a], and [e] reports it. *)
Inductive Violation (policy : cmpapi.CertificateRequestPolicySpec)
    (cr : cmapi.CertificateRequest) : attribute.Attribute → field.Error → Prop :=
| CommonNameViolation pattern :
    cmpapi.AllowedCommonName policy = Some pattern →
    ¬ glob pattern (cmapi.CommonName (cmapi.Request (cmapi.Spec cr))) →
    Violation policy cr attribute.CommonName
      (field.Invalid "spec.allowedCommonName"
         (field.VString (cmapi.CommonName (cmapi.Request (cmapi.Spec cr)))) pattern)
| MinDurationViolation min d :
    cmpapi.MinDuration policy = Some min →
    cmapi.Duration (cmapi.Spec cr) = Some d →
    (d < min)%Z →
    Violation policy cr attribute.MinDuration
      (field.Invalid "spec.minDuration" (field.VString (time.String d)) (time.String min))
| DNSNamesViolation allowed :
    cmpapi.AllowedDNSNames policy = Some allowed →
    ¬ Within allowed (cmapi.DNSNames (cmapi.Request (cmapi.Spec cr))) →
    Violation policy cr attribute.DNSNames
      (field.Invalid "spec.allowedDNSNames"
         (field.VStrings (cmapi.DNSNames (cmapi.Request (cmapi.Spec cr))))
         (fmt.Sprint_strings allowed))
| IPAddressesViolation allowed :
    cmpapi.AllowedIPAddresses policy = Some allowed →
    ¬ Within allowed (cmapi.IPAddresses (cmapi.Request (cmapi.Spec cr))) →
    Violation policy cr attribute.IPAddresses
      (field.Invalid "spec.allowedIPAddresses"
         (field.VStrings (cmapi.IPAddresses (cmapi.Request (cmapi.Spec cr))))
         (fmt.Sprint_strings allowed))
| URIsViolation allowed :
    cmpapi.AllowedURIs policy = Some allowed →
    ¬ Within allowed (cmapi.URIs (cmapi.Request (cmapi.Spec cr))) →
    Violation policy cr attribute.URIs
      (field.Invalid "spec.allowedURIs"
         (field.VStrings (cmapi.URIs (cmapi.Request (cmapi.Spec cr))))
         (fmt.Sprint_strings allowed))
| IssuersViolation allowed :
    cmpapi.AllowedIssuers policy = Some allowed →
    ¬ IssuerWithin allowed (cmapi.IssuerRef (cmapi.Spec cr)) →
    Violation policy cr attribute.Issuers
      (field.Invalid "spec.allowedIssuers"
         (field.VObjectReference (cmapi.IssuerRef (cmapi.Spec cr)))
         (fmt.Sprint_ObjectReferences allowed))
| IsCAViolation allowed :
    cmpapi.AllowedIsCA policy = Some allowed →
    cmapi.IsCA (cmapi.Spec cr) ≠ allowed →
    Violation policy cr attribute.IsCA
      (field.Invalid "spec.allowedIsCA"
         (field.VBool (cmapi.IsCA (cmapi.Spec cr))) (fmt.Sprint_bool allowed))
| KeyAlgorithmViolation key allowed :
    cmpapi.AllowedPrivateKey policy = Some key →
    cmpapi.AllowedAlgorithm key = Some allowed →
    cmapi.KeyAlgorithm (cmapi.Request (cmapi.Spec cr)) ≠ allowed →
    Violation policy cr attribute.KeyAlgorithm
      (field.Invalid "spec.allowedPrivateKey.allowedAlgorithm"
         (field.VAlgorithm (cmapi.KeyAlgorithm (cmapi.Request (cmapi.Spec cr))))
         (fmt.Sprint_PrivateKeyAlgorithm allowed))
| KeyMinSizeViolation key min :
    cmpapi.AllowedPrivateKey policy = Some key →
    cmpapi.MinSize key = Some min →
    cmapi.KeySize (cmapi.Request (cmapi.Spec cr)) < min →
    Violation policy cr attribute.KeyMinSize
      (field.Invalid "spec.allowedPrivateKey.minSize"
         (field.VInt (cmapi.KeySize (cmapi.Request (cmapi.Spec cr))))
         (fmt.Sprint_int min))
| KeyMaxSizeViolation key max :
    cmpapi.AllowedPrivateKey policy = Some key →
    cmpapi.MaxSize key = Some max →
    max < cmapi.KeySize (cmapi.Request (cmapi.Spec cr)) →
    Violation policy cr attribute.KeyMaxSize
      (field.Invalid "spec.allowedPrivateKey.maxSize"
         (field.VInt (cmapi.KeySize (cmapi.Request (cmapi.Spec cr))))
         (fmt.Sprint_int max)).

(** The request satisfies the constraint of the policy on [a]. *)
Definition Satisfied (policy : cmpapi.CertificateRequestPolicySpec)
    (cr : cmapi.CertificateRequest) (a : attribute.Attribute) : Prop :=
  ∀ e, ¬ Violation policy cr a e.

(** [Report policy cr todo el]: [el] reports, attribute after attribute in
    the order of [todo], the violation of each violated attribute. *)
Inductive Report (policy : cmpapi.CertificateRequestPolicySpec)
    (cr : cmapi.CertificateRequest) : list attribute.Attribute → field.ErrorList → Prop :=
| Report_nil : Report policy cr [] []
| Report_violated a e todo el :
    Violation policy cr a e → Report policy cr todo el →
    Report policy cr (a :: todo) (e :: el)
| Report_satisfied a todo el :
    Satisfied policy cr a → Report policy cr todo el →
    Report policy cr (a :: todo) el.

(** The attributes in the order of the report: common name, duration, DNS
    names, IP addresses, URIs, issuer, CA flag, key algorithm, key size. *)
Definition order : list attribute.Attribute :=
  [attribute.CommonName; attribute.MinDuration; attribute.DNSNames;
   attribute.IPAddresses; attribute.URIs; attribute.Issuers; attribute.IsCA;
   attribute.KeyAlgorithm; attribute.KeyMinSize; attribute.KeyMaxSize].

(** The response for a report: NotDenied with the empty message for the
    empty report, else Denied with the message of the aggregate of the
    reported errors. *)
Definition response (Sprintf_q : string → string) (el : field.ErrorList) :
    approver.EvaluationResponse :=
  match el with
  | [] => {| approver.Result := approver.ResultNotDenied; approver.Message := "" |}
  | _ :: _ =>
      {| approver.Result := approver.ResultDenied;
         approver.Message :=
           utilerrors.aggregate_Error (utilerrors.ToAggregate Sprintf_q el) |}
  end.

End constraints.

(** * Properties *)

(** ** Wildcard matching *)

Section Wildcard.

Import internal spec.

Lemma WildcardMatchs_star pattern subject :
  WildcardMatchs (String "*" pattern) subject = true ↔
  ∃ run s, subject = run +:+ s ∧ WildcardMatchs pattern s = true.
Proof.
  cbn [WildcardMatchs]. rewrite Ascii.eqb_refl.
  induction subject as [|d subject IH].
  - rewrite orb_false_r. split.
    + intros H. by exists "", "".
    + intros (run & s & Hs & H). destruct run, s; by simplify_eq/=.
  - rewrite orb_true_iff, IH. split.
    + intros [H|(run & s & -> & H)].
      * by exists "", (String d subject).
      * by exists (String d run), s.
    + intros ([|c run] & s & Hs & H); cbv [String.append] in Hs; fold String.append in Hs;
        simplify_eq.
      * by left.
      * right. eauto.
Qed.

Lemma WildcardMatchs_char c pattern subject :
  c ≠ "*"%char →
  WildcardMatchs (String c pattern) subject = true ↔
  ∃ s, subject = String c s ∧ WildcardMatchs pattern s = true.
Proof.
  intros Hc. cbn [WildcardMatchs].
  destruct (Ascii.eqb_spec c "*") as [|_]; [done|].
  destruct subject as [|d subject].
  - split; [done|]. by intros (? & ? & _).
  - rewrite andb_true_iff. destruct (Ascii.eqb_spec c d) as [->|Hcd].
    + split; [intros [_ ?]; eauto|]. intros (s & ? & ?). by simplify_eq.
    + split; [by intros [? _]|]. intros (s & ? & ?). by simplify_eq.
Qed.

Lemma WildcardMatchs_glob pattern subject :
  WildcardMatchs pattern subject = true ↔ glob pattern subject.
Proof.
  split.
  - revert subject. induction pattern as [|c pattern IH]; intros subject.
    + destruct subject; [constructor|done].
    + destruct (decide (c = "*"%char)) as [->|Hc].
      * rewrite WildcardMatchs_star. intros (run & s & -> & H).
        constructor. by apply IH.
      * rewrite WildcardMatchs_char by done. intros (s & -> & H).
        constructor; [done|]. by apply IH.
  - induction 1 as [|c pattern s Hc _ IH|pattern run s _ IH].
    + done.
    + rewrite WildcardMatchs_char by done. eauto.
    + rewrite WildcardMatchs_star. eauto.
Qed.

#[global] Instance glob_dec pattern subject : Decision (glob pattern subject).
Proof.
  refine (cast_if (decide (WildcardMatchs pattern subject = true)));
    by rewrite <- WildcardMatchs_glob.
Defined.

#[global] Instance accepts_dec sel v : Decision (accepts sel v).
Proof. destruct sel; apply _. Defined.

#[global] Instance Selects_dec cr crp : Decision (Selects cr crp).
Proof. apply _. Defined.

End Wildcard.

(** ** The runs of Review *)

Module runs.

Import spec.

(** The runs of Review: what it returns and the calls it makes, case by
    case.  [checked] are the policies that pass the issuer-reference
    selector, [bound] those of them the requester may use. *)
Inductive Run (Sprintf_q : string → string) (s : manager.subjectaccessreview)
    (cr : cmapi.CertificateRequest) :
    Traced (manager.ReviewResponse * option error) → Prop :=
| ListFailed crps err :
    client.List (manager.client s) = (crps, Some err) →
    Run Sprintf_q s cr
      ([ListCall crps (Some err)], (manager.emptyReviewResponse, Some err))
| NoPolicies :
    client.List (manager.client s) = ([], None) →
    Run Sprintf_q s cr
      ([ListCall [] None],
       ({| manager.Result := manager.ResultUnprocessed;
           manager.Message := "No CertificateRequestPolicies exist" |}, None))
| CheckFailed crps l1 crp l2 err :
    client.List (manager.client s) = (crps, None) →
    crps ≠ [] →
    filter (Selects cr) crps = l1 ++ crp :: l2 →
    Forall (λ x, checkError (manager.client s) cr x = None) l1 →
    checkError (manager.client s) cr crp = Some err →
    Run Sprintf_q s cr
      (ListCall crps None :: (checkCall (manager.client s) cr <$> l1 ++ [crp]),
       (manager.emptyReviewResponse,
        Some (errors.Errorf_w "failed to determine bound policies: "
                (errors.Errorf_w "failed to create subjectaccessreview: " err))))
| NoCandidates crps :
    client.List (manager.client s) = (crps, None) →
    crps ≠ [] →
    Forall (λ x, checkError (manager.client s) cr x = None) (filter (Selects cr) crps) →
    filter (Allowed (manager.client s) cr) (filter (Selects cr) crps) = [] →
    Run Sprintf_q s cr
      (ListCall crps None :: (checkCall (manager.client s) cr <$> filter (Selects cr) crps),
       ({| manager.Result := manager.ResultUnprocessed;
           manager.Message := "No CertificateRequestPolicies bound or applicable" |},
        None))
| AllRefused crps bound :
    client.List (manager.client s) = (crps, None) →
    Forall (λ x, checkError (manager.client s) cr x = None) (filter (Selects cr) crps) →
    filter (Allowed (manager.client s) cr) (filter (Selects cr) crps) = bound →
    bound ≠ [] →
    Forall (Refuses (manager.evaluators s) cr) bound →
    Run Sprintf_q s cr
      (ListCall crps None :: (checkCall (manager.client s) cr <$> filter (Selects cr) crps)
         ++ evaluationTrace (manager.evaluators s) cr bound,
       (manager.Review_denied (policyMessageOf (manager.evaluators s) cr <$> bound), None))
| Approves crps l1 crp l2 :
    client.List (manager.client s) = (crps, None) →
    Forall (λ x, checkError (manager.client s) cr x = None) (filter (Selects cr) crps) →
    filter (Allowed (manager.client s) cr) (filter (Selects cr) crps) = l1 ++ crp :: l2 →
    Forall (Refuses (manager.evaluators s) cr) l1 →
    Satisfies (manager.evaluators s) cr crp →
    Run Sprintf_q s cr
      (ListCall crps None :: (checkCall (manager.client s) cr <$> filter (Selects cr) crps)
         ++ evaluationTrace (manager.evaluators s) cr (l1 ++ [crp]),
       ({| manager.Result := manager.ResultApproved;
           manager.Message :=
             "Approved by CertificateRequestPolicy: " +:+ Sprintf_q (cmpapi.Name crp) |},
        None))
| EvaluatorFailed crps l1 crp l2 called err :
    client.List (manager.client s) = (crps, None) →
    Forall (λ x, checkError (manager.client s) cr x = None) (filter (Selects cr) crps) →
    filter (Allowed (manager.client s) cr) (filter (Selects cr) crps) = l1 ++ crp :: l2 →
    Forall (Refuses (manager.evaluators s) cr) l1 →
    Fails (manager.evaluators s) cr crp called err →
    Run Sprintf_q s cr
      (ListCall crps None :: (checkCall (manager.client s) cr <$> filter (Selects cr) crps)
         ++ evaluationTrace (manager.evaluators s) cr l1 ++ evaluateCalls called cr crp,
       (manager.emptyReviewResponse, Some err)).

End runs.

(** ** The selection predicates *)

Section Selection.

Import spec.

Lemma skipped_accepts sel v : predicate.skipped sel v = false ↔ accepts sel v.
Proof.
  destruct sel as [pattern|]; simpl; [|done].
  by rewrite negb_false_iff, WildcardMatchs_glob.
Qed.

Lemma mismatch_accepts sel v : manager.mismatch sel v = false ↔ accepts sel v.
Proof.
  destruct sel as [pattern|]; simpl; [|done].
  by rewrite negb_false_iff, WildcardMatchs_glob.
Qed.

Lemma IssuerRefSelector_loop_filter cr policies matchingPolicies :
  predicate.IssuerRefSelector_loop cr policies matchingPolicies
  = matchingPolicies ++ filter (Selects cr) policies.
Proof.
  revert matchingPolicies.
  induction policies as [|crp policies IH]; intros acc; simpl.
  { by rewrite app_nil_r. }
  rewrite filter_cons. unfold Selects at 2.
  destruct (predicate.skipped _ (cmmeta.Name _)) eqn:Hname.
  { rewrite decide_False; [done|]. intros (H & _ & _).
    apply skipped_accepts in H. congruence. }
  destruct (predicate.skipped _ (cmmeta.Kind _)) eqn:Hkind.
  { rewrite decide_False; [done|]. intros (_ & H & _).
    apply skipped_accepts in H. congruence. }
  destruct (predicate.skipped _ (cmmeta.Group _)) eqn:Hgroup.
  { rewrite decide_False; [done|]. intros (_ & _ & H).
    apply skipped_accepts in H. congruence. }
  rewrite decide_True by (by rewrite <- !skipped_accepts).
  by rewrite IH, <- app_assoc.
Qed.

Lemma issuerRefSelector_loop_filter cr allPolicies matchingPolicies :
  manager.issuerRefSelector_loop cr allPolicies matchingPolicies
  = matchingPolicies ++ filter (Selects cr) allPolicies.
Proof.
  revert matchingPolicies.
  induction allPolicies as [|crp policies IH]; intros acc; simpl.
  { by rewrite app_nil_r. }
  rewrite filter_cons. unfold Selects at 2.
  destruct (manager.mismatch _ (cmmeta.Name _)) eqn:Hname.
  { rewrite decide_False; [done|]. intros (H & _ & _).
    apply mismatch_accepts in H. congruence. }
  destruct (manager.mismatch _ (cmmeta.Kind _)) eqn:Hkind.
  { rewrite decide_False; [done|]. intros (_ & H & _).
    apply mismatch_accepts in H. congruence. }
  destruct (manager.mismatch _ (cmmeta.Group _)) eqn:Hgroup.
  { rewrite decide_False; [done|]. intros (_ & _ & H).
    apply mismatch_accepts in H. congruence. }
  rewrite decide_True by (by rewrite <- !mismatch_accepts).
  by rewrite IH, <- app_assoc.
Qed.

Lemma issuerRefSelector_filter cr allPolicies :
  manager.issuerRefSelector cr allPolicies = filter (Selects cr) allPolicies.
Proof. apply issuerRefSelector_loop_filter. Qed.

(** Copying a map key by key gives the map back. *)
Lemma copyExtra_id (m : gmap string (list string)) :
  map_fold (λ k v extra, <[k := v]> extra) ∅ m = m.
Proof.
  apply (map_fold_weak_ind (λ r m, r = m)); [done|].
  by intros i x m' r _ ->.
Qed.

Lemma newSubjectAccessReview_useReview cr crp :
  predicate.newSubjectAccessReview cr
    (predicate.copyExtra (cmapi.Extra (cmapi.Spec cr))) crp = useReview cr crp.
Proof. unfold predicate.copyExtra. by rewrite copyExtra_id. Qed.

Lemma subjectAccessReviewFor_useReview cr crp extra :
  extra = cmapi.Extra (cmapi.Spec cr) →
  manager.subjectAccessReviewFor cr extra crp = useReview cr crp.
Proof. by intros ->. Qed.

(** What [Ready] returns: each policy once for each of its conditions that
    is Ready and True. *)
Lemma Ready_conditions_replicate crp conditions readyPolicies :
  predicate.Ready_conditions crp conditions readyPolicies
  = readyPolicies
    ++ replicate (length (List.filter predicate.isReadyTrue conditions)) crp.
Proof.
  revert readyPolicies.
  induction conditions as [|condition conditions IH]; intros acc; simpl.
  { by rewrite app_nil_r. }
  destruct (predicate.isReadyTrue condition); simpl; rewrite IH; [|done].
  by rewrite <- app_assoc.
Qed.

Lemma Ready_loop_bind policies readyPolicies :
  predicate.Ready_loop policies readyPolicies
  = readyPolicies
    ++ (policies ≫= λ crp,
          replicate
            (length (List.filter predicate.isReadyTrue
                       (cmpapi.Conditions (cmpapi.Status crp)))) crp).
Proof.
  revert readyPolicies.
  induction policies as [|crp policies IH]; intros acc; simpl.
  { by rewrite app_nil_r. }
  by rewrite IH, Ready_conditions_replicate, <- app_assoc.
Qed.

Lemma isReadyTrue_IsReady crp :
  0 < length (List.filter predicate.isReadyTrue (cmpapi.Conditions (cmpapi.Status crp)))
  ↔ IsReady crp.
Proof.
  unfold IsReady. induction (cmpapi.Conditions (cmpapi.Status crp)) as [|c l IH]; simpl.
  { split; [lia|]. intros (? & H & _). inv H. }
  setoid_rewrite elem_of_cons.
  destruct (predicate.isReadyTrue c) eqn:Hc; unfold predicate.isReadyTrue in Hc.
  - apply andb_true_iff in Hc as [Ht Hs%String.eqb_eq]. apply String.eqb_eq in Ht.
    split; [|simpl; lia]. intros _. exists c. auto.
  - rewrite IH. split; [intros (c' & ? & ?); eauto|].
    intros (c' & [->|Hin] & Ht & Hs); [|eauto].
    rewrite Ht, Hs in Hc. done.
Qed.

(** [Ready] returns only policies it was given, and only ready ones. *)
Lemma Ready_elem_of cr policies crp :
  crp ∈ (value (predicate.Ready cr policies)).1 ↔ crp ∈ policies ∧ IsReady crp.
Proof.
  unfold predicate.Ready, value, ret. simpl. rewrite Ready_loop_bind. simpl.
  rewrite list_elem_of_bind. setoid_rewrite elem_of_replicate.
  rewrite <- isReadyTrue_IsReady. split.
  - intros (x & [-> Hn] & Hx). split; [done|lia].
  - intros [Hin Hn]. exists crp. split_and!; [done|lia|done].
Qed.

(** The other two predicates return a sublist of the list they are given. *)
Lemma IssuerRefSelector_sublist cr policies :
  (value (predicate.IssuerRefSelector cr policies)).1 `sublist_of` policies.
Proof.
  unfold predicate.IssuerRefSelector. rewrite IssuerRefSelector_loop_filter.
  apply sublist_filter.
Qed.

End Selection.

(** ** The RBAC-bound filter, call by call *)

Section Bound.

Import spec.

(** A list either satisfies a decidable property throughout, or has a first
    element that does not. *)
Lemma Forall_or_first {A} (P : A → Prop) `{!∀ x, Decision (P x)} (l : list A) :
  Forall P l ∨ ∃ l1 x l2, l = l1 ++ x :: l2 ∧ Forall P l1 ∧ ¬ P x.
Proof.
  induction l as [|a l [IH|(l1 & x & l2 & -> & Hl1 & Hx)]].
  - by left.
  - destruct (decide (P a)) as [Ha|Ha].
    + left. by constructor.
    + right. by exists [], a, l.
  - destruct (decide (P a)) as [Ha|Ha].
    + right. exists (a :: l1), x, l2. split_and!; [done| by constructor | done].
    + right. by exists [], a, (l1 ++ x :: l2).
Qed.

Lemma boundPolicies_loop_RBACBound_loop s cr extra allPolicies boundPolicies :
  manager.boundPolicies_loop s cr extra allPolicies boundPolicies
  = predicate.RBACBound_loop (manager.client s) cr extra allPolicies boundPolicies.
Proof.
  revert boundPolicies.
  induction allPolicies as [|crp policies IH]; intros acc; [done|].
  cbn [manager.boundPolicies_loop predicate.RBACBound_loop]. unfold bind. f_equal.
  destruct (call_Create _ _) as [t [rev [err|]]]; [done|].
  rewrite IH. by destruct (authzv1.Allowed _).
Qed.

Lemma boundPolicies_RBACBound s cr allPolicies :
  manager.boundPolicies s cr allPolicies
  = predicate.RBACBound (manager.client s) cr allPolicies.
Proof. apply boundPolicies_loop_RBACBound_loop. Qed.

Lemma call_Create_useReview c cr crp :
  call_Create c (useReview cr crp)
  = ([checkCall c cr crp],
     ((client.Create c (useReview cr crp)).1, checkError c cr crp)).
Proof.
  unfold call_Create, checkCall, checkError.
  by destruct (client.Create c (useReview cr crp)).
Qed.

Lemma RBACBound_loop_ok c cr policies boundPolicies :
  Forall (λ crp, checkError c cr crp = None) policies →
  predicate.RBACBound_loop c cr (predicate.copyExtra (cmapi.Extra (cmapi.Spec cr)))
    policies boundPolicies
  = ((checkCall c cr <$> policies),
     (boundPolicies ++ filter (Allowed c cr) policies, None)).
Proof.
  intros Hok. revert boundPolicies.
  induction Hok as [|crp policies Hcrp _ IH]; intros acc.
  { simpl. by rewrite app_nil_r. }
  cbn [predicate.RBACBound_loop].
  rewrite newSubjectAccessReview_useReview, call_Create_useReview, Hcrp.
  rewrite filter_cons. unfold bind.
  destruct (decide (Allowed c cr crp)) as [Hallowed|Hallowed];
    unfold Allowed in Hallowed.
  - rewrite Hallowed, IH. by rewrite <- app_assoc.
  - apply not_true_is_false in Hallowed. by rewrite Hallowed, IH.
Qed.

Lemma RBACBound_loop_err c cr l1 crp l2 err boundPolicies :
  Forall (λ crp, checkError c cr crp = None) l1 →
  checkError c cr crp = Some err →
  predicate.RBACBound_loop c cr (predicate.copyExtra (cmapi.Extra (cmapi.Spec cr)))
    (l1 ++ crp :: l2) boundPolicies
  = ((checkCall c cr <$> l1 ++ [crp]),
     ([], Some (errors.Errorf_w "failed to create subjectaccessreview: " err))).
Proof.
  intros Hok Herr. revert boundPolicies.
  induction Hok as [|x l1 Hx _ IH]; intros acc;
    cbn [predicate.RBACBound_loop app];
    rewrite newSubjectAccessReview_useReview, call_Create_useReview.
  - by rewrite Herr.
  - rewrite Hx. unfold bind.
    destruct (authzv1.Allowed _); by rewrite IH.
Qed.

(** The filter never returns a list together with an error. *)
Lemma RBACBound_outcome c cr policies :
  (Forall (λ crp, checkError c cr crp = None) policies
   ∧ predicate.RBACBound c cr policies
     = ((checkCall c cr <$> policies), (filter (Allowed c cr) policies, None)))
  ∨ (∃ l1 crp l2 err,
       policies = l1 ++ crp :: l2
       ∧ Forall (λ crp, checkError c cr crp = None) l1
       ∧ checkError c cr crp = Some err
       ∧ predicate.RBACBound c cr policies
         = ((checkCall c cr <$> l1 ++ [crp]),
            ([], Some (errors.Errorf_w "failed to create subjectaccessreview: " err)))).
Proof.
  destruct (Forall_or_first (λ crp, checkError c cr crp = None) policies)
    as [Hok|(l1 & crp & l2 & -> & Hok & Herr)].
  - left. split; [done|]. unfold predicate.RBACBound. by rewrite RBACBound_loop_ok.
  - right. destruct (checkError c cr crp) as [err|] eqn:Hcrp; [|done].
    exists l1, crp, l2, err. split_and!; try done.
    unfold predicate.RBACBound. by apply RBACBound_loop_err.
Qed.

Lemma RBACBound_sublist c cr policies :
  (value (predicate.RBACBound c cr policies)).1 `sublist_of` policies.
Proof.
  destruct (RBACBound_outcome c cr policies)
    as [[_ ->]|(l1 & crp & l2 & err & _ & _ & _ & ->)]; simpl.
  - apply sublist_filter.
  - apply sublist_nil_l.
Qed.

End Bound.

(** ** The evaluation loops of Review *)

Section Evaluation.

Import spec.

Lemma call_Evaluate_evaluateCall e crp cr :
  call_Evaluate e crp cr = ([evaluateCall cr crp e], approver.Evaluate e crp cr).
Proof.
  unfold call_Evaluate, evaluateCall. by destruct (approver.Evaluate e crp cr).
Qed.

(** The loop over the evaluators runs them all when none returns an error:
    a Denied verdict is recorded and the loop goes on. *)
Lemma Review_evaluators_ok evaluators crp cr evaluatorDenied evaluatorMessages :
  Forall (λ e, (approver.Evaluate e crp cr).2 = None) evaluators →
  manager.Review_evaluators evaluators crp cr evaluatorDenied evaluatorMessages
  = (evaluateCalls evaluators cr crp,
     (bool_decide (evaluatorDenied = true ∨ Exists (Denied cr crp) evaluators),
      evaluatorMessages
        ++ ((λ e, approver.Message (approver.Evaluate e crp cr).1) <$> evaluators),
      None)).
Proof.
  intros Hok. revert evaluatorDenied evaluatorMessages.
  induction Hok as [|e evaluators He _ IH]; intros d msgs.
  { unfold ret. simpl. f_equal. f_equal. f_equal; [|by rewrite app_nil_r]. symmetry.
    destruct d; [apply bool_decide_eq_true_2; by left|].
    apply bool_decide_eq_false_2. intros [|H]; [done|]. inv H. }
  cbn [manager.Review_evaluators]. rewrite call_Evaluate_evaluateCall.
  destruct (approver.Evaluate e crp cr) as [response err] eqn:Heval.
  simpl in He. subst err. unfold bind. rewrite IH.
  unfold evaluateCalls. rewrite !fmap_cons. cbn [app]. f_equal. f_equal. f_equal.
  - apply bool_decide_ext. rewrite Exists_cons. unfold Denied at 2.
    rewrite Heval. simpl. destruct (approver.Result response); intuition discriminate.
  - rewrite Heval. by rewrite <- app_assoc.
Qed.

Lemma Review_evaluators_err before e after err crp cr evaluatorDenied evaluatorMessages :
  Forall (λ e, (approver.Evaluate e crp cr).2 = None) before →
  (approver.Evaluate e crp cr).2 = Some err →
  ∃ verdict,
    manager.Review_evaluators (before ++ e :: after) crp cr
      evaluatorDenied evaluatorMessages
    = (evaluateCalls (before ++ [e]) cr crp, (verdict, Some err)).
Proof.
  intros Hok Herr. revert evaluatorDenied evaluatorMessages.
  induction Hok as [|x before Hx _ IH]; intros d msgs;
    cbn [manager.Review_evaluators app]; rewrite call_Evaluate_evaluateCall.
  - destruct (approver.Evaluate e crp cr) as [response ?]; simpl in *; subst.
    by eexists.
  - destruct (approver.Evaluate x crp cr) as [response ?] eqn:Heval; simpl in *; subst.
    unfold bind.
    edestruct IH as [verdict ->]. eexists. unfold evaluateCalls. simpl. done.
Qed.

(** For one policy, exactly one of three things happens. *)
Lemma policy_outcome evaluators cr crp :
  Satisfies evaluators cr crp
  ∨ Refuses evaluators cr crp
  ∨ ∃ called err, Fails evaluators cr crp called err.
Proof.
  destruct (Forall_or_first (λ e, (approver.Evaluate e crp cr).2 = None) evaluators)
    as [Hok|(before & e & after & -> & Hok & Herr)].
  - destruct (Forall_Exists_dec
        (λ e, approver.Result (approver.Evaluate e crp cr).1 = approver.ResultNotDenied)
        (λ e, approver.Result (approver.Evaluate e crp cr).1 = approver.ResultDenied)
        (λ e, match approver.Result (approver.Evaluate e crp cr).1 as r
                return {r = approver.ResultNotDenied} + {r = approver.ResultDenied}
              with
              | approver.ResultDenied => right eq_refl
              | approver.ResultNotDenied => left eq_refl
              end) evaluators) as [Hall|Hex].
    + left. unfold Satisfies, NotDenied. rewrite Forall_forall in *. auto.
    + right; left. split; [done|]. unfold Denied.
      apply Exists_exists in Hex as (e & He & Hd). apply Exists_exists.
      exists e. rewrite Forall_forall in Hok. auto.
  - right; right. destruct (approver.Evaluate e crp cr).2 as [err|] eqn:He; [|done].
    exists (before ++ [e]), err, before, e, after. by rewrite He.
Qed.

Lemma Satisfies_not_Refuses evaluators cr crp :
  Satisfies evaluators cr crp → ¬ Refuses evaluators cr crp.
Proof.
  unfold Satisfies, Refuses, NotDenied, Denied.
  rewrite Forall_forall, Exists_exists. intros Hs (_ & e & He & _ & Hd).
  destruct (Hs e He) as [_ Hn]. congruence.
Qed.

Lemma Satisfies_not_Fails evaluators cr crp called err :
  Satisfies evaluators cr crp → ¬ Fails evaluators cr crp called err.
Proof.
  unfold Satisfies, NotDenied. rewrite Forall_forall.
  intros Hs (before & e & after & -> & _ & Herr & _).
  destruct (Hs e) as [Hn _]; [|congruence].
  rewrite elem_of_app, elem_of_cons. auto.
Qed.

Lemma Refuses_not_Fails evaluators cr crp called err :
  Refuses evaluators cr crp → ¬ Fails evaluators cr crp called err.
Proof.
  unfold Refuses. rewrite Forall_forall.
  intros [Hs _] (before & e & after & -> & _ & Herr & _).
  rewrite Hs in Herr; [done|].
  rewrite elem_of_app, elem_of_cons. auto.
Qed.

End Evaluation.

Section Policies.

Import spec.

Variable Sprintf_q : string → string.
Variable s : manager.subjectaccessreview.
Variable cr : cmapi.CertificateRequest.

Local Abbreviation evaluators := (manager.evaluators s).

Lemma Review_evaluators_refuses crp :
  Refuses evaluators cr crp →
  manager.Review_evaluators evaluators crp cr false []
  = (evaluateCalls evaluators cr crp,
     (true, (λ e, approver.Message (approver.Evaluate e crp cr).1) <$> evaluators, None)).
Proof.
  intros [Hok Hex]. rewrite Review_evaluators_ok by done.
  by rewrite bool_decide_eq_true_2 by (by right).
Qed.

Lemma Review_evaluators_satisfies crp :
  Satisfies evaluators cr crp →
  manager.Review_evaluators evaluators crp cr false []
  = (evaluateCalls evaluators cr crp,
     (false, (λ e, approver.Message (approver.Evaluate e crp cr).1) <$> evaluators, None)).
Proof.
  intros Hs. rewrite Review_evaluators_ok.
  - rewrite bool_decide_eq_false_2; [done|]. intros [|Hex]; [done|].
    eapply Satisfies_not_Refuses; [done|]. split; [|done].
    eapply Forall_impl; [exact Hs|]. by intros e [? _].
  - eapply Forall_impl; [exact Hs|]. by intros e [? _].
Qed.

Lemma Review_policies_refused policies policyMessages :
  Forall (Refuses evaluators cr) policies →
  manager.Review_policies Sprintf_q s cr policies policyMessages
  = (evaluationTrace evaluators cr policies,
     (manager.Review_denied
        (policyMessages ++ (policyMessageOf evaluators cr <$> policies)), None)).
Proof.
  intros Hall. revert policyMessages.
  induction Hall as [|crp policies Hcrp _ IH]; intros acc.
  { simpl. by rewrite app_nil_r. }
  cbn [manager.Review_policies]. rewrite Review_evaluators_refuses by done.
  unfold bind. cbn [negb]. rewrite IH.
  by rewrite fmap_cons, <- app_assoc.
Qed.

Lemma Review_policies_approved l1 crp l2 policyMessages :
  Forall (Refuses evaluators cr) l1 →
  Satisfies evaluators cr crp →
  manager.Review_policies Sprintf_q s cr (l1 ++ crp :: l2) policyMessages
  = (evaluationTrace evaluators cr (l1 ++ [crp]),
     ({| manager.Result := manager.ResultApproved;
         manager.Message :=
           "Approved by CertificateRequestPolicy: " +:+ Sprintf_q (cmpapi.Name crp) |},
      None)).
Proof.
  intros Hall Hcrp. revert policyMessages.
  induction Hall as [|x l1 Hx _ IH]; intros acc; cbn [manager.Review_policies app].
  - rewrite Review_evaluators_satisfies by done. unfold bind, evaluationTrace. simpl.
    by rewrite !app_nil_r.
  - rewrite Review_evaluators_refuses by done. unfold bind. cbn [negb]. by rewrite IH.
Qed.

Lemma Review_policies_failed l1 crp l2 called err policyMessages :
  Forall (Refuses evaluators cr) l1 →
  Fails evaluators cr crp called err →
  manager.Review_policies Sprintf_q s cr (l1 ++ crp :: l2) policyMessages
  = (evaluationTrace evaluators cr l1 ++ evaluateCalls called cr crp,
     (manager.emptyReviewResponse, Some err)).
Proof.
  intros Hall (before & e & after & Hevs & Hok & Herr & ->). revert policyMessages.
  induction Hall as [|x l1 Hx _ IH]; intros acc; cbn [manager.Review_policies app].
  - rewrite Hevs.
    destruct (Review_evaluators_err before e after err crp cr false [] Hok Herr)
      as [[d msgs] ->].
    unfold bind. simpl. by rewrite app_nil_r.
  - rewrite Review_evaluators_refuses by done. unfold bind. cbn [negb]. rewrite IH.
    unfold evaluationTrace. simpl. by rewrite app_assoc.
Qed.

(** The policies are refused one after the other until one is satisfied
    or an evaluator fails. *)
Lemma policies_outcome policies :
  Forall (Refuses evaluators cr) policies
  ∨ ∃ l1 crp l2,
      policies = l1 ++ crp :: l2
      ∧ Forall (Refuses evaluators cr) l1
      ∧ (Satisfies evaluators cr crp
         ∨ ∃ called err, Fails evaluators cr crp called err).
Proof.
  induction policies as [|x policies IH]; [by left|].
  destruct (policy_outcome evaluators cr x) as [Hx|[Hx|Hx]].
  - right. exists [], x, policies. auto.
  - destruct IH as [IH|(l1 & crp & l2 & -> & Hl1 & Hcrp)].
    + left. by constructor.
    + right. exists (x :: l1), crp, l2. split_and!; [done|by constructor|done].
  - right. exists [], x, policies. auto.
Qed.

End Policies.

Section ReviewRuns.

Import spec runs.

Variable Sprintf_q : string → string.
Variable s : manager.subjectaccessreview.
Variable cr : cmapi.CertificateRequest.

(** Every run of Review is one of the seven runs of [Run]. *)
Lemma Review_Run : Run Sprintf_q s cr (manager.Review Sprintf_q s cr).
Proof.
  unfold manager.Review, call_List.
  destruct (client.List (manager.client s)) as [crps [err|]] eqn:HList.
  { by eapply ListFailed. }
  unfold bind at 1.
  destruct (decide (length crps = 0)) as [Hlen|Hlen].
  { apply nil_length_inv in Hlen. subst crps. by apply NoPolicies. }
  assert (crps ≠ []) as Hcrps by (by intros ->).
  rewrite issuerRefSelector_filter, boundPolicies_RBACBound.
  destruct (RBACBound_outcome (manager.client s) cr (filter (Selects cr) crps))
    as [[Hok ->]|(l1 & crp & l2 & err & Hsplit & Hok & Herr & ->)]; unfold bind.
  2: { simpl. rewrite app_nil_r. by eapply CheckFailed. }
  destruct (decide (length _ = 0)) as [Hnone|Hsome].
  { apply nil_length_inv in Hnone. simpl. rewrite app_nil_r. by apply NoCandidates. }
  destruct (policies_outcome s cr
              (filter (Allowed (manager.client s) cr) (filter (Selects cr) crps)))
    as [Hall|(l1 & crp & l2 & Hsplit & Hl1 & [Hcrp|(called & err & Hcrp)])].
  - rewrite Review_policies_refused by done. simpl.
    eapply AllRefused; try done. by intros Hnil; rewrite Hnil in Hsome.
  - rewrite Hsplit, Review_policies_approved by done. simpl.
    by eapply Approves.
  - rewrite Hsplit, (Review_policies_failed _ _ _ _ _ _ called err) by done. simpl.
    by eapply EvaluatorFailed.
Qed.

(** The candidate policy set, in terms of the two filters. *)
Lemma Candidates_filter policies :
  Candidates s cr policies ↔
  ∃ crps,
    client.List (manager.client s) = (crps, None)
    ∧ Forall (λ x, checkError (manager.client s) cr x = None) (filter (Selects cr) crps)
    ∧ policies = filter (Allowed (manager.client s) cr) (filter (Selects cr) crps).
Proof.
  unfold Candidates. setoid_rewrite issuerRefSelector_filter.
  setoid_rewrite boundPolicies_RBACBound.
  split; intros (crps & HList & H); exists crps; (split; [done|]).
  - destruct (RBACBound_outcome (manager.client s) cr (filter (Selects cr) crps))
      as [[Hok Heq]|(l1 & crp & l2 & err & Hsplit & Hok & Herr & Heq)];
      rewrite Heq in H; unfold value in H; simpl in H; by simplify_eq.
  - destruct H as [Hok ->].
    destruct (RBACBound_outcome (manager.client s) cr (filter (Selects cr) crps))
      as [[_ Heq]|(l1 & crp & l2 & err & Hsplit & _ & Herr & _)]; [by rewrite Heq|].
    rewrite Hsplit, Forall_app, Forall_cons in Hok. destruct Hok as (_ & Hcrp & _).
    congruence.
Qed.

End ReviewRuns.

(** ** The evaluator calls in a trace *)

Section Traces.

Import spec runs.

Lemma evaluateCalls_elem_of evaluators cr crp e x response err :
  EvaluateCall e x response err ∈ evaluateCalls evaluators cr crp ↔
  x = crp ∧ e ∈ evaluators
  ∧ response = (approver.Evaluate e crp cr).1 ∧ err = (approver.Evaluate e crp cr).2.
Proof.
  unfold evaluateCalls, evaluateCall. rewrite list_elem_of_fmap. split.
  - intros (e' & Heq & He'). by simplify_eq.
  - intros (-> & He & -> & ->). by exists e.
Qed.

Lemma evaluationTrace_elem_of evaluators cr policies e crp response err :
  EvaluateCall e crp response err ∈ evaluationTrace evaluators cr policies ↔
  crp ∈ policies ∧ e ∈ evaluators
  ∧ response = (approver.Evaluate e crp cr).1 ∧ err = (approver.Evaluate e crp cr).2.
Proof.
  unfold evaluationTrace. rewrite list_elem_of_bind.
  setoid_rewrite evaluateCalls_elem_of. split.
  - intros (x & (-> & ? & ? & ?) & ?). done.
  - intros (? & ? & ? & ?). by exists crp.
Qed.

Lemma evaluationTrace_app evaluators cr l1 l2 :
  evaluationTrace evaluators cr (l1 ++ l2)
  = evaluationTrace evaluators cr l1 ++ evaluationTrace evaluators cr l2.
Proof. apply bind_app. Qed.

Lemma evaluationTrace_singleton evaluators cr crp :
  evaluationTrace evaluators cr [crp] = evaluateCalls evaluators cr crp.
Proof. unfold evaluationTrace. simpl. apply app_nil_r. Qed.

(** The selection calls no evaluator. *)
Lemma selection_calls_no_evaluator c cr listed err policies e crp response err' :
  EvaluateCall e crp response err' ∉ ListCall listed err :: (checkCall c cr <$> policies).
Proof.
  rewrite elem_of_cons, list_elem_of_fmap. by intros [?|(x & ? & _)].
Qed.

(** An evaluator call of a run is the call of a registered evaluator on a
    bound policy, and records what the evaluator returns.  The policy is
    refused, or it is satisfied and the run approves, or an evaluator fails
    on it and the run returns that error. *)
Lemma Run_EvaluateCall Sprintf_q s cr run e crp response err :
  Run Sprintf_q s cr run →
  EvaluateCall e crp response err ∈ trace run →
  e ∈ manager.evaluators s
  ∧ response = (approver.Evaluate e crp cr).1
  ∧ err = (approver.Evaluate e crp cr).2
  ∧ (∃ crps, client.List (manager.client s) = (crps, None)
       ∧ crp ∈ filter (Allowed (manager.client s) cr) (filter (Selects cr) crps))
  ∧ (Refuses (manager.evaluators s) cr crp
     ∨ (Satisfies (manager.evaluators s) cr crp
        ∧ manager.Result (value run).1 = manager.ResultApproved)
     ∨ (∃ called err',
          Fails (manager.evaluators s) cr crp called err'
          ∧ value run = (manager.emptyReviewResponse, Some err'))).
Proof.
  intros Hrun. destruct Hrun as
    [crps err0 HList
    |HList
    |crps l1 x l2 err0 HList Hcrps Hsplit Hl1 Herr
    |crps HList Hcrps Hok Hnone
    |crps bound HList Hok Hbound Hsome Hall
    |crps l1 x l2 HList Hok Hbound Hl1 Hx
    |crps l1 x l2 called err0 HList Hok Hbound Hl1 Hx];
    unfold trace, value; cbn [fst snd].
  1-4: intros Hev; exfalso; revert Hev;
       first [ apply selection_calls_no_evaluator
             | apply (selection_calls_no_evaluator (manager.client s) cr _ _ []) ].
  - rewrite app_comm_cons, elem_of_app, evaluationTrace_elem_of.
    intros [Hev|(Hcrp & He & -> & ->)];
      [by apply selection_calls_no_evaluator in Hev|].
    split_and!; try done.
    + exists crps. by rewrite Hbound.
    + left. by eapply Forall_forall in Hall.
  - rewrite app_comm_cons, elem_of_app, evaluationTrace_elem_of.
    intros [Hev|(Hcrp & He & -> & ->)];
      [by apply selection_calls_no_evaluator in Hev|].
    split_and!; try done.
    + exists crps. split; [done|]. rewrite Hbound, elem_of_app, elem_of_cons.
      apply elem_of_app in Hcrp as [Hcrp|Hcrp%list_elem_of_singleton]; auto.
    + apply elem_of_app in Hcrp as [Hcrp|Hcrp%list_elem_of_singleton].
      * left. by eapply Forall_forall in Hl1.
      * right; left. by subst.
  - rewrite app_comm_cons, !elem_of_app, evaluationTrace_elem_of, evaluateCalls_elem_of.
    intros [Hev|[(Hcrp & He & -> & ->)|(-> & He & -> & ->)]];
      [by apply selection_calls_no_evaluator in Hev| |].
    + split_and!; try done.
      * exists crps. split; [done|]. rewrite Hbound, elem_of_app. by left.
      * left. by eapply Forall_forall in Hl1.
    + destruct Hx as (before & e' & after & Hevs & Hbefore & He' & ->).
      split_and!; try done.
      * rewrite Hevs. rewrite elem_of_app in He. rewrite elem_of_app, elem_of_cons.
        destruct He as [?|He%list_elem_of_singleton]; auto.
      * exists crps. split; [done|]. rewrite Hbound, elem_of_app, elem_of_cons. auto.
      * right; right. exists (before ++ [e']), err0. split; [|done].
        by exists before, e', after.
Qed.

Lemma evaluateCalls_elem_of_event evaluators cr crp ev :
  ev ∈ evaluateCalls evaluators cr crp ↔
  ∃ e, e ∈ evaluators ∧ ev = evaluateCall cr crp e.
Proof.
  unfold evaluateCalls. rewrite list_elem_of_fmap.
  split; intros (e & ? & ?); by exists e.
Qed.

Lemma evaluationTrace_elem_of_event evaluators cr policies ev :
  ev ∈ evaluationTrace evaluators cr policies ↔
  ∃ crp e, crp ∈ policies ∧ e ∈ evaluators ∧ ev = evaluateCall cr crp e.
Proof.
  unfold evaluationTrace. rewrite list_elem_of_bind.
  setoid_rewrite evaluateCalls_elem_of_event. split.
  - intros (crp & (e & ? & ?) & ?). by exists crp, e.
  - intros (crp & e & ? & ? & ?). exists crp. split; [by exists e|done].
Qed.

(** No call of a refused or satisfied policy returns an error. *)
Lemma evaluationTrace_no_error evaluators cr policies ev err :
  Forall (λ crp, Refuses evaluators cr crp ∨ Satisfies evaluators cr crp) policies →
  ev ∈ evaluationTrace evaluators cr policies →
  event_error ev ≠ Some err.
Proof.
  rewrite Forall_forall, evaluationTrace_elem_of_event.
  intros Hall (crp & e & Hcrp & He & ->). simpl.
  destruct (Hall crp Hcrp) as [[Hok _]|Hsat].
  - eapply Forall_forall in Hok; [|done]. by rewrite Hok.
  - eapply Forall_forall in Hsat as [Hok _]; [|done]. by rewrite Hok.
Qed.

Lemma checkCall_no_error c cr policies ev err :
  Forall (λ x, checkError c cr x = None) policies →
  ev ∈ checkCall c cr <$> policies →
  event_error ev ≠ Some err.
Proof.
  rewrite Forall_forall, list_elem_of_fmap. intros Hok (x & -> & Hx). simpl.
  by rewrite Hok.
Qed.

(** A call that returns an error is the last call of the run, and the run
    returns the empty response with that error. *)
Lemma Run_error_event Sprintf_q s cr run ev err :
  Run Sprintf_q s cr run →
  ev ∈ trace run → event_error ev = Some err →
  (∃ before, trace run = before ++ [ev])
  ∧ value run = (manager.emptyReviewResponse, Some (ReviewError ev err)).
Proof.
  intros Hrun. destruct Hrun as
    [crps err0 HList
    |HList
    |crps l1 x l2 err0 HList Hcrps Hsplit Hl1 Herr
    |crps HList Hcrps Hok Hnone
    |crps bound HList Hok Hbound Hsome Hall
    |crps l1 x l2 HList Hok Hbound Hl1 Hx
    |crps l1 x l2 called err0 HList Hok Hbound Hl1 Hx];
    unfold trace, value; cbn [fst snd].
  - intros ->%list_elem_of_singleton [= ->]. split; [by exists []|done].
  - by intros ->%list_elem_of_singleton.
  - rewrite fmap_app, app_comm_cons, elem_of_app, elem_of_cons.
    intros [[->|Hev]|Hev%list_elem_of_singleton] Herr'; [done| |].
    + by eapply checkCall_no_error in Hev.
    + subst ev. simpl in Herr'. rewrite Herr in Herr'. injection Herr' as ->.
      split; [by eexists|done].
  - rewrite elem_of_cons. intros [->|Hev] Herr'; [done|].
    by eapply checkCall_no_error in Hev.
  - rewrite elem_of_cons, elem_of_app. intros [->|[Hev|Hev]] Herr'; [done| |].
    + by eapply checkCall_no_error in Hev.
    + eapply evaluationTrace_no_error in Hev; [done|].
      eapply Forall_impl; [exact Hall|]. auto.
  - rewrite elem_of_cons, elem_of_app. intros [->|[Hev|Hev]] Herr'; [done| |].
    + by eapply checkCall_no_error in Hev.
    + eapply evaluationTrace_no_error in Hev; [done|].
      apply Forall_app. split; [eapply Forall_impl; [exact Hl1|]; auto|].
      apply Forall_singleton. auto.
  - destruct Hx as (before & e & after & Hevs & Hbefore & He & ->).
    replace (ListCall crps None
               :: (checkCall (manager.client s) cr <$> filter (Selects cr) crps)
               ++ evaluationTrace (manager.evaluators s) cr l1
               ++ evaluateCalls (before ++ [e]) cr x)
      with ((ListCall crps None
               :: (checkCall (manager.client s) cr <$> filter (Selects cr) crps)
               ++ evaluationTrace (manager.evaluators s) cr l1
               ++ evaluateCalls before cr x) ++ [evaluateCall cr x e]).
    2: { unfold evaluateCalls. rewrite fmap_app. simpl. by rewrite <- !app_assoc. }
    rewrite elem_of_app.
    intros [Hev|Hev%list_elem_of_singleton] Herr'.
    + exfalso. rewrite elem_of_cons, !elem_of_app in Hev.
      destruct Hev as [->|[Hev|[Hev|Hev]]]; [done| | |].
      * by eapply checkCall_no_error in Hev.
      * eapply evaluationTrace_no_error in Hev; [done|].
        eapply Forall_impl; [exact Hl1|]. auto.
      * apply list_elem_of_fmap in Hev as (e' & -> & He').
        eapply Forall_forall in Hbefore; [|done]. simpl in Herr'. congruence.
    + subst ev. simpl in Herr'. rewrite He in Herr'. injection Herr' as ->.
      split; [by eexists|done].
Qed.

(** An error returned by Review is the error of its last call. *)
Lemma Run_error_value Sprintf_q s cr run err' :
  Run Sprintf_q s cr run →
  (value run).2 = Some err' →
  ∃ ev err, ev ∈ trace run ∧ event_error ev = Some err ∧ err' = ReviewError ev err.
Proof.
  intros Hrun. destruct Hrun as
    [crps err0 HList
    |HList
    |crps l1 x l2 err0 HList Hcrps Hsplit Hl1 Herr
    |crps HList Hcrps Hok Hnone
    |crps bound HList Hok Hbound Hsome Hall
    |crps l1 x l2 HList Hok Hbound Hl1 Hx
    |crps l1 x l2 called err0 HList Hok Hbound Hl1 Hx];
    unfold trace, value; cbn [fst snd]; intros Heq; simplify_eq.
  - exists (ListCall crps (Some err')), err'. split_and!; [|done..]. by left.
  - exists (checkCall (manager.client s) cr x), err0. split_and!.
    + rewrite elem_of_cons, list_elem_of_fmap. right. exists x. split; [done|].
      rewrite elem_of_app, list_elem_of_singleton. auto.
    + done.
    + done.
  - destruct Hx as (before & e & after & Hevs & Hbefore & He & ->).
    exists (evaluateCall cr x e), err'. split_and!; [|done..].
    rewrite elem_of_cons, !elem_of_app, evaluateCalls_elem_of_event. right; right; right.
    exists e. split; [|done]. rewrite elem_of_app, list_elem_of_singleton. auto.
Qed.

(** Every evaluator is called on a consulted policy for which none returns
    an error, whatever the verdicts. *)
Lemma Run_all_evaluators_called Sprintf_q s cr run crp e0 response err e :
  Run Sprintf_q s cr run →
  EvaluateCall e0 crp response err ∈ trace run →
  Forall (λ e, (approver.Evaluate e crp cr).2 = None) (manager.evaluators s) →
  e ∈ manager.evaluators s →
  evaluateCall cr crp e ∈ trace run.
Proof.
  intros Hrun. destruct Hrun as
    [crps err0 HList
    |HList
    |crps l1 x l2 err0 HList Hcrps Hsplit Hl1 Herr
    |crps HList Hcrps Hok Hnone
    |crps bound HList Hok Hbound Hsome Hall
    |crps l1 x l2 HList Hok Hbound Hl1 Hx
    |crps l1 x l2 called err0 HList Hok Hbound Hl1 Hx];
    unfold trace; cbn [fst].
  1-4: intros Hev; exfalso; revert Hev;
       first [ apply selection_calls_no_evaluator
             | apply (selection_calls_no_evaluator (manager.client s) cr _ _ []) ].
  - rewrite !app_comm_cons, !elem_of_app, evaluationTrace_elem_of,
      evaluationTrace_elem_of_event.
    intros [Hev|(Hcrp & _)] _ He; [by apply selection_calls_no_evaluator in Hev|].
    right. eauto.
  - rewrite !app_comm_cons, !elem_of_app, evaluationTrace_elem_of,
      evaluationTrace_elem_of_event.
    intros [Hev|(Hcrp & _)] _ He; [by apply selection_calls_no_evaluator in Hev|].
    right. eauto.
  - rewrite !app_comm_cons, !elem_of_app, evaluationTrace_elem_of,
      evaluateCalls_elem_of, evaluationTrace_elem_of_event.
    intros [Hev|[(Hcrp & _)|(-> & _)]] Hnoerr He;
      [by apply selection_calls_no_evaluator in Hev| |].
    + right; left. eauto.
    + exfalso. eapply Refuses_not_Fails; [|exact Hx].
      split; [done|]. destruct Hx as (before & e' & after & Hevs & _ & He' & _).
      rewrite Hevs, Forall_app, Forall_cons in Hnoerr.
      destruct Hnoerr as (_ & Hnoerr & _). congruence.
Qed.

(** Every authorization check of a run is the check of a listed policy that
    passes the issuer-reference selector. *)
Lemma Run_CreateCall Sprintf_q s cr run rev err :
  Run Sprintf_q s cr run →
  CreateCall rev err ∈ trace run →
  ∃ crps crp,
    client.List (manager.client s) = (crps, None)
    ∧ crp ∈ filter (Selects cr) crps ∧ rev = useReview cr crp.
Proof.
  assert (∀ policies : list cmpapi.CertificateRequestPolicy,
            CreateCall rev err ∈ checkCall (manager.client s) cr <$> policies →
            ∃ crp, crp ∈ policies ∧ rev = useReview cr crp) as Hchecks.
  { intros policies (crp & Heq & Hcrp)%list_elem_of_fmap. exists crp.
    unfold checkCall in Heq. by simplify_eq. }
  assert (∀ evaluators policies,
            CreateCall rev err ∉ evaluationTrace evaluators cr policies) as Hevals.
  { intros evaluators policies (? & ? & _ & _ & ?)%evaluationTrace_elem_of_event. done. }
  intros Hrun. destruct Hrun as
    [crps err0 HList
    |HList
    |crps l1 x l2 err0 HList Hcrps Hsplit Hl1 Herr
    |crps HList Hcrps Hok Hnone
    |crps bound HList Hok Hbound Hsome Hall
    |crps l1 x l2 HList Hok Hbound Hl1 Hx
    |crps l1 x l2 called err0 HList Hok Hbound Hl1 Hx];
    unfold trace; cbn [fst]; rewrite elem_of_cons, ?elem_of_app.
  - by intros [?|?%elem_of_nil].
  - by intros [?|?%elem_of_nil].
  - intros [?|(crp & Hcrp & ->)%Hchecks]; [done|]. exists crps, crp.
    split_and!; [done| |done]. rewrite Hsplit.
    rewrite elem_of_app, elem_of_cons.
    apply elem_of_app in Hcrp as [?|?%list_elem_of_singleton]; auto.
  - intros [?|(crp & Hcrp & ->)%Hchecks]; [done|]. by exists crps, crp.
  - intros [?|[(crp & Hcrp & ->)%Hchecks|?%Hevals]]; [done| |done]. by exists crps, crp.
  - intros [?|[(crp & Hcrp & ->)%Hchecks|?%Hevals]]; [done| |done]. by exists crps, crp.
  - intros [?|[(crp & Hcrp & ->)%Hchecks|[?%Hevals|Hev]]]; [done| |done|].
    + by exists crps, crp.
    + by apply evaluateCalls_elem_of_event in Hev as (? & _ & ?).
Qed.

End Traces.

(** ** Sorting the policy messages by name *)

(** The [less] function Review hands to [sort.SliceStable]. *)
Abbreviation byName :=
  (λ i j : manager.policyMessage, String.ltb (manager.name i) (manager.name j)).

Section Sorting.

Import spec.

Lemma ascii_compare_Lt_trans a b c :
  Ascii.compare a b = Lt → Ascii.compare b c = Lt → Ascii.compare a c = Lt.
Proof.
  unfold Ascii.compare. rewrite !N.compare_lt_iff. lia.
Qed.

Lemma string_compare_Lt_trans a b c :
  String.compare a b = Lt → String.compare b c = Lt → String.compare a c = Lt.
Proof.
  revert b c. induction a as [|x a IH]; intros [|y b] [|z c]; simpl; try done.
  destruct (Ascii.compare x y) eqn:Hxy; [|clear IH|done];
    destruct (Ascii.compare y z) eqn:Hyz; try done.
  - apply Ascii.compare_eq_iff in Hxy, Hyz. subst.
    rewrite (proj2 (N.compare_eq_iff _ _) eq_refl : Ascii.compare z z = Eq). apply IH.
  - apply Ascii.compare_eq_iff in Hxy. subst. by rewrite Hyz.
  - apply Ascii.compare_eq_iff in Hyz. subst. by rewrite Hxy.
  - by rewrite (ascii_compare_Lt_trans x y z).
Qed.

Lemma ltb_false_iff a b :
  String.ltb a b = false ↔ String.compare b a = Lt ∨ a = b.
Proof.
  unfold String.ltb. rewrite (String.compare_antisym b a).
  destruct (String.compare a b) eqn:Hab; simpl.
  - apply String.compare_eq_iff in Hab. intuition.
  - split; [done|]. intros [?| ->]; [done|].
    assert (String.compare b b = Eq) as Hbb; [|congruence].
    clear. induction b as [|c b IH]; [done|]. simpl.
    by rewrite (proj2 (N.compare_eq_iff _ _) eq_refl : Ascii.compare c c = Eq).
  - intuition.
Qed.

#[global] Instance nameLe_trans : Transitive nameLe.
Proof.
  intros a b c. unfold nameLe. rewrite !ltb_false_iff.
  intros [Hab|Hab] [Hbc|Hbc]; try (rewrite <- ?Hab, ?Hbc in *; auto; fail).
  left. by eapply string_compare_Lt_trans.
Qed.

Lemma nameLe_total a b : nameLe a b ∨ nameLe b a.
Proof.
  unfold nameLe, String.ltb. rewrite (String.compare_antisym (manager.name b)).
  destruct (String.compare _ _); auto.
Qed.

Lemma nameLe_antisym a b : nameLe a b → nameLe b a → manager.name a = manager.name b.
Proof.
  unfold nameLe. rewrite !ltb_false_iff. intros [Hab|Hab] [Hba|Hba]; try done.
  rewrite String.compare_antisym, Hba in Hab. done.
Qed.

Lemma insert_Permutation x l : sort.insert byName x l ≡ₚ x :: l.
Proof.
  induction l as [|y l IH]; simpl; [done|].
  destruct (String.ltb _ _); [|done]. rewrite IH. apply Permutation_swap.
Qed.

Lemma SliceStable_Permutation l : sort.SliceStable byName l ≡ₚ l.
Proof.
  induction l as [|x l IH]; simpl; [done|].
  by rewrite insert_Permutation, IH.
Qed.

Lemma insert_StronglySorted x l :
  StronglySorted nameLe l → StronglySorted nameLe (sort.insert byName x l).
Proof.
  induction 1 as [|y l Hl IH Hy]; simpl.
  { repeat constructor. }
  destruct (String.ltb (manager.name y) (manager.name x)) eqn:Hyx.
  - constructor; [done|]. rewrite insert_Permutation. constructor; [|done].
    destruct (nameLe_total y x) as [?|Hxy]; [done|].
    unfold nameLe in Hxy. congruence.
  - constructor; [by constructor|]. constructor; [done|].
    eapply Forall_impl; [exact Hy|]. intros z Hz. by transitivity y.
Qed.

Lemma SliceStable_StronglySorted l :
  StronglySorted nameLe (sort.SliceStable byName l).
Proof.
  induction l as [|x l IH]; simpl; [constructor|]. by apply insert_StronglySorted.
Qed.

(** The sort is stable: the entries of one name keep their order. *)
Lemma insert_stable n x l :
  filter (λ m, manager.name m = n) (sort.insert byName x l)
  = filter (λ m, manager.name m = n) (x :: l).
Proof.
  induction l as [|y l IH]; simpl; [done|].
  destruct (String.ltb (manager.name y) (manager.name x)) eqn:Hyx; [|done].
  assert (manager.name y ≠ manager.name x) as Hne.
  { intros Heq. rewrite Heq in Hyx.
    by rewrite (proj2 (ltb_false_iff _ _) (or_intror eq_refl)) in Hyx. }
  rewrite (filter_cons _ y), IH, !filter_cons.
  repeat case_decide; congruence.
Qed.

Lemma SliceStable_stable n l :
  filter (λ m, manager.name m = n) (sort.SliceStable byName l)
  = filter (λ m, manager.name m = n) l.
Proof.
  induction l as [|x l IH]; simpl; [done|].
  by rewrite insert_stable, !filter_cons, IH.
Qed.

Lemma NoDup_fmap_eq {A B} (f : A → B) (l : list A) x y :
  NoDup (f <$> l) → x ∈ l → y ∈ l → f x = f y → x = y.
Proof.
  induction l as [|a l IH]; simpl; [by intros _ ?%elem_of_nil|].
  rewrite NoDup_cons, list_elem_of_fmap, !elem_of_cons.
  intros [Ha Hl] [->|Hx] [->|Hy] Hxy; auto.
  - destruct Ha. by exists y.
  - destruct Ha. by exists x.
Qed.

(** Sorting by name forgets the order of the input when no two entries
    share a name. *)
Lemma SliceStable_unique l1 l2 :
  l1 ≡ₚ l2 → NoDup (manager.name <$> l1) →
  sort.SliceStable byName l1 = sort.SliceStable byName l2.
Proof.
  intros Hperm Hnodup.
  apply (StronglySorted_unique_strong nameLe);
    [|apply SliceStable_StronglySorted..|by rewrite !SliceStable_Permutation].
  intros x1 x2. rewrite !SliceStable_Permutation, <- Hperm.
  intros Hx1 Hx2 H12 H21.
  eapply (NoDup_fmap_eq manager.name); eauto using nameLe_antisym.
Qed.

End Sorting.

(** ** The attribute evaluator *)

Section Attribute.

Import spec constraints.

Lemma append_nil_r (a : string) : a +:+ "" = a.
Proof.
  induction a as [|c a IH]; [done|].
  change (String c a +:+ "") with (String c (a +:+ "")). by rewrite IH.
Qed.

Lemma append_assoc (a b c : string) : (a +:+ b) +:+ c = a +:+ b +:+ c.
Proof.
  induction a as [|x a IH]; [done|].
  change (String x ((a +:+ b) +:+ c) = String x (a +:+ b +:+ c)). by rewrite IH.
Qed.

(** Every element of a joined list occurs in the result. *)
Lemma Join_Mentions elems sep elem :
  elem ∈ elems → Mentions (strings.Join elems sep) elem.
Proof.
  induction elems as [|x [|y elems] IH].
  - by intros ?%elem_of_nil.
  - intros ->%list_elem_of_singleton. exists "", "". simpl. by rewrite append_nil_r.
  - intros [->|Hin]%elem_of_cons.
    + exists "", (sep +:+ strings.Join (y :: elems) sep). done.
    + destruct (IH Hin) as (before & after & Heq).
      exists (x +:+ sep +:+ before), after.
      change (strings.Join (x :: y :: elems) sep)
        with (x +:+ sep +:+ strings.Join (y :: elems) sep).
      by rewrite Heq, !append_assoc.
Qed.

Lemma Mentions_refl s : Mentions s s.
Proof. exists "", "". cbv [String.append]. fold String.append. by rewrite append_nil_r. Qed.

Lemma Mentions_between before after whole part :
  Mentions whole part → Mentions (before +:+ whole +:+ after) part.
Proof.
  intros (b & a & ->). exists (before +:+ b), (a +:+ after).
  by rewrite !append_assoc.
Qed.

(** Every message is among the distinct ones, or was seen before. *)
Lemma distinct_elem_of seen msgs msg :
  msg ∈ msgs → msg ∈ seen ∨ msg ∈ utilerrors.distinct seen msgs.
Proof.
  revert seen. induction msgs as [|x msgs IH]; intros seen.
  { by intros ?%elem_of_nil. }
  cbn [utilerrors.distinct].
  intros [->|Hin]%elem_of_cons; destruct (decide (x ∈ seen)) as [Hx|Hx].
  - by left.
  - right. left.
  - by apply IH.
  - destruct (IH (x :: seen) Hin) as [[->|?]%elem_of_cons|?].
    + right. left.
    + by left.
    + right. by right.
Qed.

(** The message of an aggregate holds the message of each of its errors. *)
Lemma aggregate_Error_Mentions agg msg :
  msg ∈ agg → Mentions (utilerrors.aggregate_Error agg) msg.
Proof.
  intros Hin.
  assert (msg ∈ utilerrors.distinct [] agg) as Hdistinct.
  { destruct (distinct_elem_of [] agg msg Hin) as [?%elem_of_nil|?]; done. }
  destruct agg as [|x [|y agg]].
  - by apply elem_of_nil in Hin.
  - apply list_elem_of_singleton in Hin as ->. apply Mentions_refl.
  - unfold utilerrors.aggregate_Error.
    destruct (utilerrors.distinct [] (x :: y :: agg)) as [|m [|m' seenerrs]].
    + by apply elem_of_nil in Hdistinct.
    + apply list_elem_of_singleton in Hdistinct as ->. apply Mentions_refl.
    + by apply Mentions_between, Join_Mentions.
Qed.

Lemma collect_omap todo policy cr el :
  attribute.collect todo policy cr el
  = el ++ omap (λ a, attribute.violation a policy cr) todo.
Proof.
  revert el. induction todo as [|a todo IH]; intros el; simpl.
  { by rewrite app_nil_r. }
  destruct (attribute.violation a policy cr); rewrite IH; [|done].
  by rewrite <- app_assoc.
Qed.

Lemma attributes_complete a : a ∈ attribute.attributes.
Proof. destruct a; unfold attribute.attributes; set_solver. Qed.

Lemma Unconstrained_no_violation policy cr a :
  Unconstrained policy → attribute.violation a policy cr = None.
Proof.
  intros (Hcn & Hmin & Hdns & Hips & Huris & Hissuers & Hca & Hkey).
  destruct a; simpl;
    rewrite ?Hcn, ?Hmin, ?Hdns, ?Hips, ?Huris, ?Hissuers, ?Hca, ?Hkey; done.
Qed.

(** The tests of the evaluator decide the matching rules. *)
Lemma existsb_glob allowed v :
  existsb (λ pattern, internal.WildcardMatchs pattern v) allowed = true
  ↔ Exists (λ pattern, glob pattern v) allowed.
Proof.
  induction allowed as [|pattern allowed IH]; simpl.
  { split; [done|]. intros H. inv H. }
  by rewrite orb_true_iff, Exists_cons, IH, WildcardMatchs_glob.
Qed.

Lemma allMatch_Within allowed values :
  attribute.allMatch allowed values = true ↔ Within allowed values.
Proof.
  unfold attribute.allMatch, Within.
  induction values as [|v values IH]; simpl.
  { split; [constructor|done]. }
  by rewrite andb_true_iff, Forall_cons, IH, existsb_glob.
Qed.

Lemma issuerMatches_IssuerWithin allowed issRef :
  existsb (attribute.issuerMatches issRef) allowed = true ↔ IssuerWithin allowed issRef.
Proof.
  unfold IssuerWithin.
  induction allowed as [|a allowed IH]; simpl.
  { split; [done|]. intros H. inv H. }
  rewrite orb_true_iff, Exists_cons, IH. unfold attribute.issuerMatches.
  by rewrite !andb_true_iff, !WildcardMatchs_glob, (assoc and).
Qed.

#[global] Instance Within_dec allowed values : Decision (Within allowed values).
Proof. unfold Within. apply _. Defined.

#[global] Instance IssuerWithin_dec allowed issRef : Decision (IssuerWithin allowed issRef).
Proof. unfold IssuerWithin. apply _. Defined.

Lemma sequenceViolation_Some path allowed values e :
  attribute.sequenceViolation path allowed values = Some e ↔
  ∃ l, allowed = Some l ∧ ¬ Within l values
       ∧ e = field.Invalid path (field.VStrings values) (fmt.Sprint_strings l).
Proof.
  unfold attribute.sequenceViolation. destruct allowed as [l|].
  - destruct (attribute.allMatch l values) eqn:Hmatch.
    + apply allMatch_Within in Hmatch. split; [done|].
      intros (l' & ? & Hnot & _). by simplify_eq.
    + split.
      * intros ?. simplify_eq. exists l. split_and!; [done| |done].
        rewrite <- allMatch_Within. congruence.
      * intros (l' & ? & _ & ->). by simplify_eq.
  - split; [done|]. by intros (l' & ? & _).
Qed.

(** The evaluator finds a violation of an attribute exactly when the
    request violates the constraint on it, and reports it as said. *)
Lemma violation_Violation a policy cr e :
  attribute.violation a policy cr = Some e ↔ Violation policy cr a e.
Proof.
  split.
  - destruct a; cbn [attribute.violation].
    + destruct (cmpapi.AllowedCommonName policy) as [pattern|] eqn:Hallowed; [|done].
      destruct (internal.WildcardMatchs _ _) eqn:Hmatch; [done|].
      intros ?. simplify_eq. constructor; [done|].
      rewrite <- WildcardMatchs_glob. congruence.
    + destruct (cmpapi.MinDuration policy) as [min|] eqn:Hmin; [|done].
      destruct (cmapi.Duration _) as [d|] eqn:Hd; [|done].
      destruct (decide _); [|done]. intros ?. simplify_eq. by constructor.
    + intros (l & ? & ? & ->)%sequenceViolation_Some. by constructor.
    + intros (l & ? & ? & ->)%sequenceViolation_Some. by constructor.
    + intros (l & ? & ? & ->)%sequenceViolation_Some. by constructor.
    + destruct (cmpapi.AllowedIssuers policy) as [allowed|] eqn:Hallowed; [|done].
      destruct (existsb _ _) eqn:Hmatch; [done|].
      intros ?. simplify_eq. constructor; [done|].
      rewrite <- issuerMatches_IssuerWithin. congruence.
    + destruct (cmpapi.AllowedIsCA policy) as [allowed|] eqn:Hallowed; [|done].
      destruct (Bool.eqb _ _) eqn:Heqb; [done|].
      intros ?. simplify_eq. constructor; [done|].
      by apply Bool.eqb_false_iff.
    + destruct (cmpapi.AllowedPrivateKey policy) as [key|] eqn:Hkey; [|done].
      cbn [mbind option_bind].
      destruct (cmpapi.AllowedAlgorithm key) as [allowed|] eqn:Hallowed; [|done].
      destruct (decide _); [done|]. intros ?. simplify_eq. by econstructor.
    + destruct (cmpapi.AllowedPrivateKey policy) as [key|] eqn:Hkey; [|done].
      cbn [mbind option_bind].
      destruct (cmpapi.MinSize key) as [min|] eqn:Hmin; [|done].
      destruct (decide _); [|done]. intros ?. simplify_eq. by econstructor.
    + destruct (cmpapi.AllowedPrivateKey policy) as [key|] eqn:Hkey; [|done].
      cbn [mbind option_bind].
      destruct (cmpapi.MaxSize key) as [max|] eqn:Hmax; [|done].
      destruct (decide _); [|done]. intros ?. simplify_eq. by econstructor.
  - intros [pattern Hallowed Hnot|min d Hmin Hd Hlt|allowed Hallowed Hnot
           |allowed Hallowed Hnot|allowed Hallowed Hnot|allowed Hallowed Hnot
           |allowed Hallowed Hnot|key allowed Hkey Hallowed Hnot
           |key min Hkey Hmin Hlt|key max Hkey Hmax Hlt];
      cbn [attribute.violation].
    + rewrite Hallowed. destruct (internal.WildcardMatchs _ _) eqn:Hmatch; [|done].
      by apply WildcardMatchs_glob in Hmatch.
    + rewrite Hmin, Hd. by rewrite decide_True.
    + apply sequenceViolation_Some. by exists allowed.
    + apply sequenceViolation_Some. by exists allowed.
    + apply sequenceViolation_Some. by exists allowed.
    + rewrite Hallowed. destruct (existsb _ _) eqn:Hmatch; [|done].
      by apply issuerMatches_IssuerWithin in Hmatch.
    + rewrite Hallowed. destruct (Bool.eqb _ _) eqn:Heqb; [|done].
      by apply Bool.eqb_prop in Heqb.
    + rewrite Hkey. cbn [mbind option_bind]. rewrite Hallowed. by rewrite decide_False.
    + rewrite Hkey. cbn [mbind option_bind]. rewrite Hmin. by rewrite decide_True.
    + rewrite Hkey. cbn [mbind option_bind]. rewrite Hmax. by rewrite decide_True.
Qed.

Lemma violation_Satisfied a policy cr :
  attribute.violation a policy cr = None ↔ Satisfied policy cr a.
Proof.
  unfold Satisfied. split.
  - intros Hnone e He%violation_Violation. congruence.
  - intros Hnot. destruct (attribute.violation a policy cr) as [e|] eqn:He; [|done].
    apply violation_Violation in He. by apply Hnot in He.
Qed.

(** The report of the violations is the list the evaluator collects. *)
Lemma Report_omap policy cr todo el :
  Report policy cr todo el ↔ el = omap (λ a, attribute.violation a policy cr) todo.
Proof.
  split.
  - induction 1 as [|a e todo el Ha _ IH|a todo el Ha _ IH]; [done| |].
    + apply violation_Violation in Ha. cbn [omap list_omap]. by rewrite Ha, IH.
    + apply violation_Satisfied in Ha. cbn [omap list_omap]. by rewrite Ha, IH.
  - intros ->. induction todo as [|a todo IH]; [constructor|].
    cbn [omap list_omap].
    destruct (attribute.violation a policy cr) as [e|] eqn:Ha.
    + apply Report_violated; [by apply violation_Violation|done].
    + apply Report_satisfied; [by apply violation_Satisfied|done].
Qed.

End Attribute.

(** ** Sample requests, policies and collaborators *)

Module examples.

(** What [%q] prints for a string of printable ASCII characters with no
    quote and no backslash in it: the string between double quotes. *)
Definition quoted (name : string) : string :=
  String (ascii_of_nat 34) (name +:+ String (ascii_of_nat 34) "").

Definition csr : cmapi.CertificateSigningRequest :=
  {| cmapi.CommonName := "test";
     cmapi.DNSNames := [];
     cmapi.IPAddresses := [];
     cmapi.URIs := [];
     cmapi.KeyAlgorithm := cmapi.RSAKeyAlgorithm;
     cmapi.KeySize := 2048 |}.

Definition request : cmapi.CertificateRequest :=
  {| cmapi.Namespace := "default";
     cmapi.Spec := {|
       cmapi.Duration := None;
       cmapi.IssuerRef :=
         {| cmmeta.Name := "my-issuer"; cmmeta.Kind := "Issuer";
            cmmeta.Group := "cert-manager.io" |};
       cmapi.Request := csr;
       cmapi.IsCA := false;
       cmapi.Username := "alice";
       cmapi.UID := "1234";
       cmapi.Groups := ["system:authenticated"];
       cmapi.Extra := ∅ |} |}.

Definition noSelector : cmpapi.CertificateRequestPolicyIssuerRefSelector :=
  {| cmpapi.SelectorName := None; cmpapi.SelectorKind := None;
     cmpapi.SelectorGroup := None |}.

Definition noConstraints : cmpapi.CertificateRequestPolicySpec :=
  {| cmpapi.AllowedCommonName := None;
     cmpapi.MinDuration := None;
     cmpapi.AllowedDNSNames := None;
     cmpapi.AllowedIPAddresses := None;
     cmpapi.AllowedURIs := None;
     cmpapi.AllowedIssuers := None;
     cmpapi.AllowedIsCA := None;
     cmpapi.AllowedPrivateKey := None;
     cmpapi.IssuerRefSelector := noSelector |}.

Definition readyTrue : cmpapi.CertificateRequestPolicyCondition :=
  {| cmpapi.ConditionType := cmpapi.CertificateRequestPolicyConditionReady;
     cmpapi.ConditionStatus := corev1.ConditionTrue |}.

Definition policy (name : string)
    (conditions : list cmpapi.CertificateRequestPolicyCondition) :
    cmpapi.CertificateRequestPolicy :=
  {| cmpapi.Name := name;
     cmpapi.Spec := noConstraints;
     cmpapi.Status := {| cmpapi.Conditions := conditions |} |}.

(** A policy that was never reconciled: it has no condition at all. *)
Definition notReady : cmpapi.CertificateRequestPolicy := policy "not-ready" [].

(** A policy whose status lists the condition Ready=True twice. *)
Definition twiceReady : cmpapi.CertificateRequestPolicy :=
  policy "twice-ready" [readyTrue; readyTrue].

Definition policyA : cmpapi.CertificateRequestPolicy := policy "a" [readyTrue].
Definition policyB : cmpapi.CertificateRequestPolicy := policy "b" [readyTrue].

Definition withAllowed (allowed : bool) (rev : authzv1.SubjectAccessReview) :
    authzv1.SubjectAccessReview :=
  {| authzv1.Spec := authzv1.Spec rev;
     authzv1.Status := {| authzv1.Allowed := allowed |} |}.

Definition reviewedName (rev : authzv1.SubjectAccessReview) : string :=
  match authzv1.ResourceAttributes_ (authzv1.Spec rev) with
  | Some attributes => authzv1.Name attributes
  | None => ""
  end.

(** A store that lists [crps], with an oracle that allows every use. *)
Definition allowAll (crps : list cmpapi.CertificateRequestPolicy) : client.Client :=
  {| client.List := (crps, None);
     client.Create := λ rev, (withAllowed true rev, None) |}.

(** An oracle that allows the use of "a", refuses that of "b" and fails on
    any other policy. *)
Definition unavailable : error := errors.New "connection refused".

Definition picky (crps : list cmpapi.CertificateRequestPolicy) : client.Client :=
  {| client.List := (crps, None);
     client.Create := λ rev,
       if String.eqb (reviewedName rev) "a" then (withAllowed true rev, None)
       else if String.eqb (reviewedName rev) "b" then (withAllowed false rev, None)
       else (rev, Some unavailable) |}.

Definition approving : approver.Evaluator :=
  {| approver.Evaluate := λ _ _,
       ({| approver.Result := approver.ResultNotDenied; approver.Message := "" |}, None) |}.

Definition denying (message : string) : approver.Evaluator :=
  {| approver.Evaluate := λ _ _,
       ({| approver.Result := approver.ResultDenied; approver.Message := message |}, None) |}.

Definition broken : error := errors.New "evaluator is broken".

Definition failing : approver.Evaluator :=
  {| approver.Evaluate := λ _ _,
       ({| approver.Result := approver.ResultDenied; approver.Message := "" |},
        Some broken) |}.

(** An evaluator that fails on the policy "a" and approves any other. *)
Definition failingOnA : approver.Evaluator :=
  {| approver.Evaluate := λ crp _,
       if String.eqb (cmpapi.Name crp) "a"
       then ({| approver.Result := approver.ResultDenied; approver.Message := "" |},
             Some broken)
       else ({| approver.Result := approver.ResultNotDenied; approver.Message := "" |},
             None) |}.

(** The store lists "b" then "a"; every use is allowed; the one evaluator
    denies with the message "no". *)
Definition refusing : manager.subjectaccessreview :=
  manager.NewSubjectAccessReview (allowAll [policyB; policyA]) [denying "no"].

(** The store lists a policy that is not ready; its use is allowed and the
    one evaluator does not deny. *)
Definition lenient : manager.subjectaccessreview :=
  manager.NewSubjectAccessReview (allowAll [notReady]) [approving].

End examples.

Module scenarios.

Import examples.

(** The store lists nothing. *)
Definition empty : manager.subjectaccessreview :=
  manager.NewSubjectAccessReview (allowAll []) [approving].

(** The store lists "b" only, and the oracle refuses its use. *)
Definition unbound : manager.subjectaccessreview :=
  manager.NewSubjectAccessReview (picky [policyB]) [approving].

(** The store lists "a"; the one evaluator fails. *)
Definition faulty : manager.subjectaccessreview :=
  manager.NewSubjectAccessReview (allowAll [policyA]) [failing].

(** The store lists "a" then "b"; the evaluator fails on "a" and would
    approve "b". *)
Definition faultyFirst : manager.subjectaccessreview :=
  manager.NewSubjectAccessReview (allowAll [policyA; policyB]) [failingOnA].

(** The store lists a policy the oracle fails on. *)
Definition unreachable : manager.subjectaccessreview :=
  manager.NewSubjectAccessReview (picky [policyA; notReady; policyB]) [approving].

(** Two evaluators, the first of which denies. *)
Definition twoEvaluators : manager.subjectaccessreview :=
  manager.NewSubjectAccessReview (allowAll [policyA]) [denying "no"; approving].

(** Two policies of the same name, and an evaluator that denies with a
    message that tells them apart. *)
Definition first : cmpapi.CertificateRequestPolicy := policy "a" [].
Definition second : cmpapi.CertificateRequestPolicy := policy "a" [readyTrue].

Definition denyingByStatus : approver.Evaluator :=
  {| approver.Evaluate := λ crp _,
       ({| approver.Result := approver.ResultDenied;
           approver.Message :=
             match cmpapi.Conditions (cmpapi.Status crp) with
             | [] => "never reconciled"
             | _ :: _ => "reconciled"
             end |}, None) |}.

Definition sameName (crps : list cmpapi.CertificateRequestPolicy) :
    manager.subjectaccessreview :=
  manager.NewSubjectAccessReview (allowAll crps) [denyingByStatus].

(** The request and the policy of the second case of
    TestEvaluateCertificateRequest (durations in nanoseconds). *)
Definition hour : Z := 3600000000000.

Definition violatingRequest : cmapi.CertificateRequest :=
  {| cmapi.Namespace := "default";
     cmapi.Spec := {|
       cmapi.Duration := Some (100 * hour)%Z;
       cmapi.IssuerRef :=
         {| cmmeta.Name := "my-issuer"; cmmeta.Kind := "my-kind";
            cmmeta.Group := "my-group" |};
       cmapi.Request :=
         {| cmapi.CommonName := "test";
            cmapi.DNSNames := ["foo.bar"; "example.com"];
            cmapi.IPAddresses := ["1.2.3.4"];
            cmapi.URIs := ["hello.world"];
            cmapi.KeyAlgorithm := cmapi.RSAKeyAlgorithm;
            cmapi.KeySize := 2048 |};
       cmapi.IsCA := true;
       cmapi.Username := "alice";
       cmapi.UID := "1234";
       cmapi.Groups := [];
       cmapi.Extra := ∅ |} |}.

Definition strictPolicy : cmpapi.CertificateRequestPolicy :=
  {| cmpapi.Name := "strict";
     cmpapi.Spec := {|
       cmpapi.AllowedCommonName := Some "not-test";
       cmpapi.MinDuration := Some (200 * hour)%Z;
       cmpapi.AllowedDNSNames := Some ["not-foo.bar"];
       cmpapi.AllowedIPAddresses := Some ["5.6.7.8"];
       cmpapi.AllowedURIs := Some ["world.hello"];
       cmpapi.AllowedIssuers :=
         Some [{| cmmeta.Name := "not-my-issuer"; cmmeta.Kind := "not-my-kind";
                  cmmeta.Group := "not-my-group" |}];
       cmpapi.AllowedIsCA := Some false;
       cmpapi.AllowedPrivateKey :=
         Some {| cmpapi.AllowedAlgorithm := Some cmapi.ECDSAKeyAlgorithm;
                 cmpapi.MinSize := None; cmpapi.MaxSize := None |};
       cmpapi.IssuerRefSelector := noSelector |};
     cmpapi.Status := {| cmpapi.Conditions := [] |} |}.

End scenarios.

(** ** pkg/approver/attribute: TestEvaluateCertificateRequest *)

Module attribute_test.

Import examples scenarios.

(** [&cmpapi.CertificateRequestPolicy{Spec: test.policy}] *)
Definition policyOf (spec : cmpapi.CertificateRequestPolicySpec) :
    cmpapi.CertificateRequestPolicy :=
  {| cmpapi.Name := ""; cmpapi.Spec := spec;
     cmpapi.Status := {| cmpapi.Conditions := [] |} |}.

(** "any request with all fields nil shouldn't return error": the request
    has the common name "test" and the issuer "my-issuer". *)
Definition anyRequest : cmapi.CertificateRequest :=
  {| cmapi.Namespace := "";
     cmapi.Spec := {|
       cmapi.Duration := None;
       cmapi.IssuerRef :=
         {| cmmeta.Name := "my-issuer"; cmmeta.Kind := ""; cmmeta.Group := "" |};
       cmapi.Request :=
         {| cmapi.CommonName := "test";
            cmapi.DNSNames := [];
            cmapi.IPAddresses := [];
            cmapi.URIs := [];
            cmapi.KeyAlgorithm := cmapi.RSAKeyAlgorithm;
            cmapi.KeySize := 2048 |};
       cmapi.IsCA := false;
       cmapi.Username := "";
       cmapi.UID := "";
       cmapi.Groups := [];
       cmapi.Extra := ∅ |} |}.

Definition anyPolicy : cmpapi.CertificateRequestPolicySpec := noConstraints.

Definition anyResponse : approver.EvaluationResponse :=
  {| approver.Result := approver.ResultNotDenied; approver.Message := "" |}.

(** "violations should return errors": the request and the policy are
    [violatingRequest] and the specification of [strictPolicy]; the
    expected error list is that of the test, error for error. *)
Definition violations : field.ErrorList :=
  [ field.Invalid "spec.allowedCommonName" (field.VString "test") "not-test";
    field.Invalid "spec.minDuration" (field.VString "100h0m0s") "200h0m0s";
    field.Invalid "spec.allowedDNSNames"
      (field.VStrings ["foo.bar"; "example.com"]) "[not-foo.bar]";
    field.Invalid "spec.allowedIPAddresses" (field.VStrings ["1.2.3.4"]) "[5.6.7.8]";
    field.Invalid "spec.allowedURIs" (field.VStrings ["hello.world"]) "[world.hello]";
    field.Invalid "spec.allowedIssuers"
      (field.VObjectReference
         {| cmmeta.Name := "my-issuer"; cmmeta.Kind := "my-kind";
            cmmeta.Group := "my-group" |})
      "[{not-my-issuer not-my-kind not-my-group}]";
    field.Invalid "spec.allowedIsCA" (field.VBool true) "false";
    field.Invalid "spec.allowedPrivateKey.allowedAlgorithm"
      (field.VAlgorithm cmapi.RSAKeyAlgorithm) "ECDSA" ].

(** [field.ErrorList{...}.ToAggregate().Error()] *)
Definition violationsResponse (Sprintf_q : string → string) :
    approver.EvaluationResponse :=
  {| approver.Result := approver.ResultDenied;
     approver.Message :=
       utilerrors.aggregate_Error (utilerrors.ToAggregate Sprintf_q violations) |}.

(** The expected message, as the library prints it. *)
Definition violationsMessage : string :=
  "[spec.allowedCommonName: Invalid value: " +:+ quoted "test" +:+ ": not-test, "
  +:+ "spec.minDuration: Invalid value: " +:+ quoted "100h0m0s" +:+ ": 200h0m0s, "
  +:+ "spec.allowedDNSNames: Invalid value: []string{" +:+ quoted "foo.bar" +:+ ", "
  +:+ quoted "example.com" +:+ "}: [not-foo.bar], "
  +:+ "spec.allowedIPAddresses: Invalid value: []string{" +:+ quoted "1.2.3.4"
  +:+ "}: [5.6.7.8], "
  +:+ "spec.allowedURIs: Invalid value: []string{" +:+ quoted "hello.world"
  +:+ "}: [world.hello], "
  +:+ "spec.allowedIssuers: Invalid value: v1.ObjectReference{Name:"
  +:+ quoted "my-issuer" +:+ ", Kind:" +:+ quoted "my-kind" +:+ ", Group:"
  +:+ quoted "my-group" +:+ "}: [{not-my-issuer not-my-kind not-my-group}], "
  +:+ "spec.allowedIsCA: Invalid value: true: false, "
  +:+ "spec.allowedPrivateKey.allowedAlgorithm: Invalid value: " +:+ quoted "RSA"
  +:+ ": ECDSA]".

End attribute_test.

(** ** The definitions on sample inputs *)

Section Checks.

Import examples scenarios.

Example WildcardMatchs_samples :
  internal.WildcardMatchs "*" "anything" = true
  ∧ internal.WildcardMatchs "*" "" = true
  ∧ internal.WildcardMatchs "my-issuer" "my-issuer" = true
  ∧ internal.WildcardMatchs "my-issuer" "my-issuer-2" = false
  ∧ internal.WildcardMatchs "*.example.com" "www.example.com" = true
  ∧ internal.WildcardMatchs "a*c*e" "abcde" = true
  ∧ internal.WildcardMatchs "a*c*e" "abde" = false
  ∧ internal.WildcardMatchs "" "x" = false.
Proof. by vm_compute. Qed.

(** Entries of equal name keep their order. *)
Example SliceStable_sample :
  sort.SliceStable byName
    [ {| manager.name := "b"; manager.message := "1" |};
      {| manager.name := "a"; manager.message := "2" |};
      {| manager.name := "b"; manager.message := "3" |};
      {| manager.name := "a"; manager.message := "4" |} ]
  = [ {| manager.name := "a"; manager.message := "2" |};
      {| manager.name := "a"; manager.message := "4" |};
      {| manager.name := "b"; manager.message := "1" |};
      {| manager.name := "b"; manager.message := "3" |} ].
Proof. reflexivity. Qed.

Example Review_no_policy :
  manager.Review quoted empty request
  = ([ListCall [] None],
     ({| manager.Result := manager.ResultUnprocessed;
         manager.Message := "No CertificateRequestPolicies exist" |}, None)).
Proof. reflexivity. Qed.

Example Review_not_bound :
  manager.Review quoted unbound request
  = ([ListCall [policyB] None; CreateCall (spec.useReview request policyB) None],
     ({| manager.Result := manager.ResultUnprocessed;
         manager.Message := "No CertificateRequestPolicies bound or applicable" |},
      None)).
Proof. reflexivity. Qed.

Example Review_refusing :
  value (manager.Review quoted refusing request)
  = ({| manager.Result := manager.ResultDenied;
        manager.Message := "No policy approved this request: [a: no] [b: no]" |}, None).
Proof. reflexivity. Qed.

Example Review_two_evaluators :
  manager.Review quoted twoEvaluators request
  = ([ListCall [policyA] None; CreateCall (spec.useReview request policyA) None;
      spec.evaluateCall request policyA (denying "no");
      spec.evaluateCall request policyA approving],
     ({| manager.Result := manager.ResultDenied;
         manager.Message := "No policy approved this request: [a: no, ]" |}, None)).
Proof. reflexivity. Qed.

Example Review_check_fails :
  manager.Review quoted unreachable request
  = ([ListCall [policyA; notReady; policyB] None;
      CreateCall (spec.useReview request policyA) None;
      CreateCall (spec.useReview request notReady) (Some unavailable)],
     (manager.emptyReviewResponse,
      Some (errors.Errorf_w "failed to determine bound policies: "
              (errors.Errorf_w "failed to create subjectaccessreview: " unavailable)))).
Proof. reflexivity. Qed.

(** An evaluator error on the first candidate ends the review, although
    the second candidate satisfies the evaluator. *)
Example Review_evaluator_fails_first :
  value (manager.Review quoted faultyFirst request)
  = (manager.emptyReviewResponse, Some broken)
  ∧ spec.Satisfies (manager.evaluators faultyFirst) request policyB.
Proof. split; [reflexivity|]. by repeat constructor. Qed.

Example Duration_String_samples :
  time.String 0%Z = "0s"
  ∧ time.String (100 * hour)%Z = "100h0m0s"
  ∧ time.String (200 * hour)%Z = "200h0m0s"
  ∧ time.String 90000000000%Z = "1m30s"
  ∧ time.String 1500000000%Z = "1.5s"
  ∧ time.String 2000000%Z = "2ms"
  ∧ time.String 1500%Z = "1.5" +:+ time.micro +:+ "s"
  ∧ time.String 1%Z = "1ns"
  ∧ time.String (- hour)%Z = "-1h0m0s".
Proof. by vm_compute. Qed.

(** The two cases of TestEvaluateCertificateRequest: the evaluator returns
    the expected response and no error. *)
Example TestEvaluateCertificateRequest :
  attribute.Evaluate quoted (attribute_test.policyOf attribute_test.anyPolicy)
    attribute_test.anyRequest
  = (attribute_test.anyResponse, None)
  ∧ attribute.Evaluate quoted (attribute_test.policyOf (cmpapi.Spec strictPolicy))
      violatingRequest
    = (attribute_test.violationsResponse quoted, None)
  ∧ approver.Message (attribute_test.violationsResponse quoted)
    = attribute_test.violationsMessage.
Proof. by vm_compute. Qed.

(** Errors of one message are reported once; a single error is reported
    without brackets. *)
Example aggregate_Error_samples :
  utilerrors.aggregate_Error ["a: x"; "b: y"; "a: x"] = "[a: x, b: y]"
  ∧ utilerrors.aggregate_Error ["a: x"; "a: x"] = "a: x"
  ∧ utilerrors.aggregate_Error ["a: x"] = "a: x".
Proof. by vm_compute. Qed.

End Checks.

(** * The claims *)

Section Claims.

Import spec.

(** C10.  The private selection functions of the manager behave as the public
    predicates: [issuerRefSelector] returns the list [predicate.IssuerRefSelector]
    returns (which never fails and calls nothing), and [boundPolicies] makes
    the calls and returns the list and the error of the predicate that
    [predicate.RBACBound] builds from the client of the manager. *)
Theorem manager_selection_is_predicates
    (s : manager.subjectaccessreview) (cr : cmapi.CertificateRequest)
    (policies : list cmpapi.CertificateRequestPolicy) :
  predicate.IssuerRefSelector cr policies
    = ret (manager.issuerRefSelector cr policies, None)
  ∧ manager.boundPolicies s cr policies
    = predicate.RBACBound (manager.client s) cr policies.
Proof.
  split.
  - unfold predicate.IssuerRefSelector.
    by rewrite IssuerRefSelector_loop_filter, issuerRefSelector_filter.
  - apply boundPolicies_RBACBound.
Qed.

(** C8.  The issuer-reference selector keeps exactly the policies whose
    selector accepts the issuer reference of the request: each of the name,
    kind and group of the selector is unset or is a glob, in which '*'
    stands for any run of characters, for the corresponding field of the
    issuer reference.  The kept policies stay in their order. *)
Theorem IssuerRefSelector_keeps_selected
    (cr : cmapi.CertificateRequest) (policies : list cmpapi.CertificateRequestPolicy) :
  predicate.IssuerRefSelector cr policies = ret (filter (Selects cr) policies, None)
  ∧ manager.issuerRefSelector cr policies = filter (Selects cr) policies.
Proof.
  split.
  - unfold predicate.IssuerRefSelector. by rewrite IssuerRefSelector_loop_filter.
  - apply issuerRefSelector_filter.
Qed.

(** C7.  [Ready] appends a policy once for every condition of it that is
    Ready and True.  On a list of one policy whose status holds that
    condition twice it returns the policy twice, which is no sub-multiset of
    the list it was given. *)
Theorem Ready_repeats_policy :
  value (predicate.Ready examples.request [examples.twiceReady])
    = ([examples.twiceReady; examples.twiceReady], None)
  ∧ ¬ [examples.twiceReady; examples.twiceReady] ⊆+ [examples.twiceReady].
Proof.
  split; [reflexivity|].
  intros H%submseteq_length. simpl in H. lia.
Qed.

(** C6.  The RBAC-bound filter checks the candidates in order, one check
    each, for the use of the policy by the requester of the request
    ([useReview]).  When no check returns an error, every candidate is
    checked once and exactly the allowed ones are kept.  When the check of
    [crp] is the first to return an error, no candidate after [crp] is
    checked and the filter returns no policy and that error, wrapped.  The
    method of the manager does the same. *)
Theorem RBACBound_checks_each_candidate
    (c : client.Client) (cr : cmapi.CertificateRequest)
    (policies : list cmpapi.CertificateRequestPolicy) :
  (Forall (λ crp, checkError c cr crp = None) policies →
     predicate.RBACBound c cr policies
     = (checkCall c cr <$> policies, (filter (Allowed c cr) policies, None)))
  ∧ (∀ l1 crp l2 err,
       policies = l1 ++ crp :: l2 →
       Forall (λ crp, checkError c cr crp = None) l1 →
       checkError c cr crp = Some err →
       predicate.RBACBound c cr policies
       = (checkCall c cr <$> l1 ++ [crp],
          ([], Some (errors.Errorf_w "failed to create subjectaccessreview: " err))))
  ∧ (∀ s, manager.client s = c →
       manager.boundPolicies s cr policies = predicate.RBACBound c cr policies).
Proof.
  split_and!.
  - intros Hok. unfold predicate.RBACBound. by rewrite RBACBound_loop_ok.
  - intros l1 crp l2 err -> Hok Herr. by apply RBACBound_loop_err.
  - intros s <-. apply boundPolicies_RBACBound.
Qed.

Lemma RBACBound_checks_each_candidate_witness :
  predicate.RBACBound (examples.picky []) examples.request
    [examples.policyA; examples.policyB]
  = (checkCall (examples.picky []) examples.request
       <$> [examples.policyA; examples.policyB],
     ([examples.policyA], None))
  ∧ predicate.RBACBound (examples.picky []) examples.request
      [examples.policyA; examples.notReady; examples.policyB]
    = (checkCall (examples.picky []) examples.request
         <$> [examples.policyA; examples.notReady],
       ([], Some (errors.Errorf_w "failed to create subjectaccessreview: "
                    examples.unavailable))).
Proof.
  split.
  - apply (proj1 (RBACBound_checks_each_candidate
                    (examples.picky []) examples.request
                    [examples.policyA; examples.policyB])).
    repeat constructor.
  - apply (proj1 (proj2 (RBACBound_checks_each_candidate
                    (examples.picky []) examples.request
                    [examples.policyA; examples.notReady; examples.policyB]))
             [examples.policyA] examples.notReady [examples.policyB]
             examples.unavailable).
    + reflexivity.
    + repeat constructor.
    + reflexivity.
Defined.

(** Closes a case of Review in which the candidate set is said to be empty
    although a check failed or some policy is bound. *)
Ltac no_candidate :=
  match goal with
  | Hsplit : filter ?P ?crps = _ ++ _ :: _, Hok : Forall _ (filter ?P ?crps) |- _ =>
      rewrite Hsplit, Forall_app, Forall_cons in Hok;
      destruct Hok as (_ & Hok & _); cbv beta in Hok; congruence
  | Hsome : filter _ (filter _ []) ≠ [] |- _ =>
      rewrite !filter_nil in Hsome; by destruct Hsome
  | Hsplit : filter _ (filter _ []) = _ ++ _ :: _ |- _ =>
      rewrite !filter_nil in Hsplit; by apply app_cons_not_nil in Hsplit
  | Hsplit : filter _ [] = _ ++ _ :: _ |- _ =>
      rewrite filter_nil in Hsplit; by apply app_cons_not_nil in Hsplit
  | Hsome : ?l ≠ [], Hnil : [] = ?l |- _ => by destruct Hsome
  | Hsplit : ?l = _ ++ _ :: _, Hnil : [] = ?l |- _ =>
      rewrite Hsplit in Hnil; by apply app_cons_not_nil in Hnil
  end.

(** C2.  Review returns Unprocessed exactly when the candidate policy set
    of the request is empty.  When the store lists no policy the message
    says that none exist; when it lists some and none passes the selection
    the message says that none is bound or applicable. *)
Theorem Review_unprocessed_iff_no_candidate
    (Sprintf_q : string → string) (s : manager.subjectaccessreview)
    (cr : cmapi.CertificateRequest) :
  (manager.Result (value (manager.Review Sprintf_q s cr)).1 = manager.ResultUnprocessed
   ↔ Candidates s cr [])
  ∧ (client.List (manager.client s) = ([], None) →
     value (manager.Review Sprintf_q s cr)
     = ({| manager.Result := manager.ResultUnprocessed;
           manager.Message := "No CertificateRequestPolicies exist" |}, None))
  ∧ (∀ crps,
       client.List (manager.client s) = (crps, None) → crps ≠ [] →
       Candidates s cr [] →
       value (manager.Review Sprintf_q s cr)
       = ({| manager.Result := manager.ResultUnprocessed;
             manager.Message := "No CertificateRequestPolicies bound or applicable" |},
          None)).
Proof.
  pose proof (Review_Run Sprintf_q s cr) as Hrun.
  setoid_rewrite Candidates_filter.
  destruct Hrun as
    [crps err HList
    |HList
    |crps l1 crp l2 err HList Hcrps Hsplit Hl1 Herr
    |crps HList Hcrps Hok Hnone
    |crps bound HList Hok Hbound Hsome Hall
    |crps l1 crp l2 HList Hok Hbound Hl1 Hcrp
    |crps l1 crp l2 called err HList Hok Hbound Hl1 Hcrp];
    unfold value; cbn [fst snd manager.Result manager.emptyReviewResponse];
    rewrite HList.
  all: split; [split|split].
  (* the result is Unprocessed only if there is no candidate *)
  all: try (intros Hresult; discriminate Hresult).
  all: try (intros _; by eauto using eq_sym).
  (* with no candidate, the result is Unprocessed and the message fits *)
  all: try (intros (crps' & ? & Hok' & Hnil));
       try (intros crps' ? ? (crps'' & ? & Hok' & Hnil));
       try (intros ?);
       simplify_eq; try done.
  all: no_candidate.
Qed.

Lemma Review_unprocessed_iff_no_candidate_witness :
  value (manager.Review examples.quoted scenarios.empty examples.request)
  = ({| manager.Result := manager.ResultUnprocessed;
        manager.Message := "No CertificateRequestPolicies exist" |}, None)
  ∧ value (manager.Review examples.quoted scenarios.unbound examples.request)
    = ({| manager.Result := manager.ResultUnprocessed;
          manager.Message := "No CertificateRequestPolicies bound or applicable" |},
       None).
Proof.
  split.
  - apply (proj1 (proj2 (Review_unprocessed_iff_no_candidate
                           examples.quoted scenarios.empty examples.request))).
    reflexivity.
  - apply (proj2 (proj2 (Review_unprocessed_iff_no_candidate
                           examples.quoted scenarios.unbound examples.request))
             [examples.policyB]).
    + reflexivity.
    + discriminate.
    + exists [examples.policyB]. split; reflexivity.
Defined.

(** C1.  Review returns Approved exactly when some policy of the candidate
    set has had every registered evaluator return NotDenied for it in the
    run.  Review then stopped at the first candidate, in listing order, that
    every evaluator returns NotDenied for: the candidates before it were
    evaluated and not satisfied, those after it were not evaluated, and the
    message names it.  When no evaluator returns an error for a candidate,
    Approved is returned exactly when some candidate satisfies every
    evaluator. *)
Theorem Review_approved_iff_satisfied
    (Sprintf_q : string → string) (s : manager.subjectaccessreview)
    (cr : cmapi.CertificateRequest) :
  (manager.Result (value (manager.Review Sprintf_q s cr)).1 = manager.ResultApproved
   ↔ ∃ policies crp,
       Candidates s cr policies ∧ crp ∈ policies
       ∧ ∀ e, e ∈ manager.evaluators s →
           ∃ message,
             EvaluateCall e crp
               {| approver.Result := approver.ResultNotDenied;
                  approver.Message := message |} None
             ∈ trace (manager.Review Sprintf_q s cr))
  ∧ (manager.Result (value (manager.Review Sprintf_q s cr)).1 = manager.ResultApproved →
     ∃ crps l1 crp l2,
       client.List (manager.client s) = (crps, None)
       ∧ Candidates s cr (l1 ++ crp :: l2)
       ∧ Forall (λ x, ¬ Satisfies (manager.evaluators s) cr x) l1
       ∧ Satisfies (manager.evaluators s) cr crp
       ∧ value (manager.Review Sprintf_q s cr)
         = ({| manager.Result := manager.ResultApproved;
               manager.Message :=
                 "Approved by CertificateRequestPolicy: "
                 +:+ Sprintf_q (cmpapi.Name crp) |}, None)
       ∧ trace (manager.Review Sprintf_q s cr)
         = ListCall crps None
             :: (checkCall (manager.client s) cr <$> manager.issuerRefSelector cr crps)
             ++ evaluationTrace (manager.evaluators s) cr (l1 ++ [crp]))
  ∧ (∀ policies,
       Candidates s cr policies →
       Forall (λ crp, Forall (λ e, (approver.Evaluate e crp cr).2 = None)
                        (manager.evaluators s)) policies →
       (manager.Result (value (manager.Review Sprintf_q s cr)).1 = manager.ResultApproved
        ↔ Exists (Satisfies (manager.evaluators s) cr) policies)).
Proof.
  pose proof (Review_Run Sprintf_q s cr) as Hrun.
  split; [split|split].
  - (* Approved: the policy that approved had every evaluator called *)
    destruct Hrun as
      [| | | | |crps l1 crp l2 HList Hok Hbound Hl1 Hcrp|]; try done.
    intros _. exists (l1 ++ crp :: l2), crp. split_and!.
    + apply Candidates_filter. by exists crps.
    + rewrite elem_of_app, elem_of_cons. auto.
    + intros e He. exists (approver.Message (approver.Evaluate e crp cr).1).
      unfold trace. cbn [fst].
      rewrite app_comm_cons, elem_of_app, evaluationTrace_elem_of. right.
      eapply Forall_forall in Hcrp as [Herr Hresult]; [|done].
      split_and!; [|done| |done].
      * rewrite elem_of_app, list_elem_of_singleton. auto.
      * destruct (approver.Evaluate e crp cr).1. simpl in Hresult. by subst.
  - (* such a policy: the run cannot have ended otherwise *)
    intros (policies & crp & Hcand & Hin & Hcalls).
    assert (Satisfies (manager.evaluators s) cr crp) as Hsat.
    { apply Forall_forall. intros e He. destruct (Hcalls e He) as [message Hcall].
      apply (Run_EvaluateCall _ _ _ _ _ _ _ _ Hrun) in Hcall as (_ & Hr & Herr & _).
      unfold NotDenied. by rewrite <- Hr, <- Herr. }
    assert (∀ e, e ∈ manager.evaluators s →
              manager.Result (value (manager.Review Sprintf_q s cr)).1
              = manager.ResultApproved) as Hev.
    { intros e He. destruct (Hcalls e He) as [message Hcall].
      apply (Run_EvaluateCall _ _ _ _ _ _ _ _ Hrun) in Hcall
        as (_ & _ & _ & _ & [Href|[[_ ?]|(called & err & Hfails & _)]]); [|done|].
      - by apply Satisfies_not_Refuses in Hsat.
      - by apply Satisfies_not_Fails in Hfails. }
    clear Hcalls. apply Candidates_filter in Hcand as (crps' & HList' & Hok' & ->).
    destruct Hrun as
      [crps err HList
      |HList
      |crps l1 x l2 err HList Hcrps Hsplit Hl1 Herr
      |crps HList Hcrps Hok Hnone
      |crps bound HList Hok Hbound Hsome Hall
      |crps l1 x l2 HList Hok Hbound Hl1 Hx
      |crps l1 x l2 called err HList Hok Hbound Hl1 Hx];
      try done; rewrite HList in HList'; simplify_eq.
    + by rewrite !filter_nil in Hin; apply elem_of_nil in Hin.
    + no_candidate.
    + by rewrite Hnone in Hin; apply elem_of_nil in Hin.
    + eapply Forall_forall in Hall; [|exact Hin].
      by apply Satisfies_not_Refuses in Hsat.
    + destruct Hx as (before & e & after & Hevs & _). apply (Hev e).
      rewrite Hevs, elem_of_app, elem_of_cons. auto.
  - (* the first satisfied candidate, and nothing evaluated after it *)
    destruct Hrun as
      [| | | | |crps l1 crp l2 HList Hok Hbound Hl1 Hcrp|]; try done.
    intros _. exists crps, l1, crp, l2. split_and!; try done.
    + apply Candidates_filter. by exists crps.
    + eapply Forall_impl; [exact Hl1|]. intros x Hx Hsat.
      by apply Satisfies_not_Refuses in Hsat.
    + unfold trace. cbn [fst]. by rewrite issuerRefSelector_filter.
  - (* no evaluator error: the functional reading *)
    intros policies (crps' & HList' & Hok' & ->)%Candidates_filter Hnoerr.
    destruct Hrun as
      [crps err HList
      |HList
      |crps l1 x l2 err HList Hcrps Hsplit Hl1 Herr
      |crps HList Hcrps Hok Hnone
      |crps bound HList Hok Hbound Hsome Hall
      |crps l1 x l2 HList Hok Hbound Hl1 Hx
      |crps l1 x l2 called err HList Hok Hbound Hl1 Hx];
      rewrite HList in HList'; simplify_eq; unfold value; cbn [fst manager.Result].
    + rewrite !filter_nil. split; [done|]. by intros ?%Exists_nil.
    + no_candidate.
    + rewrite Hnone. split; [done|]. by intros ?%Exists_nil.
    + split; [done|]. rewrite Exists_exists. intros (x & Hin & Hsat).
      eapply Forall_forall in Hall; [|exact Hin].
      by apply Satisfies_not_Refuses in Hsat.
    + split; [intros _|done]. rewrite Hbound, Exists_app, Exists_cons. auto.
    + exfalso. rewrite Hbound, Forall_app, Forall_cons in Hnoerr.
      destruct Hnoerr as (_ & Hnoerr & _).
      destruct Hx as (before & e & after & Hevs & _ & He & _).
      rewrite Hevs, Forall_app, Forall_cons in Hnoerr.
      destruct Hnoerr as (_ & Hnoerr & _). congruence.
Qed.

Lemma Review_approved_iff_satisfied_witness :
  manager.Result
    (value (manager.Review examples.quoted examples.lenient examples.request)).1
  = manager.ResultApproved.
Proof.
  apply (proj2 (proj1 (Review_approved_iff_satisfied
                         examples.quoted examples.lenient examples.request))).
  exists [examples.notReady], examples.notReady. split_and!.
  - exists [examples.notReady]. split; reflexivity.
  - left.
  - intros e ->%list_elem_of_singleton. exists "". vm_compute. do 2 right. left.
Defined.

(** C5.  Whenever a call Review makes (the listing of the policies, an
    authorization check, an evaluator) returns an error, that call is the
    last one of the run and Review returns the empty response together with
    that error: unchanged for the listing and the evaluators, wrapped, with
    its cause kept, for a check.  Review returns no error of its own and
    never a decision beside an error.  On a policy for which no evaluator
    returns an error every evaluator is called, whatever the verdicts of the
    others. *)
Theorem Review_aborts_on_error
    (Sprintf_q : string → string) (s : manager.subjectaccessreview)
    (cr : cmapi.CertificateRequest) :
  (∀ ev err,
     ev ∈ trace (manager.Review Sprintf_q s cr) → event_error ev = Some err →
     (∃ before, trace (manager.Review Sprintf_q s cr) = before ++ [ev])
     ∧ value (manager.Review Sprintf_q s cr)
       = (manager.emptyReviewResponse, Some (ReviewError ev err))
     ∧ errors.Wraps err (ReviewError ev err))
  ∧ (∀ err',
       (value (manager.Review Sprintf_q s cr)).2 = Some err' →
       (value (manager.Review Sprintf_q s cr)).1 = manager.emptyReviewResponse
       ∧ ∃ ev err,
           ev ∈ trace (manager.Review Sprintf_q s cr)
           ∧ event_error ev = Some err ∧ err' = ReviewError ev err)
  ∧ (∀ e0 crp response err,
       EvaluateCall e0 crp response err ∈ trace (manager.Review Sprintf_q s cr) →
       Forall (λ e, (approver.Evaluate e crp cr).2 = None) (manager.evaluators s) →
       ∀ e, e ∈ manager.evaluators s →
         evaluateCall cr crp e ∈ trace (manager.Review Sprintf_q s cr)).
Proof.
  pose proof (Review_Run Sprintf_q s cr) as Hrun. split_and!.
  - intros ev err Hev Herr.
    destruct (Run_error_event _ _ _ _ _ _ Hrun Hev Herr) as [Hlast Hvalue].
    split_and!; [done..|].
    destruct ev; simpl; repeat constructor.
  - intros err' Herr'.
    destruct (Run_error_value _ _ _ _ _ Hrun Herr') as (ev & err & Hev & Herr & ->).
    destruct (Run_error_event _ _ _ _ _ _ Hrun Hev Herr) as [_ Hvalue].
    rewrite Hvalue. split; [done|]. by exists ev, err.
  - intros e0 crp response err Hev Hnoerr e He.
    by eapply Run_all_evaluators_called.
Qed.

Lemma Review_aborts_on_error_witness :
  (∃ before,
     trace (manager.Review examples.quoted scenarios.faulty examples.request)
     = before ++ [evaluateCall examples.request examples.policyA examples.failing])
  ∧ value (manager.Review examples.quoted scenarios.faulty examples.request)
    = (manager.emptyReviewResponse, Some examples.broken)
  ∧ errors.Wraps examples.broken examples.broken.
Proof.
  apply (proj1 (Review_aborts_on_error
                  examples.quoted scenarios.faulty examples.request)
           (evaluateCall examples.request examples.policyA examples.failing)
           examples.broken).
  - vm_compute. do 2 right. left.
  - reflexivity.
Defined.

(** Review on a list of refused candidates. *)
Lemma Review_refused Sprintf_q s cr policies :
  Candidates s cr policies → policies ≠ [] →
  Forall (Refuses (manager.evaluators s) cr) policies →
  value (manager.Review Sprintf_q s cr)
  = (manager.Review_denied (policyMessageOf (manager.evaluators s) cr <$> policies),
     None).
Proof.
  intros (crps' & HList' & Hok' & ->)%Candidates_filter Hsome' Hall'.
  destruct (Review_Run Sprintf_q s cr) as
    [crps err HList
    |HList
    |crps l1 x l2 err HList Hcrps Hsplit Hl1 Herr
    |crps HList Hcrps Hok Hnone
    |crps bound HList Hok Hbound Hsome Hall
    |crps l1 x l2 HList Hok Hbound Hl1 Hx
    |crps l1 x l2 called err HList Hok Hbound Hl1 Hx];
    rewrite HList in HList'; simplify_eq; unfold value; cbn [snd].
  all: try no_candidate; try done.
  - exfalso. rewrite Hbound, Forall_app, Forall_cons in Hall'.
    destruct Hall' as (_ & Hx' & _). by apply Satisfies_not_Refuses in Hx.
  - exfalso. rewrite Hbound, Forall_app, Forall_cons in Hall'.
    destruct Hall' as (_ & Hx' & _). by apply Refuses_not_Fails in Hx.
Qed.

(** C4, as the code has it.  When the candidate set is not empty and every
    candidate is refused (each evaluator returns a verdict for it, one of
    them Denied), Review returns Denied.  The message lists every candidate
    as a bracketed entry of its name and the joined messages of the
    evaluators; the entries are those of the candidates sorted by name, the
    entries of one name in their listing order.  When the names of the
    candidates are pairwise distinct, the store may list the same policies
    in any order: Review returns the same. *)
Theorem Review_denied_message
    (Sprintf_q : string → string) (s : manager.subjectaccessreview)
    (cr : cmapi.CertificateRequest)
    (policies : list cmpapi.CertificateRequestPolicy) :
  Candidates s cr policies → policies ≠ [] →
  Forall (Refuses (manager.evaluators s) cr) policies →
  ∃ entries,
    value (manager.Review Sprintf_q s cr)
    = ({| manager.Result := manager.ResultDenied;
          manager.Message :=
            "No policy approved this request: "
            +:+ strings.Join (bracket <$> entries) " " |}, None)
    ∧ entries ≡ₚ policyMessageOf (manager.evaluators s) cr <$> policies
    ∧ StronglySorted nameLe entries
    ∧ (∀ n, filter (λ m, manager.name m = n) entries
            = filter (λ m, manager.name m = n)
                (policyMessageOf (manager.evaluators s) cr <$> policies))
    ∧ (NoDup (cmpapi.Name <$> policies) →
       ∀ crps, crps ≡ₚ (client.List (manager.client s)).1 →
         value (manager.Review Sprintf_q (withList s crps) cr)
         = value (manager.Review Sprintf_q s cr)).
Proof.
  intros Hcand Hsome Hall.
  exists (sort.SliceStable byName
            (policyMessageOf (manager.evaluators s) cr <$> policies)).
  split_and!.
  - by rewrite (Review_refused _ s cr policies).
  - apply SliceStable_Permutation.
  - apply SliceStable_StronglySorted.
  - intros n. apply SliceStable_stable.
  - intros Hnodup crps' Hperm.
    rewrite (Review_refused _ s cr policies) by done.
    apply Candidates_filter in Hcand as (crps & HList & Hok & ->).
    rewrite HList in Hperm. simpl in Hperm.
    pose (bound' := filter (Allowed (manager.client s) cr) (filter (Selects cr) crps')).
    assert (bound' ≡ₚ filter (Allowed (manager.client s) cr) (filter (Selects cr) crps))
      as Hbound by (unfold bound'; by rewrite Hperm).
    rewrite (Review_refused _ (withList s crps') cr bound').
    + unfold manager.Review_denied. cbn [withList manager.evaluators].
      rewrite (SliceStable_unique
                 (policyMessageOf (manager.evaluators s) cr <$> bound')
                 (policyMessageOf (manager.evaluators s) cr
                    <$> filter (Allowed (manager.client s) cr)
                          (filter (Selects cr) crps))); [done| |].
      * by rewrite Hbound.
      * rewrite <- list_fmap_compose, Hbound. exact Hnodup.
    + apply Candidates_filter. exists crps'. split_and!; [done| |done].
      cbn [withList manager.client]. by rewrite Hperm.
    + intros Hnil. rewrite Hnil in Hbound. by apply Permutation_nil in Hbound.
    + cbn [withList manager.evaluators]. by rewrite Hbound.
Qed.

Lemma Review_denied_message_witness :
  ∃ entries,
    value (manager.Review examples.quoted examples.refusing examples.request)
    = ({| manager.Result := manager.ResultDenied;
          manager.Message :=
            "No policy approved this request: "
            +:+ strings.Join (bracket <$> entries) " " |}, None)
    ∧ entries
      ≡ₚ policyMessageOf (manager.evaluators examples.refusing) examples.request
           <$> [examples.policyB; examples.policyA]
    ∧ StronglySorted nameLe entries
    ∧ (∀ n, filter (λ m, manager.name m = n) entries
            = filter (λ m, manager.name m = n)
                (policyMessageOf (manager.evaluators examples.refusing) examples.request
                   <$> [examples.policyB; examples.policyA]))
    ∧ (NoDup (cmpapi.Name <$> [examples.policyB; examples.policyA]) →
       ∀ crps, crps ≡ₚ (client.List (manager.client examples.refusing)).1 →
         value (manager.Review examples.quoted (withList examples.refusing crps)
                  examples.request)
         = value (manager.Review examples.quoted examples.refusing examples.request)).
Proof.
  apply (Review_denied_message examples.quoted examples.refusing examples.request
           [examples.policyB; examples.policyA]).
  - exists [examples.policyB; examples.policyA]. split; reflexivity.
  - discriminate.
  - repeat constructor.
Defined.

(** C4, as the claim has it: not so.  A candidate that no evaluator
    satisfies makes Review return an error, not Denied, when an evaluator
    fails on it; and two candidates of the same name appear in the message
    in their listing order, so that two listings of the same policies give
    two messages. *)
Lemma Review_denied_message_depends_on_order :
  (Candidates scenarios.faulty examples.request [examples.policyA]
   ∧ ¬ Satisfies (manager.evaluators scenarios.faulty) examples.request examples.policyA
   ∧ value (manager.Review examples.quoted scenarios.faulty examples.request)
     = (manager.emptyReviewResponse, Some examples.broken))
  ∧ ([scenarios.first; scenarios.second] ≡ₚ [scenarios.second; scenarios.first]
     ∧ value (manager.Review examples.quoted
                (scenarios.sameName [scenarios.first; scenarios.second])
                examples.request)
       = ({| manager.Result := manager.ResultDenied;
             manager.Message :=
               "No policy approved this request: [a: never reconciled] [a: reconciled]" |},
          None)
     ∧ value (manager.Review examples.quoted
                (scenarios.sameName [scenarios.second; scenarios.first])
                examples.request)
       = ({| manager.Result := manager.ResultDenied;
             manager.Message :=
               "No policy approved this request: [a: reconciled] [a: never reconciled]" |},
          None)).
Proof.
  split; split_and!.
  - exists [examples.policyA]. split; reflexivity.
  - intros Hsat. apply Forall_inv in Hsat as [Herr _]. discriminate Herr.
  - reflexivity.
  - apply Permutation_swap.
  - reflexivity.
  - reflexivity.
Qed.

(** C3, as the code has it.  Review applies no readiness filter.  Its
    candidates are exactly the listed policies whose selector accepts the
    issuer of the request and that the requester may use, whatever their
    readiness; the authorization checks are made for the policies that pass
    the selector, and the evaluators are called on candidates only.
    [predicate.Ready], where it is applied, returns only policies of its
    input that have a condition Ready with status True. *)
Theorem Review_selects_by_issuer_and_RBAC_only
    (Sprintf_q : string → string) (s : manager.subjectaccessreview)
    (cr : cmapi.CertificateRequest) :
  (∀ policies crp,
     crp ∈ (value (predicate.Ready cr policies)).1 ↔ crp ∈ policies ∧ IsReady crp)
  ∧ (∀ crps policies crp,
       client.List (manager.client s) = (crps, None) →
       Candidates s cr policies →
       (crp ∈ policies ↔ crp ∈ crps ∧ Selects cr crp ∧ Allowed (manager.client s) cr crp))
  ∧ (∀ rev err,
       CreateCall rev err ∈ trace (manager.Review Sprintf_q s cr) →
       ∃ crps crp,
         client.List (manager.client s) = (crps, None)
         ∧ crp ∈ crps ∧ Selects cr crp ∧ rev = useReview cr crp)
  ∧ (∀ e crp response err,
       EvaluateCall e crp response err ∈ trace (manager.Review Sprintf_q s cr) →
       ∃ crps,
         client.List (manager.client s) = (crps, None)
         ∧ crp ∈ crps ∧ Selects cr crp ∧ Allowed (manager.client s) cr crp).
Proof.
  pose proof (Review_Run Sprintf_q s cr) as Hrun. split_and!.
  - intros policies crp. apply Ready_elem_of.
  - intros crps policies crp HList (crps' & HList' & _ & ->)%Candidates_filter.
    rewrite HList in HList'. simplify_eq. rewrite !list_elem_of_filter. tauto.
  - intros rev err Hev.
    destruct (Run_CreateCall _ _ _ _ _ _ Hrun Hev)
      as (crps & crp & HList & [Hsel Hcrp]%list_elem_of_filter & ->).
    by exists crps, crp.
  - intros e crp response err Hev.
    destruct (Run_EvaluateCall _ _ _ _ _ _ _ _ Hrun Hev)
      as (_ & _ & _ & (crps & HList & Hcrp) & _).
    apply list_elem_of_filter in Hcrp as [Hallowed [Hsel Hcrp]%list_elem_of_filter].
    by exists crps.
Qed.

Lemma Review_selects_by_issuer_and_RBAC_only_witness :
  ∃ crps,
    client.List (manager.client examples.lenient) = (crps, None)
    ∧ examples.notReady ∈ crps
    ∧ Selects examples.request examples.notReady
    ∧ Allowed (manager.client examples.lenient) examples.request examples.notReady.
Proof.
  apply (proj2 (proj2 (proj2 (Review_selects_by_issuer_and_RBAC_only
                                examples.quoted examples.lenient examples.request)))
           examples.approving examples.notReady
           {| approver.Result := approver.ResultNotDenied; approver.Message := "" |}
           None).
  vm_compute. do 2 right. left.
Defined.

(** C3, as the claim has it: not so.  A policy with no condition at all,
    whose selector accepts the request and that the requester may use, is
    dropped by [predicate.Ready], yet Review calls the evaluator on it and
    approves the request by it. *)
Lemma Review_evaluates_not_ready_policy :
  ¬ IsReady examples.notReady
  ∧ Selects examples.request examples.notReady
  ∧ Allowed (manager.client examples.lenient) examples.request examples.notReady
  ∧ value (predicate.Ready examples.request [examples.notReady]) = ([], None)
  ∧ evaluateCall examples.request examples.notReady examples.approving
    ∈ trace (manager.Review examples.quoted examples.lenient examples.request)
  ∧ value (manager.Review examples.quoted examples.lenient examples.request)
    = ({| manager.Result := manager.ResultApproved;
          manager.Message :=
            "Approved by CertificateRequestPolicy: " +:+ examples.quoted "not-ready" |},
       None).
Proof.
  split_and!.
  - intros (condition & Hin & _). by apply elem_of_nil in Hin.
  - by repeat split.
  - reflexivity.
  - reflexivity.
  - vm_compute. do 2 right. left.
  - reflexivity.
Qed.

(** C9.  The attribute evaluator returns no error.  Its response is that
    of the report of the violations: for every request and policy there is
    one report, which lists, attribute after attribute in a fixed order,
    the error of each attribute whose constraint the request violates, and
    the evaluator returns NotDenied with the empty message when the report
    is empty, and otherwise Denied with the one message of the aggregate of
    all the reported errors.  So for a policy that sets no constraint the
    response is NotDenied with the empty message; and when a constraint is
    violated the result is Denied and the message holds, for every
    violated attribute and not only the first, its entry: the field path,
    the offending value of the request and what the policy allows. *)
Theorem attribute_Evaluate_reports_every_violation
    (Sprintf_q : string → string)
    (policy : cmpapi.CertificateRequestPolicy) (cr : cmapi.CertificateRequest) :
  (∀ el,
     constraints.Report (cmpapi.Spec policy) cr constraints.order el →
     attribute.Evaluate Sprintf_q policy cr = (constraints.response Sprintf_q el, None))
  ∧ (∃ el, constraints.Report (cmpapi.Spec policy) cr constraints.order el)
  ∧ (Unconstrained (cmpapi.Spec policy) →
     attribute.Evaluate Sprintf_q policy cr
     = ({| approver.Result := approver.ResultNotDenied; approver.Message := "" |}, None))
  ∧ (∀ a e,
       constraints.Violation (cmpapi.Spec policy) cr a e →
       approver.Result (attribute.Evaluate Sprintf_q policy cr).1 = approver.ResultDenied
       ∧ Mentions (approver.Message (attribute.Evaluate Sprintf_q policy cr).1)
           (field.Error_Error Sprintf_q e))
  ∧ (approver.Result (attribute.Evaluate Sprintf_q policy cr).1 = approver.ResultDenied →
     ∃ a e, constraints.Violation (cmpapi.Spec policy) cr a e).
Proof.
  unfold attribute.Evaluate. rewrite collect_omap. cbn [app].
  change attribute.attributes with constraints.order.
  set (el0 := omap (λ a, attribute.violation a (cmpapi.Spec policy) cr)
                constraints.order).
  assert (∀ a e, constraints.Violation (cmpapi.Spec policy) cr a e → e ∈ el0) as Hel.
  { intros a e Ha%violation_Violation. apply list_elem_of_omap. exists a.
    split; [apply attributes_complete|done]. }
  split_and!.
  - intros el Hreport%Report_omap. fold el0 in Hreport. subst el.
    destruct el0; [by rewrite decide_True|by rewrite decide_False].
  - exists el0. by apply Report_omap.
  - intros Hnone. rewrite decide_True; [done|].
    unfold el0. clear Hel el0.
    induction constraints.order as [|a l IH]; [done|]. simpl.
    by rewrite Unconstrained_no_violation.
  - intros a e Ha. apply Hel in Ha.
    rewrite decide_False by (by destruct el0; [apply elem_of_nil in Ha|]).
    split; [done|]. cbn [fst approver.Message].
    apply aggregate_Error_Mentions. unfold utilerrors.ToAggregate.
    destruct (distinct_elem_of [] (field.Error_Error Sprintf_q <$> el0)
                (field.Error_Error Sprintf_q e)) as [?%elem_of_nil|?]; [|done..].
    apply list_elem_of_fmap. by exists e.
  - destruct (decide (length el0 = 0)) as [|Hlen]; [done|]. intros _.
    destruct el0 as [|e el'] eqn:Heq; [done|].
    assert (e ∈ el0) as He by (subst el0; rewrite Heq; left).
    apply list_elem_of_omap in He as (a & _ & Ha%violation_Violation).
    by exists a, e.
Qed.

Lemma attribute_Evaluate_reports_every_violation_witness :
  attribute.Evaluate examples.quoted
    (attribute_test.policyOf (cmpapi.Spec scenarios.strictPolicy))
    scenarios.violatingRequest
  = ({| approver.Result := approver.ResultDenied;
        approver.Message := attribute_test.violationsMessage |}, None)
  ∧ attribute.Evaluate examples.quoted
      (attribute_test.policyOf attribute_test.anyPolicy) attribute_test.anyRequest
    = (attribute_test.anyResponse, None).
Proof.
  split.
  - refine (eq_trans
              (proj1 (attribute_Evaluate_reports_every_violation examples.quoted
                        (attribute_test.policyOf (cmpapi.Spec scenarios.strictPolicy))
                        scenarios.violatingRequest)
                 attribute_test.violations _) _); [|by vm_compute].
    apply constraints.Report_violated.
    { refine (constraints.CommonNameViolation _ _ "not-test" _ _); [done|].
      apply (bool_decide_unpack _). by vm_compute. }
    apply constraints.Report_violated.
    { refine (constraints.MinDurationViolation _ _
                (200 * scenarios.hour)%Z (100 * scenarios.hour)%Z _ _ _); done. }
    apply constraints.Report_violated.
    { refine (constraints.DNSNamesViolation _ _ ["not-foo.bar"] _ _); [done|].
      apply (bool_decide_unpack _). by vm_compute. }
    apply constraints.Report_violated.
    { refine (constraints.IPAddressesViolation _ _ ["5.6.7.8"] _ _); [done|].
      apply (bool_decide_unpack _). by vm_compute. }
    apply constraints.Report_violated.
    { refine (constraints.URIsViolation _ _ ["world.hello"] _ _); [done|].
      apply (bool_decide_unpack _). by vm_compute. }
    apply constraints.Report_violated.
    { refine (constraints.IssuersViolation _ _
                [{| cmmeta.Name := "not-my-issuer"; cmmeta.Kind := "not-my-kind";
                    cmmeta.Group := "not-my-group" |}] _ _); [done|].
      apply (bool_decide_unpack _). by vm_compute. }
    apply constraints.Report_violated.
    { refine (constraints.IsCAViolation _ _ false _ _); done. }
    apply constraints.Report_violated.
    { refine (constraints.KeyAlgorithmViolation _ _
                {| cmpapi.AllowedAlgorithm := Some cmapi.ECDSAKeyAlgorithm;
                   cmpapi.MinSize := None; cmpapi.MaxSize := None |}
                cmapi.ECDSAKeyAlgorithm _ _ _); done. }
    apply constraints.Report_satisfied.
    { intros e He. inversion He. by simplify_eq/=. }
    apply constraints.Report_satisfied.
    { intros e He. inversion He. by simplify_eq/=. }
    apply constraints.Report_nil.
  - apply (proj1 (proj2 (proj2 (attribute_Evaluate_reports_every_violation
                                  examples.quoted
                                  (attribute_test.policyOf attribute_test.anyPolicy)
                                  attribute_test.anyRequest)))).
    repeat split.
Defined.

End Claims.

(** * Further properties of the predicates and of Review *)

Module selection.

(** The number of times the inner loop of [predicate.Ready] appends [crp]:
    the conditions of its status that are Ready and True. *)
Definition readyConditions (crp : cmpapi.CertificateRequestPolicy) : nat :=
  length (List.filter predicate.isReadyTrue (cmpapi.Conditions (cmpapi.Status crp))).

(** What the selection reads of a request: its issuer reference, its
    namespace and its requester. *)
Definition sameSubject (cr cr' : cmapi.CertificateRequest) : Prop :=
  cmapi.IssuerRef (cmapi.Spec cr) = cmapi.IssuerRef (cmapi.Spec cr')
  ∧ cmapi.Namespace cr = cmapi.Namespace cr'
  ∧ cmapi.Username (cmapi.Spec cr) = cmapi.Username (cmapi.Spec cr')
  ∧ cmapi.Groups (cmapi.Spec cr) = cmapi.Groups (cmapi.Spec cr')
  ∧ cmapi.UID (cmapi.Spec cr) = cmapi.UID (cmapi.Spec cr')
  ∧ cmapi.Extra (cmapi.Spec cr) = cmapi.Extra (cmapi.Spec cr').

End selection.

Module oracle.

Local Open Scope traced_scope.

(** An authorization oracle that need not answer a review the same way
    each time it is asked: [Create o n rev] is what the create of [rev]
    returns when [n] reviews were created before it in the run. *)
Record Oracle : Type := {
  Create : nat → authzv1.SubjectAccessReview →
           authzv1.SubjectAccessReview * option error;
}.

Definition call_Create (o : Oracle) (n : nat) (rev : authzv1.SubjectAccessReview) :
    Traced (authzv1.SubjectAccessReview * option error) :=
  let '(rev', err) := Create o n rev in
  ([CreateCall rev err], (rev', err)).

(** The loop of [predicate.RBACBound] over such an oracle; [n] counts the
    reviews created so far. *)
Fixpoint RBACBound_loop (o : Oracle) (cr : cmapi.CertificateRequest)
    (extra : gmap string (list string)) (n : nat)
    (policies boundPolicies : list cmpapi.CertificateRequestPolicy) :
    Traced (list cmpapi.CertificateRequestPolicy * option error) :=
  match policies with
  | [] => ret (boundPolicies, None)
  | crp :: policies' =>
      let* (rev, err) := call_Create o n (predicate.newSubjectAccessReview cr extra crp) in
      match err with
      | Some err =>
          ret ([], Some (errors.Errorf_w "failed to create subjectaccessreview: " err))
      | None =>
          if authzv1.Allowed (authzv1.Status rev)
          then RBACBound_loop o cr extra (S n) policies' (boundPolicies ++ [crp])
          else RBACBound_loop o cr extra (S n) policies' boundPolicies
      end
  end.

Definition RBACBound (o : Oracle) : predicate.Predicate := λ cr policies,
  let extra := predicate.copyExtra (cmapi.Extra (cmapi.Spec cr)) in
  RBACBound_loop o cr extra 0 policies [].

(** The oracle of a client whose answer is a function of the review. *)
Definition constant (c : client.Client) : Oracle :=
  {| Create := λ _, client.Create c |}.

(** The oracle allows the use of [crp] at the call number [n]. *)
Definition AllowedAt (o : Oracle) (cr : cmapi.CertificateRequest)
    (extra : gmap string (list string)) (n : nat)
    (crp : cmpapi.CertificateRequestPolicy) : Prop :=
  authzv1.Allowed
    (authzv1.Status (Create o n (predicate.newSubjectAccessReview cr extra crp)).1)
  = true.

End oracle.

Module samples.

Import examples.

(** The store lists "b" then "a", every use is allowed and no evaluator is
    registered. *)
Definition noEvaluators : manager.subjectaccessreview :=
  manager.NewSubjectAccessReview (allowAll [policyB; policyA]) [].

(** The request of the same requester to the same issuer, for a CA
    certificate of another name and duration. *)
Definition renewal : cmapi.CertificateRequest :=
  {| cmapi.Namespace := "default";
     cmapi.Spec := {|
       cmapi.Duration := Some scenarios.hour;
       cmapi.IssuerRef :=
         {| cmmeta.Name := "my-issuer"; cmmeta.Kind := "Issuer";
            cmmeta.Group := "cert-manager.io" |};
       cmapi.Request :=
         {| cmapi.CommonName := "renewed";
            cmapi.DNSNames := ["example.com"];
            cmapi.IPAddresses := [];
            cmapi.URIs := [];
            cmapi.KeyAlgorithm := cmapi.ECDSAKeyAlgorithm;
            cmapi.KeySize := 256 |};
       cmapi.IsCA := true;
       cmapi.Username := "alice";
       cmapi.UID := "1234";
       cmapi.Groups := ["system:authenticated"];
       cmapi.Extra := ∅ |} |}.

(** A ready policy that constrains nothing and whose selector sets the
    group of the issuer only. *)
Definition forGroup (name group : string) : cmpapi.CertificateRequestPolicy :=
  {| cmpapi.Name := name;
     cmpapi.Spec := {|
       cmpapi.AllowedCommonName := None;
       cmpapi.MinDuration := None;
       cmpapi.AllowedDNSNames := None;
       cmpapi.AllowedIPAddresses := None;
       cmpapi.AllowedURIs := None;
       cmpapi.AllowedIssuers := None;
       cmpapi.AllowedIsCA := None;
       cmpapi.AllowedPrivateKey := None;
       cmpapi.IssuerRefSelector :=
         {| cmpapi.SelectorName := None; cmpapi.SelectorKind := None;
            cmpapi.SelectorGroup := Some group |} |};
     cmpapi.Status := {| cmpapi.Conditions := [readyTrue] |} |}.

(** An oracle that allows every second use, whatever the review; and one
    that does so except for the policies named "a", whose use it always
    allows. *)
Definition byTurns : oracle.Oracle :=
  {| oracle.Create := λ n rev, (withAllowed (Nat.even n) rev, None) |}.

Definition byTurnsButA : oracle.Oracle :=
  {| oracle.Create := λ n rev,
       if String.eqb (reviewedName rev) "a" then (withAllowed true rev, None)
       else (withAllowed (Nat.even n) rev, None) |}.

End samples.

(** ** Composition of the predicates *)

Section Composition.

Import spec selection.

#[global] Instance IsReady_dec crp : Decision (IsReady crp).
Proof.
  refine (cast_if (decide (0 < readyConditions crp)));
    unfold readyConditions in *; by rewrite <- isReadyTrue_IsReady.
Defined.

Lemma filter_replicate {A} (P : A → Prop) `{!∀ x, Decision (P x)} (n : nat) (x : A) :
  filter P (replicate n x) = if decide (P x) then replicate n x else [].
Proof.
  induction n as [|n IH]; simpl.
  { rewrite filter_nil. by destruct (decide (P x)). }
  rewrite filter_cons, IH. by destruct (decide (P x)).
Qed.

Lemma filter_bind_replicate {A} (P : A → Prop) `{!∀ x, Decision (P x)}
    (n : A → nat) (l : list A) :
  filter P (l ≫= λ x, replicate (n x) x) = filter P l ≫= λ x, replicate (n x) x.
Proof.
  induction l as [|a l IH].
  { by rewrite filter_nil. }
  rewrite bind_cons, filter_app, filter_replicate, filter_cons, IH.
  destruct (decide (P a)); [by rewrite bind_cons|done].
Qed.

Lemma filter_comm {A} (P Q : A → Prop) `{!∀ x, Decision (P x), !∀ x, Decision (Q x)}
    (l : list A) :
  filter P (filter Q l) = filter Q (filter P l).
Proof.
  rewrite !list_filter_filter. apply list_filter_iff. intuition.
Qed.

Lemma filter_idemp {A} (P : A → Prop) `{!∀ x, Decision (P x)} (l : list A) :
  filter P (filter P l) = filter P l.
Proof. by apply list_filter_filter_l. Qed.

Lemma Forall_filter_weaken {A} (P Q : A → Prop) `{!∀ x, Decision (Q x)} (l : list A) :
  Forall P l → Forall P (filter Q l).
Proof.
  rewrite !Forall_forall. intros Hall x [_ Hx]%list_elem_of_filter. auto.
Qed.

(** X1.  [Ready] never fails and calls no collaborator.  It goes through
    the policies in order and returns each of them once for every condition
    of its status that is Ready and True: a policy with no such condition is
    left out, whatever the request. *)
Theorem Ready_returns_policy_per_ready_condition
    (cr : cmapi.CertificateRequest) (policies : list cmpapi.CertificateRequestPolicy) :
  predicate.Ready cr policies
  = ret (policies ≫= (λ crp, replicate (readyConditions crp) crp), None).
Proof. unfold predicate.Ready. by rewrite Ready_loop_bind. Qed.

(** X2.  When no policy of the list holds the condition Ready=True more than
    once, [Ready] returns exactly the ready policies of the list, each once
    and in the order of the list. *)
Theorem Ready_filters_policies_ready_once
    (cr : cmapi.CertificateRequest) (policies : list cmpapi.CertificateRequestPolicy) :
  Forall (λ crp, readyConditions crp ≤ 1) policies →
  predicate.Ready cr policies = ret (filter IsReady policies, None).
Proof.
  intros Honce. unfold predicate.Ready. rewrite Ready_loop_bind. cbn [app].
  do 2 f_equal.
  induction Honce as [|crp policies Hcrp _ IH].
  { by rewrite filter_nil. }
  rewrite bind_cons, filter_cons, IH.
  pose proof (isReadyTrue_IsReady crp) as Hready. unfold readyConditions in Hcrp.
  destruct (decide (IsReady crp)) as [Hyes|Hno].
  - apply Hready in Hyes.
    destruct (length _) as [|[|n]]; [lia|done|lia].
  - destruct (length _) as [|n]; [done|]. destruct Hno. apply Hready. lia.
Qed.

Lemma Ready_filters_policies_ready_once_witness :
  predicate.Ready examples.request
    [examples.policyA; examples.notReady; examples.policyB]
  = ret (filter IsReady [examples.policyA; examples.notReady; examples.policyB], None).
Proof.
  apply (Ready_filters_policies_ready_once examples.request
           [examples.policyA; examples.notReady; examples.policyB]).
  repeat (constructor; [vm_compute; lia|]). constructor.
Defined.

(** X3.  The two local predicates compose freely.  Applying
    [IssuerRefSelector] twice is applying it once; both predicates treat a
    concatenation part by part; and applying [Ready] after
    [IssuerRefSelector] returns what applying them the other way round
    returns. *)
Theorem local_predicates_compose
    (cr : cmapi.CertificateRequest)
    (policies policies' : list cmpapi.CertificateRequestPolicy) :
  (value (predicate.IssuerRefSelector cr
            (value (predicate.IssuerRefSelector cr policies)).1)).1
  = (value (predicate.IssuerRefSelector cr policies)).1
  ∧ (value (predicate.IssuerRefSelector cr (policies ++ policies'))).1
    = (value (predicate.IssuerRefSelector cr policies)).1
      ++ (value (predicate.IssuerRefSelector cr policies')).1
  ∧ (value (predicate.Ready cr (policies ++ policies'))).1
    = (value (predicate.Ready cr policies)).1
      ++ (value (predicate.Ready cr policies')).1
  ∧ (value (predicate.Ready cr (value (predicate.IssuerRefSelector cr policies)).1)).1
    = (value (predicate.IssuerRefSelector cr (value (predicate.Ready cr policies)).1)).1.
Proof.
  unfold predicate.IssuerRefSelector, predicate.Ready, value, ret. cbn [fst snd].
  rewrite !IssuerRefSelector_loop_filter, !Ready_loop_bind. cbn [app].
  split_and!.
  - apply filter_idemp.
  - apply filter_app.
  - apply bind_app.
  - symmetry. apply filter_bind_replicate.
Qed.

(** X4.  [IssuerRefSelector] and [RBACBound], and the two private functions
    of the manager, return a sublist of the list they are given: they add
    no policy, repeat none and keep the order.  So the candidates of Review
    are a sublist of the policies the store lists. *)
Theorem selection_returns_sublist
    (s : manager.subjectaccessreview) (c : client.Client)
    (cr : cmapi.CertificateRequest) (policies : list cmpapi.CertificateRequestPolicy) :
  (value (predicate.IssuerRefSelector cr policies)).1 `sublist_of` policies
  ∧ (value (predicate.RBACBound c cr policies)).1 `sublist_of` policies
  ∧ manager.issuerRefSelector cr policies `sublist_of` policies
  ∧ (value (manager.boundPolicies s cr policies)).1 `sublist_of` policies
  ∧ (∀ candidates,
       client.List (manager.client s) = (policies, None) →
       Candidates s cr candidates → candidates `sublist_of` policies).
Proof.
  split_and!.
  - apply IssuerRefSelector_sublist.
  - apply RBACBound_sublist.
  - rewrite issuerRefSelector_filter. apply sublist_filter.
  - rewrite boundPolicies_RBACBound. apply RBACBound_sublist.
  - intros candidates HList (crps & HList' & Hbound).
    rewrite HList in HList'. simplify_eq.
    transitivity (manager.issuerRefSelector cr crps).
    + rewrite boundPolicies_RBACBound in Hbound.
      pose proof (RBACBound_sublist (manager.client s) cr
                    (manager.issuerRefSelector cr crps)) as Hsub.
      by rewrite Hbound in Hsub.
    + rewrite issuerRefSelector_filter. apply sublist_filter.
Qed.

(** X5.  When no authorization check returns an error for a policy of the
    list, the RBAC-bound filter and the issuer-reference selector return
    the same policies in either order; selecting first, as Review does,
    issues no more checks than checking first. *)
Theorem RBACBound_commutes_with_selector
    (c : client.Client) (cr : cmapi.CertificateRequest)
    (policies : list cmpapi.CertificateRequestPolicy) :
  Forall (λ crp, checkError c cr crp = None) policies →
  value (predicate.RBACBound c cr (value (predicate.IssuerRefSelector cr policies)).1)
  = ((value (predicate.IssuerRefSelector cr
               (value (predicate.RBACBound c cr policies)).1)).1, None)
  ∧ length (trace (predicate.RBACBound c cr
                     (value (predicate.IssuerRefSelector cr policies)).1))
    ≤ length (trace (predicate.RBACBound c cr policies)).
Proof.
  intros Hok.
  unfold predicate.IssuerRefSelector, predicate.RBACBound, value, trace, ret.
  cbn [fst snd]. rewrite !IssuerRefSelector_loop_filter. cbn [app].
  rewrite !RBACBound_loop_ok by (done || by apply Forall_filter_weaken).
  cbn [fst snd app].
  split.
  - f_equal. apply filter_comm.
  - rewrite !length_fmap. apply length_filter.
Qed.

Lemma RBACBound_commutes_with_selector_witness :
  value (predicate.RBACBound (examples.picky []) examples.request
           (value (predicate.IssuerRefSelector examples.request
                     [samples.forGroup "a" "cert-manager.io";
                      samples.forGroup "b" "*";
                      samples.forGroup "a" "example.org"])).1)
  = ((value (predicate.IssuerRefSelector examples.request
               (value (predicate.RBACBound (examples.picky []) examples.request
                         [samples.forGroup "a" "cert-manager.io";
                          samples.forGroup "b" "*";
                          samples.forGroup "a" "example.org"])).1)).1, None)
  ∧ length (trace (predicate.RBACBound (examples.picky []) examples.request
                     (value (predicate.IssuerRefSelector examples.request
                               [samples.forGroup "a" "cert-manager.io";
                                samples.forGroup "b" "*";
                                samples.forGroup "a" "example.org"])).1))
    ≤ length (trace (predicate.RBACBound (examples.picky []) examples.request
                       [samples.forGroup "a" "cert-manager.io";
                        samples.forGroup "b" "*";
                        samples.forGroup "a" "example.org"])).
Proof.
  apply (RBACBound_commutes_with_selector (examples.picky []) examples.request
           [samples.forGroup "a" "cert-manager.io";
            samples.forGroup "b" "*";
            samples.forGroup "a" "example.org"]).
  repeat constructor.
Defined.

(** What the loop over an oracle keeps, when it returns no error: the
    policies that the oracle allows at their call. *)
Lemma oracle_RBACBound_loop_kept o cr extra policies :
  ∀ n boundPolicies kept,
    value (oracle.RBACBound_loop o cr extra n policies boundPolicies) = (kept, None) →
    ∀ x, x ∈ kept ↔
         x ∈ boundPolicies
         ∨ ∃ i, policies !! i = Some x ∧ oracle.AllowedAt o cr extra (n + i) x.
Proof.
  induction policies as [|crp policies IH]; intros n acc kept.
  { intros Heq x. cbn in Heq. simplify_eq. split; [by left|].
    by intros [?|(i & ? & _)]. }
  cbn [oracle.RBACBound_loop]. unfold oracle.call_Create, oracle.AllowedAt.
  destruct (oracle.Create o n (predicate.newSubjectAccessReview cr extra crp))
    as [rev [err|]] eqn:Hcreate; [done|].
  unfold bind.
  destruct (authzv1.Allowed (authzv1.Status rev)) eqn:Hallowed.
  - destruct (oracle.RBACBound_loop o cr extra (S n) policies (acc ++ [crp]))
      as [t v] eqn:Hloop.
    unfold value. cbn [snd]. intros ->. intros x.
    rewrite (IH (S n) (acc ++ [crp]) kept) by (by rewrite Hloop).
    rewrite elem_of_app, list_elem_of_singleton. split.
    + intros [[?| ->]|(i & Hi & Hx)]; [by left| |].
      * right. exists 0. rewrite Nat.add_0_r, Hcreate. done.
      * right. exists (S i). by rewrite Nat.add_succ_r.
    + intros [?|([|i] & Hi & Hx)]; [by left; left| |].
      * left; right. cbn in Hi. congruence.
      * right. exists i. by rewrite Nat.add_succ_r in Hx.
  - destruct (oracle.RBACBound_loop o cr extra (S n) policies acc) as [t v] eqn:Hloop.
    unfold value. cbn [snd]. intros ->. intros x.
    rewrite (IH (S n) acc kept) by (by rewrite Hloop). split.
    + intros [?|(i & Hi & Hx)]; [by left|].
      right. exists (S i). by rewrite Nat.add_succ_r.
    + intros [?|([|i] & Hi & Hx)]; [by left| |].
      * cbn in Hi. simplify_eq. rewrite Nat.add_0_r, Hcreate in Hx.
        cbn in Hx. congruence.
      * right. exists i. by rewrite Nat.add_succ_r in Hx.
Qed.

(** With an error the loop keeps nothing. *)
Lemma oracle_RBACBound_loop_error o cr extra policies :
  ∀ n boundPolicies kept err,
    value (oracle.RBACBound_loop o cr extra n policies boundPolicies) = (kept, Some err) →
    kept = [].
Proof.
  induction policies as [|crp policies IH]; intros n acc kept err; [done|].
  cbn [oracle.RBACBound_loop]. unfold oracle.call_Create.
  destruct (oracle.Create o n _) as [rev [e|]]; unfold bind.
  { intros Heq. cbn in Heq. by simplify_eq. }
  destruct (authzv1.Allowed (authzv1.Status rev)).
  - destruct (oracle.RBACBound_loop o cr extra (S n) policies (acc ++ [crp]))
      as [t v] eqn:Hloop.
    unfold value. cbn [snd]. intros ->. eapply (IH (S n)). by rewrite Hloop.
  - destruct (oracle.RBACBound_loop o cr extra (S n) policies acc) as [t v] eqn:Hloop.
    unfold value. cbn [snd]. intros ->. eapply (IH (S n)). by rewrite Hloop.
Qed.

(** Over the oracle of a client the loop is that of [predicate.RBACBound]. *)
Lemma oracle_RBACBound_constant c cr policies :
  oracle.RBACBound (oracle.constant c) cr policies = predicate.RBACBound c cr policies.
Proof.
  unfold oracle.RBACBound, predicate.RBACBound.
  generalize (predicate.copyExtra (cmapi.Extra (cmapi.Spec cr))) as extra.
  intros extra. generalize 0 as n. generalize (@nil cmpapi.CertificateRequestPolicy).
  induction policies as [|crp policies IH]; intros acc n; [done|].
  cbn [oracle.RBACBound_loop predicate.RBACBound_loop].
  unfold oracle.call_Create, call_Create. cbn [oracle.constant oracle.Create].
  destruct (client.Create c _) as [rev [err|]]; [done|]. unfold bind.
  destruct (authzv1.Allowed _); by rewrite IH.
Qed.

(** X6.  The authorization check reads of a policy its name only: two
    policies of the same name are checked by the same review.  So, for an
    oracle that answers this review the same way whenever it is asked in
    the run (it may answer other reviews by the number of checks made
    before), two policies of that name in the list given to [RBACBound]
    are both kept or both left out.  [predicate.RBACBound] is the filter
    over the oracle of its client, which answers by the review alone. *)
Theorem RBACBound_decides_by_name
    (o : oracle.Oracle) (cr : cmapi.CertificateRequest)
    (policies : list cmpapi.CertificateRequestPolicy)
    (crp crp' : cmpapi.CertificateRequestPolicy) :
  cmpapi.Name crp = cmpapi.Name crp' →
  (∀ n m, oracle.Create o n (useReview cr crp) = oracle.Create o m (useReview cr crp)) →
  crp ∈ policies → crp' ∈ policies →
  (∀ extra, predicate.newSubjectAccessReview cr extra crp
            = predicate.newSubjectAccessReview cr extra crp')
  ∧ (crp ∈ (value (oracle.RBACBound o cr policies)).1
     ↔ crp' ∈ (value (oracle.RBACBound o cr policies)).1)
  ∧ (∀ c, oracle.RBACBound (oracle.constant c) cr policies
          = predicate.RBACBound c cr policies).
Proof.
  intros Hname Hsame Hcrp Hcrp'.
  assert (∀ extra, predicate.newSubjectAccessReview cr extra crp
                   = predicate.newSubjectAccessReview cr extra crp') as Hreview.
  { intros extra. unfold predicate.newSubjectAccessReview. by rewrite Hname. }
  split_and!; [done| |intros c; apply oracle_RBACBound_constant].
  unfold oracle.RBACBound.
  set (extra := predicate.copyExtra (cmapi.Extra (cmapi.Spec cr))).
  assert (∀ n x, x = crp ∨ x = crp' →
            (oracle.AllowedAt o cr extra n x ↔ oracle.AllowedAt o cr extra 0 crp))
    as Hat.
  { intros n x Hx. unfold oracle.AllowedAt, extra.
    rewrite (newSubjectAccessReview_useReview cr crp).
    assert (predicate.newSubjectAccessReview cr
              (predicate.copyExtra (cmapi.Extra (cmapi.Spec cr))) x
            = useReview cr crp) as ->.
    { destruct Hx as [->| ->]; [|rewrite <- Hreview];
        apply newSubjectAccessReview_useReview. }
    by rewrite (Hsame n 0). }
  destruct (value (oracle.RBACBound_loop o cr extra 0 policies [])) as [kept [err|]]
    eqn:Hloop.
  - apply oracle_RBACBound_loop_error in Hloop as ->. cbn [fst].
    split; intros H; inv H.
  - cbn [fst].
    rewrite !(oracle_RBACBound_loop_kept o cr extra policies 0 [] kept Hloop).
    apply list_elem_of_lookup in Hcrp as [i Hi].
    apply list_elem_of_lookup in Hcrp' as [j Hj].
    split; intros [?%elem_of_nil|(k & Hk & Hallowed)]; try done; right.
    + exists j. split; [done|]. apply Hat; [by right|].
      by apply (Hat (0 + k) crp); [left|].
    + exists i. split; [done|]. apply Hat; [by left|].
      by apply (Hat (0 + k) crp'); [right|].
Qed.

Lemma RBACBound_decides_by_name_witness :
  (∀ extra, predicate.newSubjectAccessReview examples.request extra scenarios.first
            = predicate.newSubjectAccessReview examples.request extra scenarios.second)
  ∧ (scenarios.first
       ∈ (value (oracle.RBACBound samples.byTurnsButA examples.request
                   [examples.policyB; scenarios.first; examples.policyB;
                    scenarios.second])).1
     ↔ scenarios.second
       ∈ (value (oracle.RBACBound samples.byTurnsButA examples.request
                   [examples.policyB; scenarios.first; examples.policyB;
                    scenarios.second])).1)
  ∧ (∀ c, oracle.RBACBound (oracle.constant c) examples.request
            [examples.policyB; scenarios.first; examples.policyB; scenarios.second]
          = predicate.RBACBound c examples.request
              [examples.policyB; scenarios.first; examples.policyB; scenarios.second]).
Proof.
  apply (RBACBound_decides_by_name samples.byTurnsButA examples.request
           [examples.policyB; scenarios.first; examples.policyB; scenarios.second]
           scenarios.first scenarios.second).
  - reflexivity.
  - intros n m. reflexivity.
  - apply list_elem_of_further, list_elem_of_here.
  - do 3 apply list_elem_of_further. apply list_elem_of_here.
Defined.

(** An oracle that answers by turns keeps one of two policies of the same
    name; the one that always allows the name "a" keeps both. *)
Example RBACBound_oracle_by_turns :
  value (oracle.RBACBound samples.byTurns examples.request
           [scenarios.first; scenarios.second])
  = ([scenarios.first], None)
  ∧ value (oracle.RBACBound samples.byTurnsButA examples.request
             [scenarios.first; examples.policyB; scenarios.second])
    = ([scenarios.first; scenarios.second], None).
Proof. split; reflexivity. Qed.

Lemma Selects_sameSubject cr cr' crp :
  sameSubject cr cr' → Selects cr crp ↔ Selects cr' crp.
Proof. intros (Hissuer & _). unfold Selects. by rewrite Hissuer. Qed.

Lemma useReview_sameSubject cr cr' crp :
  sameSubject cr cr' → useReview cr crp = useReview cr' crp.
Proof.
  intros (_ & Hns & Huser & Hgroups & Huid & Hextra). unfold useReview.
  by rewrite Hns, Huser, Hgroups, Huid, Hextra.
Qed.

Lemma RBACBound_sameSubject c cr cr' policies :
  sameSubject cr cr' →
  predicate.RBACBound c cr policies = predicate.RBACBound c cr' policies.
Proof.
  intros Hsame.
  assert (∀ crp, checkError c cr crp = checkError c cr' crp) as Herror.
  { intros crp. unfold checkError. by rewrite (useReview_sameSubject cr cr'). }
  assert (∀ crp, checkCall c cr crp = checkCall c cr' crp) as Hcall.
  { intros crp. unfold checkCall. by rewrite Herror, (useReview_sameSubject cr cr'). }
  assert (∀ crp, Allowed c cr crp ↔ Allowed c cr' crp) as Hallowed.
  { intros crp. unfold Allowed. by rewrite (useReview_sameSubject cr cr'). }
  destruct (RBACBound_outcome c cr policies)
    as [[Hok ->]|(l1 & x & l2 & err & -> & Hok & Herr & ->)].
  - unfold predicate.RBACBound. rewrite RBACBound_loop_ok.
    + cbn [app]. f_equal; [by apply list_fmap_ext|].
      f_equal. by apply list_filter_iff.
    + eapply Forall_impl; [exact Hok|]. intros crp. cbv beta. by rewrite Herror.
  - unfold predicate.RBACBound. rewrite (RBACBound_loop_err c cr' l1 x l2 err).
    + f_equal. by apply list_fmap_ext.
    + eapply Forall_impl; [exact Hok|]. intros crp. cbv beta. by rewrite Herror.
    + by rewrite <- Herror.
Qed.

(** X7.  The selection reads of the request its issuer reference, its
    namespace and its requester (user name, groups, UID, extra) only.  Two
    requests that agree on these get the same policies from
    [IssuerRefSelector], the same checks, policies and error from
    [RBACBound], and so the same candidates in Review, whatever
    certificate they ask for. *)
Theorem selection_reads_issuer_and_requester
    (s : manager.subjectaccessreview) (c : client.Client)
    (cr cr' : cmapi.CertificateRequest)
    (policies : list cmpapi.CertificateRequestPolicy) :
  sameSubject cr cr' →
  predicate.IssuerRefSelector cr policies = predicate.IssuerRefSelector cr' policies
  ∧ predicate.RBACBound c cr policies = predicate.RBACBound c cr' policies
  ∧ (Candidates s cr policies ↔ Candidates s cr' policies).
Proof.
  intros Hsame.
  assert (∀ l : list cmpapi.CertificateRequestPolicy,
            filter (Selects cr) l = filter (Selects cr') l) as Hfilter.
  { intros l. apply list_filter_iff. intros crp. by apply Selects_sameSubject. }
  split_and!.
  - unfold predicate.IssuerRefSelector.
    by rewrite !IssuerRefSelector_loop_filter, Hfilter.
  - by apply RBACBound_sameSubject.
  - unfold Candidates. setoid_rewrite issuerRefSelector_filter.
    setoid_rewrite boundPolicies_RBACBound. setoid_rewrite Hfilter.
    by setoid_rewrite (RBACBound_sameSubject (manager.client s) cr cr').
Qed.

Lemma selection_reads_issuer_and_requester_witness :
  predicate.IssuerRefSelector examples.request [examples.policyB; examples.policyA]
  = predicate.IssuerRefSelector samples.renewal [examples.policyB; examples.policyA]
  ∧ predicate.RBACBound (examples.picky []) examples.request
      [examples.policyB; examples.policyA]
    = predicate.RBACBound (examples.picky []) samples.renewal
        [examples.policyB; examples.policyA]
  ∧ (Candidates examples.refusing examples.request [examples.policyB; examples.policyA]
     ↔ Candidates examples.refusing samples.renewal
         [examples.policyB; examples.policyA]).
Proof.
  apply (selection_reads_issuer_and_requester examples.refusing (examples.picky [])
           examples.request samples.renewal [examples.policyB; examples.policyA]).
  repeat split.
Defined.

End Composition.

(** ** The shape of the runs of Review *)

Section Schedule.

Import spec runs selection.

(** Review on a request that has candidates: the listing, the checks, then
    the loop over the candidates. *)
Lemma Review_of_candidates Sprintf_q s cr crps :
  client.List (manager.client s) = (crps, None) →
  Forall (λ x, checkError (manager.client s) cr x = None) (filter (Selects cr) crps) →
  filter (Allowed (manager.client s) cr) (filter (Selects cr) crps) ≠ [] →
  manager.Review Sprintf_q s cr
  = (ListCall crps None :: (checkCall (manager.client s) cr <$> filter (Selects cr) crps)
       ++ trace (manager.Review_policies Sprintf_q s cr
                   (filter (Allowed (manager.client s) cr) (filter (Selects cr) crps)) []),
     value (manager.Review_policies Sprintf_q s cr
              (filter (Allowed (manager.client s) cr) (filter (Selects cr) crps)) [])).
Proof.
  intros HList Hok Hsome. unfold manager.Review, call_List. rewrite HList.
  unfold bind at 1.
  destruct (decide (length crps = 0)) as [Hlen|Hlen].
  { apply nil_length_inv in Hlen. subst crps. rewrite !filter_nil in Hsome. done. }
  rewrite issuerRefSelector_filter, boundPolicies_RBACBound.
  destruct (RBACBound_outcome (manager.client s) cr (filter (Selects cr) crps))
    as [[_ ->]|(l1 & crp & l2 & err & Hsplit & _ & Herr & _)].
  2: { rewrite Hsplit, Forall_app, Forall_cons in Hok.
       destruct Hok as (_ & Hcrp & _). congruence. }
  unfold bind.
  destruct (decide (length _ = 0)) as [Hnone|_].
  { by apply nil_length_inv in Hnone. }
  by destruct (manager.Review_policies _ _ _ _ _) as [t v].
Qed.

Lemma Satisfies_subseteq evaluators evaluators' cr crp :
  evaluators' ⊆ evaluators →
  Satisfies evaluators cr crp → Satisfies evaluators' cr crp.
Proof. unfold Satisfies. rewrite !Forall_forall. auto. Qed.

Lemma Refuses_subseteq evaluators evaluators' cr crp :
  evaluators' ⊆ evaluators →
  Refuses evaluators cr crp →
  Satisfies evaluators' cr crp ∨ Refuses evaluators' cr crp.
Proof.
  intros Hsub [Hok _].
  destruct (policy_outcome evaluators' cr crp)
    as [?|[?|(called & err & before & e & after & -> & _ & Herr & _)]]; auto.
  rewrite Forall_forall in Hok. rewrite Hok in Herr; [done|].
  apply Hsub. rewrite elem_of_app, elem_of_cons. auto.
Qed.

(** With fewer evaluators the first satisfied candidate comes no later. *)
Lemma first_satisfied_subseteq evaluators evaluators' cr l1 crp l2 :
  evaluators' ⊆ evaluators →
  Forall (Refuses evaluators cr) l1 →
  Satisfies evaluators cr crp →
  ∃ l1' crp' l2',
    l1 ++ crp :: l2 = l1' ++ crp' :: l2'
    ∧ Forall (Refuses evaluators' cr) l1'
    ∧ Satisfies evaluators' cr crp'.
Proof.
  intros Hsub Hl1 Hcrp. induction Hl1 as [|x l1 Hx _ IH].
  { exists [], crp, l2. split_and!; [done|constructor|by eapply Satisfies_subseteq]. }
  destruct (Refuses_subseteq _ _ _ _ Hsub Hx) as [Hsat|Href].
  - exists [], x, (l1 ++ crp :: l2). split_and!; [done|constructor|done].
  - destruct IH as (l1' & crp' & l2' & Heq & Hl1' & Hcrp').
    exists (x :: l1'), crp', l2'.
    split_and!; [simpl; by f_equal|by constructor|done].
Qed.

(** X8.  Review returns a decision exactly when it returns no error: with
    an error the response is the empty one, and without an error the result
    is Approved, Denied or Unprocessed. *)
Theorem Review_decides_or_fails
    (Sprintf_q : string → string) (s : manager.subjectaccessreview)
    (cr : cmapi.CertificateRequest) :
  ((value (manager.Review Sprintf_q s cr)).2 = None
   ↔ manager.Result (value (manager.Review Sprintf_q s cr)).1 ≠ manager.ResultNone)
  ∧ ((value (manager.Review Sprintf_q s cr)).2 ≠ None
     ↔ (value (manager.Review Sprintf_q s cr)).1 = manager.emptyReviewResponse).
Proof.
  destruct (Review_Run Sprintf_q s cr); unfold value; cbn [fst snd];
    split; split; try done; intros H; try (by destruct H); discriminate.
Qed.

(** X9.  The calls of a run of Review come in three phases: the listing,
    once and first; then the authorization checks, an initial segment of
    the checks of the policies that pass the issuer-reference selector, in
    their order; then the evaluator calls, an initial segment of the calls
    of every evaluator, in registration order, on each allowed policy in
    turn.  No check is made when the listing fails, and an evaluator is
    called only after every check has been made. *)
Theorem Review_calls_in_phases
    (Sprintf_q : string → string) (s : manager.subjectaccessreview)
    (cr : cmapi.CertificateRequest) :
  ∃ crps err checks evaluations,
    client.List (manager.client s) = (crps, err)
    ∧ trace (manager.Review Sprintf_q s cr) = ListCall crps err :: checks ++ evaluations
    ∧ checks `prefix_of`
        (checkCall (manager.client s) cr <$> manager.issuerRefSelector cr crps)
    ∧ evaluations `prefix_of`
        evaluationTrace (manager.evaluators s) cr
          (filter (Allowed (manager.client s) cr) (manager.issuerRefSelector cr crps))
    ∧ (err ≠ None → checks = [])
    ∧ (evaluations ≠ [] →
       checks = checkCall (manager.client s) cr <$> manager.issuerRefSelector cr crps)
    ∧ length checks ≤ length crps.
Proof.
  destruct (Review_Run Sprintf_q s cr) as
    [crps err HList
    |HList
    |crps l1 x l2 err HList Hcrps Hsplit Hl1 Herr
    |crps HList Hcrps Hok Hnone
    |crps bound HList Hok Hbound Hsome Hall
    |crps l1 x l2 HList Hok Hbound Hl1 Hx
    |crps l1 x l2 called err HList Hok Hbound Hl1 Hx]; unfold trace; cbn [fst].
  - exists crps, (Some err), [], []. rewrite issuerRefSelector_filter.
    split_and!; try done; try apply prefix_nil. simpl. lia.
  - exists [], None, [], [].
    split_and!; try done; try apply prefix_nil.
  - exists crps, None, (checkCall (manager.client s) cr <$> l1 ++ [x]), [].
    rewrite issuerRefSelector_filter, Hsplit, app_nil_r.
    split_and!; try done; try apply prefix_nil.
    + exists (checkCall (manager.client s) cr <$> l2).
      by rewrite <- fmap_app, <- app_assoc.
    + rewrite length_fmap.
      pose proof (length_filter (Selects cr) crps) as Hlen.
      rewrite Hsplit, !length_app in Hlen. rewrite length_app. simpl in *. lia.
  - exists crps, None, (checkCall (manager.client s) cr <$> filter (Selects cr) crps), [].
    rewrite issuerRefSelector_filter, app_nil_r.
    split_and!; try done; try apply prefix_nil.
    rewrite length_fmap. apply length_filter.
  - exists crps, None, (checkCall (manager.client s) cr <$> filter (Selects cr) crps),
      (evaluationTrace (manager.evaluators s) cr bound).
    rewrite issuerRefSelector_filter, Hbound.
    split_and!; try done.
    rewrite length_fmap. apply length_filter.
  - exists crps, None, (checkCall (manager.client s) cr <$> filter (Selects cr) crps),
      (evaluationTrace (manager.evaluators s) cr (l1 ++ [x])).
    rewrite issuerRefSelector_filter, Hbound.
    split_and!; try done.
    + exists (evaluationTrace (manager.evaluators s) cr l2).
      by rewrite <- evaluationTrace_app, <- app_assoc.
    + rewrite length_fmap. apply length_filter.
  - exists crps, None, (checkCall (manager.client s) cr <$> filter (Selects cr) crps),
      (evaluationTrace (manager.evaluators s) cr l1 ++ evaluateCalls called cr x).
    rewrite issuerRefSelector_filter, Hbound.
    destruct Hx as (before & e & after & Hevaluators & _ & _ & ->).
    split_and!; try done.
    + exists ((evaluateCall cr x <$> after)
              ++ evaluationTrace (manager.evaluators s) cr l2).
      rewrite evaluationTrace_app, <- app_assoc. f_equal.
      change (x :: l2) with ([x] ++ l2).
      rewrite evaluationTrace_app, evaluationTrace_singleton, app_assoc. f_equal.
      unfold evaluateCalls. rewrite Hevaluators, <- fmap_app, <- app_assoc. done.
    + rewrite length_fmap. apply length_filter.
Qed.

(** X10.  A manager with no registered evaluator approves every request
    that has a candidate, by the first candidate: no evaluator can deny. *)
Theorem Review_without_evaluator_approves
    (Sprintf_q : string → string) (s : manager.subjectaccessreview)
    (cr : cmapi.CertificateRequest)
    (crp : cmpapi.CertificateRequestPolicy)
    (rest : list cmpapi.CertificateRequestPolicy) :
  manager.evaluators s = [] →
  Candidates s cr (crp :: rest) →
  value (manager.Review Sprintf_q s cr)
  = ({| manager.Result := manager.ResultApproved;
        manager.Message :=
          "Approved by CertificateRequestPolicy: " +:+ Sprintf_q (cmpapi.Name crp) |},
     None).
Proof.
  intros Hnone (crps & HList & Hok & Hbound)%Candidates_filter.
  rewrite (Review_of_candidates Sprintf_q s cr crps HList Hok)
    by (by rewrite <- Hbound).
  rewrite <- Hbound.
  pose proof (Review_policies_approved Sprintf_q s cr [] crp rest []) as Happroved.
  cbn [app] in Happroved. rewrite Happroved; [done|constructor|].
  unfold Satisfies. rewrite Hnone. constructor.
Qed.

Lemma Review_without_evaluator_approves_witness :
  value (manager.Review examples.quoted samples.noEvaluators examples.request)
  = ({| manager.Result := manager.ResultApproved;
        manager.Message :=
          "Approved by CertificateRequestPolicy: "
          +:+ examples.quoted (cmpapi.Name examples.policyB) |},
     None).
Proof.
  apply (Review_without_evaluator_approves examples.quoted samples.noEvaluators
           examples.request examples.policyB [examples.policyA]).
  - reflexivity.
  - exists [examples.policyB; examples.policyA]. split; reflexivity.
Defined.

(** X11.  Review returns Denied only when the request has candidates and
    every candidate is refused: the run has called every registered
    evaluator on every candidate, candidate by candidate in listing order,
    each call returned a verdict and, for each candidate, one verdict was
    Denied.  At least one evaluator is registered then. *)
Theorem Review_denied_only_when_all_refused
    (Sprintf_q : string → string) (s : manager.subjectaccessreview)
    (cr : cmapi.CertificateRequest) :
  manager.Result (value (manager.Review Sprintf_q s cr)).1 = manager.ResultDenied →
  ∃ crps policies,
    client.List (manager.client s) = (crps, None)
    ∧ Candidates s cr policies
    ∧ policies ≠ []
    ∧ Forall (Refuses (manager.evaluators s) cr) policies
    ∧ manager.evaluators s ≠ []
    ∧ trace (manager.Review Sprintf_q s cr)
      = ListCall crps None
          :: (checkCall (manager.client s) cr <$> manager.issuerRefSelector cr crps)
          ++ evaluationTrace (manager.evaluators s) cr policies.
Proof.
  destruct (Review_Run Sprintf_q s cr) as
    [crps err HList
    |HList
    |crps l1 x l2 err HList Hcrps Hsplit Hl1 Herr
    |crps HList Hcrps Hok Hnone
    |crps bound HList Hok Hbound Hsome Hall
    |crps l1 x l2 HList Hok Hbound Hl1 Hx
    |crps l1 x l2 called err HList Hok Hbound Hl1 Hx];
    unfold value, trace; cbn [fst snd]; intros Hdenied; try discriminate.
  exists crps, bound. split_and!; try done.
  - apply Candidates_filter. by exists crps.
  - intros Hnil. destruct bound as [|crp bound]; [done|].
    apply Forall_cons in Hall as [[_ Hex] _]. rewrite Hnil in Hex. inv Hex.
  - by rewrite issuerRefSelector_filter.
Qed.

Lemma Review_denied_only_when_all_refused_witness :
  ∃ crps policies,
    client.List (manager.client examples.refusing) = (crps, None)
    ∧ Candidates examples.refusing examples.request policies
    ∧ policies ≠ []
    ∧ Forall (Refuses (manager.evaluators examples.refusing) examples.request) policies
    ∧ manager.evaluators examples.refusing ≠ []
    ∧ trace (manager.Review examples.quoted examples.refusing examples.request)
      = ListCall crps None
          :: (checkCall (manager.client examples.refusing) examples.request
                <$> manager.issuerRefSelector examples.request crps)
          ++ evaluationTrace (manager.evaluators examples.refusing) examples.request
               policies.
Proof.
  apply (Review_denied_only_when_all_refused examples.quoted examples.refusing
           examples.request).
  reflexivity.
Defined.

(** X12.  Evaluators can only narrow what is approved: when Review approves
    a request, it also approves it with the same store and oracle and any
    list of evaluators taken among the registered ones. *)
Theorem Review_approval_survives_fewer_evaluators
    (Sprintf_q : string → string) (c : client.Client)
    (evaluators evaluators' : list approver.Evaluator)
    (cr : cmapi.CertificateRequest) :
  evaluators' ⊆ evaluators →
  manager.Result
    (value (manager.Review Sprintf_q (manager.NewSubjectAccessReview c evaluators) cr)).1
  = manager.ResultApproved →
  manager.Result
    (value (manager.Review Sprintf_q (manager.NewSubjectAccessReview c evaluators') cr)).1
  = manager.ResultApproved.
Proof.
  intros Hsub.
  destruct (Review_Run Sprintf_q (manager.NewSubjectAccessReview c evaluators) cr) as
    [crps err HList
    |HList
    |crps l1 x l2 err HList Hcrps Hsplit Hl1 Herr
    |crps HList Hcrps Hok Hnone
    |crps bound HList Hok Hbound Hsome Hall
    |crps l1 x l2 HList Hok Hbound Hl1 Hx
    |crps l1 x l2 called err HList Hok Hbound Hl1 Hx];
    unfold value at 1; cbn [fst snd]; intros Happroved; try discriminate.
  cbn [manager.NewSubjectAccessReview manager.client manager.evaluators] in *.
  destruct (first_satisfied_subseteq evaluators evaluators' cr l1 x l2 Hsub Hl1 Hx)
    as (l1' & x' & l2' & Heq & Hl1' & Hx').
  rewrite (Review_of_candidates Sprintf_q
             (manager.NewSubjectAccessReview c evaluators') cr crps);
    cbn [manager.NewSubjectAccessReview manager.client manager.evaluators];
    [|done|done|by rewrite Hbound; destruct l1].
  rewrite Hbound, Heq.
  by rewrite (Review_policies_approved Sprintf_q
                (manager.NewSubjectAccessReview c evaluators') cr l1' x' l2' []).
Qed.

Lemma Review_approval_survives_fewer_evaluators_witness :
  manager.Result
    (value (manager.Review examples.quoted
              (manager.NewSubjectAccessReview
                 (examples.allowAll [examples.policyB]) [examples.failingOnA])
              examples.request)).1
  = manager.ResultApproved.
Proof.
  apply (Review_approval_survives_fewer_evaluators examples.quoted
           (examples.allowAll [examples.policyB])
           [examples.approving; examples.failingOnA] [examples.failingOnA]
           examples.request).
  - intros e He. apply list_elem_of_further. exact He.
  - reflexivity.
Defined.

Lemma Review_policies_evaluators Sprintf_q s s' cr policies policyMessages :
  manager.evaluators s = manager.evaluators s' →
  manager.Review_policies Sprintf_q s cr policies policyMessages
  = manager.Review_policies Sprintf_q s' cr policies policyMessages.
Proof.
  intros Hevaluators. revert policyMessages.
  induction policies as [|crp policies IH]; intros acc; [done|].
  cbn [manager.Review_policies]. rewrite Hevaluators. unfold bind.
  destruct (manager.Review_evaluators _ _ _ _ _) as [t [[denied messages] [err|]]];
    [done|].
  destruct (negb denied); [done|]. by rewrite IH.
Qed.

(** Review on a request that has no candidate. *)
Lemma Review_no_candidate Sprintf_q s cr crps :
  client.List (manager.client s) = (crps, None) →
  Forall (λ x, checkError (manager.client s) cr x = None) (filter (Selects cr) crps) →
  filter (Allowed (manager.client s) cr) (filter (Selects cr) crps) = [] →
  value (manager.Review Sprintf_q s cr)
  = ({| manager.Result := manager.ResultUnprocessed;
        manager.Message :=
          if decide (crps = []) then "No CertificateRequestPolicies exist"
          else "No CertificateRequestPolicies bound or applicable" |}, None).
Proof.
  intros HList Hok Hnone. unfold manager.Review, call_List. rewrite HList.
  unfold bind at 1.
  destruct (decide (length crps = 0)) as [Hlen|Hlen].
  { apply nil_length_inv in Hlen. subst crps. by rewrite decide_True. }
  rewrite decide_False by (by intros ->).
  rewrite issuerRefSelector_filter, boundPolicies_RBACBound.
  destruct (RBACBound_outcome (manager.client s) cr (filter (Selects cr) crps))
    as [[_ ->]|(l1 & crp & l2 & err & Hsplit & _ & Herr & _)].
  2: { rewrite Hsplit, Forall_app, Forall_cons in Hok.
       destruct Hok as (_ & Hcrp & _). congruence. }
  unfold bind. by rewrite Hnone.
Qed.

(** When no collaborator fails, the result of Review is read off the
    candidates. *)
Lemma Review_result_cases Sprintf_q s cr crps :
  client.List (manager.client s) = (crps, None) →
  Forall (λ x, checkError (manager.client s) cr x = None) (filter (Selects cr) crps) →
  Forall (λ crp, Forall (λ e, (approver.Evaluate e crp cr).2 = None)
                   (manager.evaluators s))
    (filter (Allowed (manager.client s) cr) (filter (Selects cr) crps)) →
  (filter (Allowed (manager.client s) cr) (filter (Selects cr) crps) = []
   ∧ manager.Result (value (manager.Review Sprintf_q s cr)).1
     = manager.ResultUnprocessed)
  ∨ (Exists (Satisfies (manager.evaluators s) cr)
       (filter (Allowed (manager.client s) cr) (filter (Selects cr) crps))
     ∧ manager.Result (value (manager.Review Sprintf_q s cr)).1
       = manager.ResultApproved)
  ∨ (filter (Allowed (manager.client s) cr) (filter (Selects cr) crps) ≠ []
     ∧ Forall (Refuses (manager.evaluators s) cr)
         (filter (Allowed (manager.client s) cr) (filter (Selects cr) crps))
     ∧ manager.Result (value (manager.Review Sprintf_q s cr)).1
       = manager.ResultDenied).
Proof.
  intros HList' Hok' Hevaluators.
  destruct (Review_Run Sprintf_q s cr) as
    [crps0 err HList
    |HList
    |crps0 l1 x l2 err HList Hcrps Hsplit Hl1 Herr
    |crps0 HList Hcrps Hok Hnone
    |crps0 bound HList Hok Hbound Hsome Hall
    |crps0 l1 x l2 HList Hok Hbound Hl1 Hx
    |crps0 l1 x l2 called err HList Hok Hbound Hl1 Hx];
    rewrite HList in HList'; simplify_eq; unfold value; cbn [fst snd].
  - left. by rewrite !filter_nil.
  - rewrite Hsplit, Forall_app, Forall_cons in Hok'.
    destruct Hok' as (_ & Hx & _). congruence.
  - by left.
  - right; right. done.
  - right; left. split; [|done]. rewrite Hbound. apply Exists_app. right.
    by apply Exists_cons_hd.
  - rewrite Hbound, Forall_app, Forall_cons in Hevaluators.
    destruct Hevaluators as (_ & Hnoerr & _).
    destruct Hx as (before & e & after & Heq & _ & Herr & _).
    rewrite Heq, Forall_app, Forall_cons in Hnoerr.
    destruct Hnoerr as (_ & He & _). congruence.
Qed.

(** X13.  The order in which the store lists the policies does not change
    the result of Review when no collaborator fails: for a request whose
    checks return no error and whose candidates get a verdict from every
    evaluator, Review over any reordering of the listing returns the same
    result, Approved, Denied or Unprocessed. *)
Theorem Review_result_ignores_listing_order
    (Sprintf_q : string → string) (s : manager.subjectaccessreview)
    (cr : cmapi.CertificateRequest)
    (policies crps' : list cmpapi.CertificateRequestPolicy) :
  Candidates s cr policies →
  Forall (λ crp, Forall (λ e, (approver.Evaluate e crp cr).2 = None)
                   (manager.evaluators s)) policies →
  crps' ≡ₚ (client.List (manager.client s)).1 →
  manager.Result (value (manager.Review Sprintf_q (withList s crps') cr)).1
  = manager.Result (value (manager.Review Sprintf_q s cr)).1.
Proof.
  intros (crps & HList & Hok & ->)%Candidates_filter Hevaluators Hperm.
  rewrite HList in Hperm. cbn [fst] in Hperm.
  assert (filter (Allowed (manager.client s) cr) (filter (Selects cr) crps')
          ≡ₚ filter (Allowed (manager.client s) cr) (filter (Selects cr) crps))
    as Hbound by (by rewrite Hperm).
  pose proof (Review_result_cases Sprintf_q s cr crps HList Hok Hevaluators) as Hcases.
  assert ((filter (Allowed (manager.client s) cr) (filter (Selects cr) crps') = []
           ∧ manager.Result (value (manager.Review Sprintf_q (withList s crps') cr)).1
             = manager.ResultUnprocessed)
          ∨ (Exists (Satisfies (manager.evaluators s) cr)
               (filter (Allowed (manager.client s) cr) (filter (Selects cr) crps'))
             ∧ manager.Result (value (manager.Review Sprintf_q (withList s crps') cr)).1
               = manager.ResultApproved)
          ∨ (filter (Allowed (manager.client s) cr) (filter (Selects cr) crps') ≠ []
             ∧ Forall (Refuses (manager.evaluators s) cr)
                 (filter (Allowed (manager.client s) cr) (filter (Selects cr) crps'))
             ∧ manager.Result (value (manager.Review Sprintf_q (withList s crps') cr)).1
               = manager.ResultDenied)) as Hcases'.
  { apply (Review_result_cases Sprintf_q (withList s crps') cr crps').
    - done.
    - cbn [withList manager.client]. by rewrite Hperm.
    - cbn [withList manager.client manager.evaluators]. by rewrite Hbound. }
  assert (filter (Allowed (manager.client s) cr) (filter (Selects cr) crps) = []
          ↔ filter (Allowed (manager.client s) cr) (filter (Selects cr) crps') = [])
    as Hnil.
  { split; intros Hnil; rewrite Hnil in Hbound.
    - symmetry in Hbound. by apply Permutation_nil in Hbound.
    - by apply Permutation_nil in Hbound. }
  destruct Hcases as [[Hnone ->]|[[Hsat ->]|(Hsome & Hall & ->)]];
    destruct Hcases' as [[Hnone' ->]|[[Hsat' ->]|(Hsome' & Hall' & ->)]];
    try done.
  - rewrite Hbound, Hnone in Hsat'. inv Hsat'.
  - by apply Hnil in Hnone.
  - rewrite <- Hbound, Hnone' in Hsat. inv Hsat.
  - rewrite Hbound in Hall'.
    apply Exists_exists in Hsat as (x & Hin & Hx). rewrite Forall_forall in Hall'.
    exfalso. eapply Satisfies_not_Refuses; [exact Hx|]. by apply Hall'.
  - by apply Hnil in Hnone'.
  - rewrite Hbound in Hsat'.
    apply Exists_exists in Hsat' as (x & Hin & Hx). rewrite Forall_forall in Hall.
    exfalso. eapply Satisfies_not_Refuses; [exact Hx|]. by apply Hall.
Qed.

Lemma Review_result_ignores_listing_order_witness :
  manager.Result
    (value (manager.Review examples.quoted
              (withList examples.refusing [examples.policyA; examples.policyB])
              examples.request)).1
  = manager.Result
      (value (manager.Review examples.quoted examples.refusing examples.request)).1.
Proof.
  apply (Review_result_ignores_listing_order examples.quoted examples.refusing
           examples.request [examples.policyB; examples.policyA]
           [examples.policyA; examples.policyB]).
  - exists [examples.policyB; examples.policyA]. split; reflexivity.
  - repeat constructor.
  - apply perm_swap.
Defined.

(** X14.  Review reads the store and the oracle through the candidate set
    only: two managers with the same evaluators, whose stores and oracles
    may differ, return the same response for a request that has the same
    candidates with both, provided both stores list a policy or neither
    does (the message of Unprocessed tells the two apart). *)
Theorem Review_depends_on_candidates
    (Sprintf_q : string → string) (s s' : manager.subjectaccessreview)
    (cr : cmapi.CertificateRequest)
    (policies : list cmpapi.CertificateRequestPolicy) :
  manager.evaluators s = manager.evaluators s' →
  Candidates s cr policies →
  Candidates s' cr policies →
  ((client.List (manager.client s)).1 = [] ↔ (client.List (manager.client s')).1 = []) →
  value (manager.Review Sprintf_q s cr) = value (manager.Review Sprintf_q s' cr).
Proof.
  intros Hevaluators (crps & HList & Hok & Hbound)%Candidates_filter
    (crps' & HList' & Hok' & Hbound')%Candidates_filter Hempty.
  rewrite HList, HList' in Hempty. cbn [fst] in Hempty.
  destruct policies as [|crp policies].
  - rewrite (Review_no_candidate Sprintf_q s cr crps) by done.
    rewrite (Review_no_candidate Sprintf_q s' cr crps') by done.
    destruct (decide (crps = [])) as [Hcrps|Hcrps];
      destruct (decide (crps' = [])) as [Hcrps'|Hcrps']; try done.
    + by apply Hempty in Hcrps.
    + by apply Hempty in Hcrps'.
  - rewrite (Review_of_candidates Sprintf_q s cr crps HList Hok)
      by (by rewrite <- Hbound).
    rewrite (Review_of_candidates Sprintf_q s' cr crps' HList' Hok')
      by (by rewrite <- Hbound').
    unfold value at 1 3. cbn [snd]. rewrite <- Hbound, <- Hbound'.
    by rewrite (Review_policies_evaluators Sprintf_q s s').
Qed.

Lemma Review_depends_on_candidates_witness :
  value (manager.Review examples.quoted
           (manager.NewSubjectAccessReview
              (examples.allowAll [examples.policyA]) [examples.denying "no"])
           examples.request)
  = value (manager.Review examples.quoted
             (manager.NewSubjectAccessReview
                (examples.picky [examples.policyB; examples.policyA])
                [examples.denying "no"])
             examples.request).
Proof.
  apply (Review_depends_on_candidates examples.quoted
           (manager.NewSubjectAccessReview
              (examples.allowAll [examples.policyA]) [examples.denying "no"])
           (manager.NewSubjectAccessReview
              (examples.picky [examples.policyB; examples.policyA])
              [examples.denying "no"])
           examples.request [examples.policyA]).
  - reflexivity.
  - exists [examples.policyA]. split; reflexivity.
  - exists [examples.policyB; examples.policyA]. split; reflexivity.
  - split; discriminate.
Defined.

End Schedule.

(** ** pkg/approver/attribute: the preparation of the attribute approver *)

Module attribute_approver.

(** [type attribute struct { registeredPlugins []string }] *)
Record attribute : Type := {
  registeredPlugins : list string;
}.

(** [func (a attribute) Name() string] *)
Definition Name (a : attribute) : string := "attribute".

(** The loop of [Prepare] over [registry.Shared.Approvers()].  The registry
    is not among the sources; the loop reads of an approver what its
    [Name()] returns, so the approvers are given by their names.  [a] is
    the copy of the receiver that the method works on. *)
Fixpoint Prepare_loop (a : attribute) (approvers : list string) : attribute :=
  match approvers with
  | [] => a
  | approver :: approvers' =>
      if negb (String.eqb approver (Name a))
      then Prepare_loop
             {| registeredPlugins := registeredPlugins a ++ [approver] |} approvers'
      else Prepare_loop a approvers'
  end.

(** [func (a attribute) Prepare(ctx, mgr) error]: the receiver is passed by
    value.  The first component is the copy of the receiver when the method
    returns, the second the error it returns. *)
Definition Prepare (a : attribute) (approvers : list string) :
    attribute * option error :=
  (Prepare_loop a approvers, None).

End attribute_approver.

Section Preparation.

Import attribute_approver.

Lemma Prepare_loop_filter a approvers :
  Prepare_loop a approvers
  = {| registeredPlugins :=
         registeredPlugins a ++ filter (λ name, name ≠ "attribute") approvers |}.
Proof.
  revert a. induction approvers as [|approver approvers IH]; intros [plugins].
  { rewrite filter_nil. simpl. by rewrite app_nil_r. }
  cbn [Prepare_loop registeredPlugins]. unfold Name. rewrite filter_cons.
  destruct (String.eqb_spec approver "attribute") as [->|Hother]; cbn [negb].
  - rewrite decide_False by (intros H; by apply H). apply IH.
  - rewrite decide_True by done. rewrite IH. cbn [registeredPlugins].
    rewrite <- app_assoc. reflexivity.
Qed.

(** X15.  [Prepare] of the attribute approver never fails.  The list it
    builds holds the names the receiver already had, followed by the names
    of the registered approvers in registration order, the name "attribute"
    left out: among the names it adds, "attribute" never is, and every
    other registered name is, as often as it is registered. *)
Theorem Prepare_collects_other_approvers
    (a : attribute) (approvers : list string) :
  Prepare a approvers
  = ({| registeredPlugins :=
          registeredPlugins a ++ filter (λ name, name ≠ Name a) approvers |}, None)
  ∧ (∀ name,
       name ∈ registeredPlugins (Prepare a approvers).1 ↔
       name ∈ registeredPlugins a ∨ (name ∈ approvers ∧ name ≠ "attribute"))
  ∧ (registeredPlugins a = [] → "attribute" ∉ registeredPlugins (Prepare a approvers).1).
Proof.
  unfold Prepare. rewrite Prepare_loop_filter. cbn [fst registeredPlugins Name].
  split_and!.
  - done.
  - intros name. rewrite elem_of_app, list_elem_of_filter. tauto.
  - intros ->. cbn [app]. rewrite list_elem_of_filter. by intros [H _].
Qed.

Example Prepare_sample :
  Prepare {| registeredPlugins := [] |} ["attribute"; "rego"; "attribute"; "cel"]
  = ({| registeredPlugins := ["rego"; "cel"] |}, None).
Proof. reflexivity. Qed.

End Preparation.
